(** * Synthetic property-data generator (step2_realistic_data.py)

    A shallow embedding of [create_realistic_property_data] and of the
    Python primitives it calls: binary64 floats, [int()], [round(x, 2)],
    the [random] module and [datetime.now()].  The generator is a
    computation in a state-and-exception monad over the interpreter's
    global state; its results are proved for every random source that
    honours the range contracts of the [random] module.  The pandas
    operations that the scripts apply to the table (step2_realistic_data.py
    and step3_simple_analysis.py) are embedded as functions on the list
    of its rows. *)

From Stdlib Require Import ZArith List String Ascii Bool Lia.
From Stdlib Require Import Floats.SpecFloat.
Import ListNotations.
Open Scope Z_scope.

(** ** Exceptions and results *)

(** The exceptions the Python primitives used here can raise, followed by
    the two error names of the design document ([ConfigurationError],
    [InvalidArgumentError]); no statement of the source raises the last
    two. *)
Inductive exn : Type :=
  | IndexError
  | ValueError
  | OverflowError
  | ZeroDivisionError
  | KeyError
  | ConfigurationError
  | InvalidArgumentError.

Definition Result (A : Type) : Type := (exn + A)%type.

Definition Raise {A : Type} (e : exn) : Result A := inl e.
Definition Ok {A : Type} (a : A) : Result A := inr a.

Definition rbind {A B : Type} (c : Result A) (k : A -> Result B) : Result B :=
  match c with
  | inl e => inl e
  | inr a => k a
  end.

(** ** Python floats: IEEE 754 binary64 *)

Module PyFloat.

Definition prec : Z := 53.
Definition emax : Z := 1024.

Definition float : Type := spec_float.

Definition fmul : float -> float -> float := SFmul prec emax.
Definition fadd : float -> float -> float := SFadd prec emax.
Definition fsub : float -> float -> float := SFsub prec emax.
Definition fdiv : float -> float -> float := SFdiv prec emax.
Definition fltb : float -> float -> bool := SFltb.

Definition is_inf (x : float) : bool :=
  match x with S754_infinity _ => true | _ => false end.

(** [float(n)] for a Python int: the nearest double, ties to even;
    OverflowError when the int is too large. *)
Definition float_of_int (n : Z) : Result float :=
  let x := binary_normalize prec emax n 0 false in
  if is_inf x then Raise OverflowError else Ok x.

(** A decimal literal [num/den] of the source text ([0.4] is [4/10]):
    the double nearest to the written number. *)
Definition literal (num den : positive) : float :=
  fdiv (S754_finite false num 0) (S754_finite false den 0).

(** [a / b] on Python ints: the correctly rounded quotient. *)
Definition int_truediv (a b : Z) : Result float :=
  match a, b with
  | _, Z0 => Raise ZeroDivisionError
  | Z0, _ => Ok (S754_zero false)
  | Zpos p, Zpos q =>
      let x := fdiv (S754_finite false p 0) (S754_finite false q 0) in
      if is_inf x then Raise OverflowError else Ok x
  | Zpos p, Zneg q =>
      let x := fdiv (S754_finite false p 0) (S754_finite true q 0) in
      if is_inf x then Raise OverflowError else Ok x
  | Zneg p, Zpos q =>
      let x := fdiv (S754_finite true p 0) (S754_finite false q 0) in
      if is_inf x then Raise OverflowError else Ok x
  | Zneg p, Zneg q =>
      let x := fdiv (S754_finite true p 0) (S754_finite true q 0) in
      if is_inf x then Raise OverflowError else Ok x
  end.

(** [int(x)]: truncation toward zero. *)
Definition py_int (x : float) : Result Z :=
  match x with
  | S754_zero _ => Ok 0
  | S754_nan => Raise ValueError
  | S754_infinity _ => Raise OverflowError
  | S754_finite s m e =>
      let a := match e with
               | Zneg p => Z.shiftr (Zpos m) (Zpos p)
               | _ => Z.shiftl (Zpos m) e
               end in
      Ok (if s then - a else a)
  end.

(** Nearest integer to [n / d] for [0 <= n], [0 < d], ties to even. *)
Definition div_half_even (n d : Z) : Z :=
  let q := n / d in
  let r := n mod d in
  match 2 * r ?= d with
  | Lt => q
  | Eq => if Z.even q then q else q + 1
  | Gt => q + 1
  end.

(** [round(x, 2)]: the exact value of [x] is rounded to two decimals,
    ties to even, and the decimal is read back as the nearest double. *)
Definition py_round2 (x : float) : float :=
  match x with
  | S754_finite s m e =>
      let k := match e with
               | Zneg p => div_half_even (100 * Zpos m) (Z.pow_pos 2 p)
               | _ => 100 * Z.shiftl (Zpos m) e
               end in
      match k with
      | Zpos c => fdiv (S754_finite s c 0) (S754_finite false 100 0)
      | _ => S754_zero s
      end
  | _ => x
  end.

End PyFloat.

Import PyFloat.

(** ** The [datetime] values the generator handles *)

Module PyDatetime.

(** A naive [datetime] is kept as its distance from 1970-01-01T00:00:00
    in microseconds; [timedelta(days=d)] is [d] days of microseconds. *)
Definition datetime : Type := Z.

Definition us_per_day : Z := 86400 * 1000000.

Definition sub_days (t : datetime) (days : Z) : datetime :=
  t - days * us_per_day.

(** Proleptic Gregorian ordinal of a datetime: 0001-01-01 is day 1 and
    1970-01-01 is day 719163. *)
Definition toordinal (t : datetime) : Z := 719163 + t / us_per_day.

Definition DI400Y : Z := 146097.
Definition DI100Y : Z := 36524.
Definition DI4Y : Z := 1461.

Definition DAYS_BEFORE_MONTH : list Z :=
  [-1; 0; 31; 59; 90; 120; 151; 181; 212; 243; 273; 304; 334].

Definition tab (l : list Z) (i : Z) : Z := nth (Z.to_nat i) l 0.

(** [_ord2ymd] of the standard library, year and month only. *)
Definition ord2ym (ordinal : Z) : Z * Z :=
  let n := ordinal - 1 in
  let n400 := n / DI400Y in
  let n := n mod DI400Y in
  let year := n400 * 400 + 1 in
  let n100 := n / DI100Y in
  let n := n mod DI100Y in
  let n4 := n / DI4Y in
  let n := n mod DI4Y in
  let n1 := n / 365 in
  let n := n mod 365 in
  let year := year + n100 * 100 + n4 * 4 + n1 in
  if (n1 =? 4) || (n100 =? 4) then (year - 1, 12)
  else
    let leapyear := (n1 =? 3) && (negb (n4 =? 24) || (n100 =? 3)) in
    let month := Z.shiftr (n + 50) 5 in
    let preceding :=
      tab DAYS_BEFORE_MONTH month
      + (if (2 <? month) && leapyear then 1 else 0) in
    if n <? preceding then (year, month - 1) else (year, month).

Definition digit (d : Z) : ascii := ascii_of_nat (48 + Z.to_nat (d mod 10)).

(** [strftime('%Y-%m')]: four digits of the year, a dash, two digits
    of the month. *)
Definition strftime_Ym (t : datetime) : string :=
  let (y, m) := ord2ym (toordinal t) in
  String (digit (y / 1000))
    (String (digit (y / 100))
       (String (digit (y / 10))
          (String (digit y)
             (String "-"%char
                (String (digit (m / 10)) (String (digit m) EmptyString)))))).

End PyDatetime.

Import PyDatetime.

(** ** The configuration tables and the rows of the table *)

Record CityInfo : Type := {
  base_price_per_sqft : Z;
  price_variation : float;
  avg_area_multiplier : float
}.

Record TypeInfo : Type := {
  min_area : Z;
  max_area : Z
}.

(** One dictionary appended to [properties]; a row of the data frame. *)
Record Property : Type := {
  city : string;
  property_type : string;
  area_sqft : Z;
  price_lakhs : float;
  price_per_sqft : Z;
  property_age_years : Z;
  floor_number : Z;
  total_floors : Z;
  location_score : Z;
  listing_date : datetime;
  month_listed : string
}.

(** A dict literal keeps insertion order; [list(d.keys())] is the list of
    first components. *)
Definition dict (V : Type) : Type := list (string * V).

Definition keys {V : Type} (d : dict V) : list string := map fst d.

Fixpoint getitem {V : Type} (d : dict V) (k : string) : Result V :=
  match d with
  | [] => Raise KeyError
  | (k', v) :: d' => if String.eqb k k' then Ok v else getitem d' k
  end.

Definition f0_3 : float := Eval vm_compute in literal 3 10.
Definition f0_4 : float := Eval vm_compute in literal 4 10.
Definition f0_5 : float := Eval vm_compute in literal 5 10.
Definition f0_8 : float := Eval vm_compute in literal 8 10.
Definition f1_0 : float := Eval vm_compute in literal 10 10.
Definition f1_1 : float := Eval vm_compute in literal 11 10.
Definition f1_2 : float := Eval vm_compute in literal 12 10.
Definition f1_3 : float := Eval vm_compute in literal 13 10.
Definition f0_02 : float := Eval vm_compute in literal 2 100.
Definition f0_01 : float := Eval vm_compute in literal 1 100.

Definition cities_info : dict CityInfo :=
  [ ("Mumbai"%string,
      {| base_price_per_sqft := 15000; price_variation := f0_4;
         avg_area_multiplier := f0_8 |});
    ("Delhi"%string,
      {| base_price_per_sqft := 12000; price_variation := f0_3;
         avg_area_multiplier := f1_0 |});
    ("Bangalore"%string,
      {| base_price_per_sqft := 8000; price_variation := f0_5;
         avg_area_multiplier := f1_2 |});
    ("Chennai"%string,
      {| base_price_per_sqft := 7000; price_variation := f0_3;
         avg_area_multiplier := f1_1 |});
    ("Pune"%string,
      {| base_price_per_sqft := 7500; price_variation := f0_4;
         avg_area_multiplier := f1_1 |});
    ("Hyderabad"%string,
      {| base_price_per_sqft := 6500; price_variation := f0_5;
         avg_area_multiplier := f1_3 |}) ].

Definition property_types : dict TypeInfo :=
  [ ("1BHK"%string, {| min_area := 400; max_area := 600 |});
    ("2BHK"%string, {| min_area := 600; max_area := 900 |});
    ("3BHK"%string, {| min_area := 900; max_area := 1400 |});
    ("4BHK"%string, {| min_area := 1400; max_area := 2000 |}) ].

(** Mixed arithmetic: the int operand is converted with [float()]. *)
Definition int_mul_float (n : Z) (x : float) : Result float :=
  rbind (float_of_int n) (fun f => Ok (fmul f x)).

Definition int_add_float (n : Z) (x : float) : Result float :=
  rbind (float_of_int n) (fun f => Ok (fadd f x)).

Definition int_sub_float (n : Z) (x : float) : Result float :=
  rbind (float_of_int n) (fun f => Ok (fsub f x)).

(** ** The [random] module *)

(** The generator behind [random.*]: a state, the seeding function, and
    the two primitive draws every other draw is built from.
    [rng_randbelow n] is [_randbelow(n)], a draw in [range(n)];
    [rng_bits53] is the 53-bit integer [k] from which [random()] builds
    the float [k / 2**53]. *)
Record RandomSource : Type := {
  rng_state : Type;
  rng_seed : Z -> rng_state;
  rng_randbelow : Z -> rng_state -> Z * rng_state;
  rng_bits53 : rng_state -> Z * rng_state;
  rng_randbelow_range :
    forall n s, 0 < n -> 0 <= fst (rng_randbelow n s) < n;
  rng_bits53_range :
    forall s, 0 <= fst (rng_bits53 s) < 2 ^ 53
}.

Section Generator.

Variable R : RandomSource.

(** The part of the interpreter's state the script can touch: the
    global generator of [random], the seed last given to NumPy's global
    generator, the system clock with the number of readings taken so
    far, and the lines printed. *)
Record World : Type := {
  py_random : rng_state R;
  np_random : option Z;
  clock : nat -> N;
  clock_reads : nat;
  stdout : list string
}.

Definition set_py_random (w : World) (s : rng_state R) : World :=
  {| py_random := s; np_random := np_random w; clock := clock w;
     clock_reads := clock_reads w; stdout := stdout w |}.

Definition set_np_random (w : World) (s : option Z) : World :=
  {| py_random := py_random w; np_random := s; clock := clock w;
     clock_reads := clock_reads w; stdout := stdout w |}.

Definition tick (w : World) : World :=
  {| py_random := py_random w; np_random := np_random w; clock := clock w;
     clock_reads := S (clock_reads w); stdout := stdout w |}.

(** Computations that read and write the world and may raise. *)
Definition M (A : Type) : Type := World -> Result (A * World).

Definition ret {A : Type} (a : A) : M A := fun w => Ok (a, w).

Definition bind {A B : Type} (c : M A) (k : A -> M B) : M B :=
  fun w =>
    match c w with
    | inl e => inl e
    | inr (a, w') => k a w'
    end.

Definition raise {A : Type} (e : exn) : M A := fun _ => Raise e.

Definition lift {A : Type} (r : Result A) : M A :=
  fun w =>
    match r with
    | inl e => inl e
    | inr a => Ok (a, w)
    end.

Notation "x <- c ;; k" := (bind c (fun x => k))
  (at level 61, c at next level, right associativity).

(** [random.seed(n)] takes any int. [np.random.seed(n)] takes an int
    between 0 and [2**32 - 1] and raises ValueError for any other. *)
Definition random_seed (n : Z) : M unit :=
  fun w => Ok (tt, set_py_random w (rng_seed R n)).

Definition np_random_seed (n : Z) : M unit :=
  fun w =>
    if (0 <=? n) && (n <=? 4294967295)
    then Ok (tt, set_np_random w (Some n))
    else Raise ValueError.

Definition randbelow (n : Z) : M Z :=
  fun w =>
    let (v, s) := rng_randbelow R n (py_random w) in
    Ok (v, set_py_random w s).

(** [random.randint(a, b)] is [randrange(a, b + 1)]. *)
Definition randint (a b : Z) : M Z :=
  let width := b + 1 - a in
  if 0 <? width then v <- randbelow width ;; ret (a + v)
  else raise ValueError.

(** [random.choice(seq)]. *)
Definition choice {A : Type} (seq : list A) : M A :=
  match seq with
  | [] => raise IndexError
  | _ :: _ =>
      i <- randbelow (Z.of_nat (List.length seq)) ;;
      match nth_error seq (Z.to_nat i) with
      | Some x => ret x
      | None => raise IndexError
      end
  end.

(** [random.random()]: [k / 2**53], exactly representable. *)
Definition random : M float :=
  fun w =>
    let (k, s) := rng_bits53 R (py_random w) in
    Ok (binary_normalize prec emax k (-53) false, set_py_random w s).

(** [random.uniform(a, b)] is [a + (b - a) * random()]. *)
Definition uniform (a b : float) : M float :=
  r <- random ;; ret (fadd a (fmul (fsub b a) r)).

(** [datetime.now()]: the next reading of the clock. *)
Definition datetime_now : M datetime :=
  fun w => Ok (Z.of_N (clock w (clock_reads w)), tick w).

(** *** The body of the [for] loop, lines 69 to 119 *)

Definition one_property (cities_info : dict CityInfo)
    (property_types : dict TypeInfo) : M Property :=
  city <- choice (keys cities_info) ;;
  prop_type <- choice (keys property_types) ;;
  city_data <- lift (getitem cities_info city) ;;
  prop_data <- lift (getitem property_types prop_type) ;;
  base_area <- randint (min_area prop_data) (max_area prop_data) ;;
  scaled <- lift (int_mul_float base_area (avg_area_multiplier city_data)) ;;
  area <- lift (py_int scaled) ;;
  let base_price := base_price_per_sqft city_data in
  lo <- lift (int_sub_float 1 (price_variation city_data)) ;;
  hi <- lift (int_add_float 1 (price_variation city_data)) ;;
  price_variation <- uniform lo hi ;;
  varied <- lift (int_mul_float base_price price_variation) ;;
  price_per_sqft <- lift (py_int varied) ;;
  total_price_lakhs <- lift (int_truediv (price_per_sqft * area) 100000) ;;
  property_age <- randint 0 25 ;;
  floor_number <- randint 1 20 ;;
  total_floors <- randint floor_number 25 ;;
  location_score <- randint 1 10 ;;
  bonus_part <- lift (int_mul_float (location_score - 5) f0_02) ;;
  location_bonus <- lift (int_add_float 1 bonus_part) ;;
  age_part <- lift (int_mul_float property_age f0_01) ;;
  age_penalty <- lift (int_sub_float 1 age_part) ;;
  let final_price := fmul (fmul total_price_lakhs location_bonus) age_penalty in
  days_ago <- randint 1 730 ;;
  now <- datetime_now ;;
  let listing_date := sub_days now days_ago in
  ret {| city := city;
         property_type := prop_type;
         area_sqft := area;
         price_lakhs := py_round2 final_price;
         price_per_sqft := price_per_sqft;
         property_age_years := property_age;
         floor_number := floor_number;
         total_floors := total_floors;
         location_score := location_score;
         listing_date := listing_date;
         month_listed := strftime_Ym listing_date |}.

(** [for i in range(num_properties)]: [k] iterations left, [properties]
    the accumulator. *)
Fixpoint for_range (k : nat) (cities_info : dict CityInfo)
    (property_types : dict TypeInfo) (properties : list Property)
    : M (list Property) :=
  match k with
  | O => ret properties
  | S k' =>
      row <- one_property cities_info property_types ;;
      for_range k' cities_info property_types (properties ++ [row])
  end.

(** The function with its two local tables as arguments. *)
Definition generate_from (cities_info : dict CityInfo)
    (property_types : dict TypeInfo) (num_properties : Z)
    : M (list Property) :=
  for_range (Z.to_nat num_properties) cities_info property_types [].

(** [create_realistic_property_data(num_properties)]; the data frame is
    the list of its rows in order. *)
Definition create_realistic_property_data (num_properties : Z)
    : M (list Property) :=
  generate_from cities_info property_types num_properties.

(** Lines 15 and 16 of the script, which give both generators the seed
    42. *)
Definition seed_all (seed : Z) : M unit :=
  _ <- np_random_seed seed ;; random_seed seed.

(** The seeding followed by the call of line 125; the script runs it
    with the seed 42 and the count 500. *)
Definition seeded_run (seed num_properties : Z) : M (list Property) :=
  _ <- seed_all seed ;; create_realistic_property_data num_properties.

Definition script_df : M (list Property) := seeded_run 42 500.

End Generator.

Arguments ret {R A} a w.
Arguments bind {R A B} c k w.

(** * The analysis: values, rounding and bounds *)

(** Every finite double is an integer multiple of [2 ** -1074], the
    smallest subnormal. [units f] is the value of [f] counted in that
    unit, so that values are compared and added as integers. *)
Definition B : Z := 1074.

Definition units (f : float) : Z :=
  match f with
  | S754_finite false m e => Zpos m * 2 ^ (e + B)
  | S754_finite true m e => - (Zpos m * 2 ^ (e + B))
  | _ => 0
  end.

(** [+0.0] or a positive finite float with a mantissa of at most 53 bits. *)
Definition nonneg_finite (f : float) : Prop :=
  match f with
  | S754_zero false => True
  | S754_finite false m e => - B <= e /\ Zpos m < 2 ^ 53
  | _ => False
  end.

(** Rounding to nearest, ties to even: the exact value [X * 2 ** -sc] is
    cut at the exponent [fexp] gives its magnitude, and the result is
    counted in units. *)
Definition round_units (sc X : Z) : Z :=
  let E := fexp prec emax (Z.log2 X + 1 - sc) in
  div_half_even X (2 ^ (E + sc)) * 2 ^ (E + B).

(** [f] is non-negative and finite with a value between [lo] and [hi]
    units. *)
Definition within (lo hi : Z) (f : float) : Prop :=
  nonneg_finite f /\ lo <= units f <= hi.

(** The position of an exact value between two consecutive mantissas, as
    the two bits below the last one: exact, below the middle, the middle,
    above the middle. *)
Definition loc_code (l : location) : Z :=
  match l with
  | loc_Exact => 0
  | loc_Inexact Lt => 1
  | loc_Inexact Eq => 2
  | loc_Inexact Gt => 3
  end.

Definition nonneg_finiteb (f : float) : bool :=
  match f with
  | S754_zero false => true
  | S754_finite false m e => (- B <=? e) && (Zpos m <? 2 ^ 53)
  | _ => false
  end.

(** [between lo hi x]: [x] is a non-negative finite float whose value lies
    between those of the floats [lo] and [hi]. *)
Definition between (lo hi x : float) : Prop :=
  within (units lo) (units hi) x.

(** Floats well below the overflow threshold. *)
Definition small (f : float) : Prop := units f < 2 ^ (B + 400).

Definition smallb (f : float) : bool :=
  nonneg_finiteb f
  && match f with
     | S754_finite _ _ e => e <=? 340
     | _ => true
     end.

(** Comparison of two non-negative finite floats on a common exponent. *)
Definition fle_b (x y : float) : bool :=
  match x, y with
  | S754_zero false, S754_zero false => true
  | S754_zero false, S754_finite false _ _ => true
  | S754_finite false m1 e1, S754_finite false m2 e2 =>
      Zpos m1 * 2 ^ (e1 - Z.min e1 e2) <=? Zpos m2 * 2 ^ (e2 - Z.min e1 e2)
  | _, _ => false
  end.

(** [float(n)] without the overflow test. *)
Definition F (n : Z) : float := binary_normalize prec emax n 0 false.

(** The largest value of [random()], [1 - 2**-53]. *)
Definition random_max : float :=
  Eval vm_compute in binary_normalize prec emax (2 ^ 53 - 1) (-53) false.

(** ** Bounds of one row, computed from its city and type

    Every float of the loop body is bounded by two floats, obtained by
    running the same operations at the ends of the ranges of the draws;
    the operations are monotone on non-negative floats. *)

Definition fival : Type := (float * float)%type.

Definition fi_ok (x : fival) : bool := nonneg_finiteb (fst x) && smallb (snd x).

Definition fi_const (f : float) : fival := (f, f).

Definition fi_mul (x y : fival) : fival :=
  (fmul (fst x) (fst y), fmul (snd x) (snd y)).

Definition fi_add (x y : fival) : fival :=
  (fadd (fst x) (fst y), fadd (snd x) (snd y)).

Definition trunc (f : float) : Z :=
  match py_int f with
  | inr v => v
  | inl _ => 0
  end.

Definition fi_int (x : fival) : Z * Z := (trunc (fst x), trunc (snd x)).

(** [1 + (location_score - 5) * 0.02] and [1 - (property_age * 0.01)]. *)
Definition location_bonus_of (location_score : Z) : Result float :=
  rbind (int_mul_float (location_score - 5) f0_02) (int_add_float 1).

Definition age_penalty_of (property_age : Z) : Result float :=
  rbind (int_mul_float property_age f0_01) (int_sub_float 1).

(** The price of a row recomputed from its stored fields, following
    steps 7 and 11 to 13 of the design document:
    [rawTotal = (pricePerAreaUnit * areaUnits) / 100000],
    [locationBonus = 1 + (locationScore - 5) * 0.02],
    [agePenalty = 1 - ageYears * 0.01],
    [totalPrice = round(rawTotal * locationBonus * agePenalty, 2)]. *)
Definition spec_total_price (pricePerAreaUnit areaUnits locationScore ageYears : Z)
    : Result float :=
  rbind (int_truediv (pricePerAreaUnit * areaUnits) 100000) (fun rawTotal =>
  rbind (location_bonus_of locationScore) (fun locationBonus =>
  rbind (age_penalty_of ageYears) (fun agePenalty =>
  Ok (py_round2 (fmul (fmul rawTotal locationBonus) agePenalty))))).

Definition bonus_bounds : fival :=
  Eval vm_compute in
    match location_bonus_of 1, location_bonus_of 10 with
    | inr lo, inr hi => (lo, hi)
    | _, _ => (S754_nan, S754_nan)
    end.

Definition penalty_bounds : fival :=
  Eval vm_compute in
    match age_penalty_of 25, age_penalty_of 0 with
    | inr lo, inr hi => (lo, hi)
    | _, _ => (S754_nan, S754_nan)
    end.

(** The ends [1 - v] and [1 + v] of the price variation of a city, and
    its base price as a float. *)
Definition price_range (cd : CityInfo) : option (float * float * float) :=
  match int_sub_float 1 (price_variation cd),
        int_add_float 1 (price_variation cd),
        float_of_int (base_price_per_sqft cd) with
  | inr lo, inr hi, inr base => Some (lo, hi, base)
  | _, _, _ => None
  end.

Definition area_float_bounds (cd : CityInfo) (pd : TypeInfo) : fival :=
  fi_mul (F (min_area pd), F (max_area pd))
         (fi_const (avg_area_multiplier cd)).

Definition area_bounds (cd : CityInfo) (pd : TypeInfo) : Z * Z :=
  fi_int (area_float_bounds cd pd).

Definition spread_bounds (lo hi : float) : fival :=
  fi_mul (fi_const (fsub hi lo)) (S754_zero false, random_max).

Definition variation_bounds (lo hi : float) : fival :=
  fi_add (fi_const lo) (spread_bounds lo hi).

Definition pps_float_bounds (cd : CityInfo) : fival :=
  match price_range cd with
  | Some (lo, hi, base) => fi_mul (fi_const base) (variation_bounds lo hi)
  | None => (S754_nan, S754_nan)
  end.

Definition pps_bounds (cd : CityInfo) : Z * Z := fi_int (pps_float_bounds cd).

Definition total_int_bounds (cd : CityInfo) (pd : TypeInfo) : Z * Z :=
  (fst (pps_bounds cd) * fst (area_bounds cd pd) / 100000,
   snd (pps_bounds cd) * snd (area_bounds cd pd) / 100000 + 1).

Definition total_bounds (cd : CityInfo) (pd : TypeInfo) : fival :=
  (F (fst (total_int_bounds cd pd)), F (snd (total_int_bounds cd pd))).

Definition final_bounds (cd : CityInfo) (pd : TypeInfo) : fival :=
  fi_mul (fi_mul (total_bounds cd pd) bonus_bounds) penalty_bounds.

Definition price_int_bounds (cd : CityInfo) (pd : TypeInfo) : Z * Z :=
  (trunc (fst (final_bounds cd pd)), trunc (snd (final_bounds cd pd)) + 1).

Definition price_bounds (cd : CityInfo) (pd : TypeInfo) : fival :=
  (F (fst (price_int_bounds cd pd)), F (snd (price_int_bounds cd pd))).

(** Everything the bounds rely on: the conversions do not overflow, the
    ranges of the draws are not empty, every intermediate float stays
    small, and the lowest final price is at least one lakh. *)
Definition city_ok (cd : CityInfo) : bool :=
  match price_range cd with
  | Some (lo, hi, base) =>
      smallb lo && smallb (fsub hi lo) && smallb base
      && smallb (avg_area_multiplier cd)
      && fi_ok (spread_bounds lo hi)
      && fi_ok (variation_bounds lo hi)
      && fi_ok (pps_float_bounds cd)
  | None => false
  end.

Definition combo_ok (cd : CityInfo) (pd : TypeInfo) : bool :=
  city_ok cd
  && (0 <=? min_area pd) && (min_area pd <=? max_area pd)
  && (max_area pd <? 2 ^ 53)
  && fi_ok (F (min_area pd), F (max_area pd))
  && fi_ok (area_float_bounds cd pd)
  && (0 <? fst (pps_bounds cd) * fst (area_bounds cd pd))
  && (snd (pps_bounds cd) * snd (area_bounds cd pd) <? 2 ^ 53)
  && fi_ok (total_bounds cd pd)
  && fi_ok (fi_mul (total_bounds cd pd) bonus_bounds)
  && fi_ok (final_bounds cd pd)
  && (1 <=? fst (price_int_bounds cd pd))
  && (100 * snd (price_int_bounds cd pd) <? 2 ^ 53).

Definition tables_ok (cities : dict CityInfo) (types : dict TypeInfo) : bool :=
  forallb (fun c => forallb (fun t => combo_ok (snd c) (snd t)) types) cities.

(** The bonus of every location score and the penalty of every age lie
    within [bonus_bounds] and [penalty_bounds]. *)
Definition zrange (a : Z) (n : nat) : list Z :=
  map (fun i => a + Z.of_nat i) (seq 0 n).

Definition in_bounds (b : fival) (r : Result float) : bool :=
  match r with
  | inr x => nonneg_finiteb x && fle_b (fst b) x && fle_b x (snd b)
  | inl _ => false
  end.

(** The fields of a row other than the two dates. *)
Definition without_dates (r : Property) : Property :=
  {| city := city r;
     property_type := property_type r;
     area_sqft := area_sqft r;
     price_lakhs := price_lakhs r;
     price_per_sqft := price_per_sqft r;
     property_age_years := property_age_years r;
     floor_number := floor_number r;
     total_floors := total_floors r;
     location_score := location_score r;
     listing_date := 0;
     month_listed := EmptyString |}.

(** Order of two floats by value. *)
Definition fle (x y : float) : Prop := units x <= units y.

(** What the analysis establishes for a row drawn for the city [cd] and
    the type [pd], with the clock [clk]. *)
Record RowFacts (clk : nat -> N) (cd : CityInfo) (pd : TypeInfo)
    (row : Property) : Prop := {
  rf_area :
    fst (area_bounds cd pd) <= area_sqft row <= snd (area_bounds cd pd);
  rf_pps :
    fst (pps_bounds cd) <= price_per_sqft row <= snd (pps_bounds cd);
  rf_age : 0 <= property_age_years row <= 25;
  rf_floor : 1 <= floor_number row <= 20;
  rf_total_floors : floor_number row <= total_floors row <= 25;
  rf_location : 1 <= location_score row <= 10;
  rf_price :
    spec_total_price (price_per_sqft row) (area_sqft row)
      (location_score row) (property_age_years row)
    = Ok (price_lakhs row);
  rf_price_bounds :
    between (fst (price_bounds cd pd)) (snd (price_bounds cd pd))
            (price_lakhs row);
  rf_area_pos : 0 < area_sqft row;
  rf_pps_pos : 0 < price_per_sqft row;
  rf_price_pos : fltb (S754_zero false) (price_lakhs row) = true;
  rf_date :
    exists k days_ago,
      1 <= days_ago <= 730
      /\ listing_date row = sub_days (Z.of_N (clk k)) days_ago;
  rf_month : month_listed row = strftime_Ym (listing_date row)
}.

(** A row of a run comes from a city and a type of the tables and has the
    facts of the analysis. *)
Definition row_ok (cities : dict CityInfo) (types : dict TypeInfo)
    (clk : nat -> N) (row : Property) : Prop :=
  exists cd pd,
    getitem cities (city row) = Ok cd
    /\ getitem types (property_type row) = Ok pd
    /\ RowFacts clk cd pd row.

(** ** A concrete random source

    A 64-bit linear congruential generator, to run the model on: the
    theorems hold for every [RandomSource], this one shows that the
    contracts can be met and gives the concrete runs. *)
Definition lcg_next (s : Z) : Z :=
  (s * 6364136223846793005 + 1442695040888963407) mod 2 ^ 64.

Definition lcg_randbelow (n s : Z) : Z * Z := ((s / 65536) mod n, lcg_next s).

Definition lcg_bits53 (s : Z) : Z * Z := ((s / 2048) mod 2 ^ 53, lcg_next s).

Definition lcg64 : RandomSource :=
  {| rng_state := Z;
     rng_seed := fun n => n mod 2 ^ 64;
     rng_randbelow := lcg_randbelow;
     rng_bits53 := lcg_bits53;
     rng_randbelow_range := fun n s H => Z.mod_pos_bound (s / 65536) n H;
     rng_bits53_range := fun s => Z.mod_pos_bound (s / 2048) (2 ^ 53) eq_refl |}.

(** A world in which nothing has been seeded or printed yet, with a
    clock that reads [t] microseconds at the first reading and one more
    at each later one. *)
Definition world_at (t : N) : World lcg64 :=
  Build_World lcg64 0 None (fun k => (t + N.of_nat k)%N) 0%nat [].

(** 2026-11-04T06:26:40 and the same time forty days later. *)
Definition t_nov : N := 1793773600000000.
Definition t_dec : N := 1797229600000000.

(** The same world over any random source [R]. *)
Definition world_from (R : RandomSource) (t : N) : World R :=
  Build_World R (rng_seed R 0) None (fun k => (t + N.of_nat k)%N) 0%nat [].

(** ** The pandas operations of the scripts *)

Module Pandas.

(** [df[name]] on the frame [pd.DataFrame(properties)]: the columns of
    the frame are the keys of the dicts, so the frame of an empty list
    has no columns and the look-up raises KeyError. *)
Definition column {A : Type} (field : Property -> A) (df : list Property)
    : Result (list A) :=
  match df with
  | [] => Raise KeyError
  | _ :: _ => Ok (map field df)
  end.

(** [Series.unique()]: the distinct values in order of first
    appearance. *)
Definition unique (values : list string) : list string :=
  fold_left
    (fun seen v => if existsb (String.eqb v) seen then seen else (seen ++ [v])%list)
    values [].

Definition is_nan (x : float) : bool :=
  match x with S754_nan => true | _ => false end.

(** [Series.min()] and [Series.max()] of a float column: NaN is skipped,
    and the result is NaN when nothing is left. *)
Definition series_min (values : list float) : float :=
  match filter (fun x => negb (is_nan x)) values with
  | [] => S754_nan
  | x :: rest => fold_left (fun m y => if fltb y m then y else m) rest x
  end.

Definition series_max (values : list float) : float :=
  match filter (fun x => negb (is_nan x)) values with
  | [] => S754_nan
  | x :: rest => fold_left (fun m y => if fltb m y then y else m) rest x
  end.

(** [Series.mean()] of an int column: the sum, taken in float64 and exact
    while it stays below [2 ** 53], divided by the count; NaN for an
    empty column. *)
Definition series_mean_int (values : list Z) : Result float :=
  match values with
  | [] => Ok S754_nan
  | _ :: _ => int_truediv (fold_left Z.add values 0) (Z.of_nat (List.length values))
  end.

(** [bins.searchsorted(x, side='left')] on increasing bins: the number of
    bins below [x]. *)
Fixpoint searchsorted_left (bins : list Z) (x : Z) : nat :=
  match bins with
  | [] => O
  | b :: rest => if b <? x then S (searchsorted_left rest x) else O
  end.

Fixpoint nondecreasing (bins : list Z) : bool :=
  match bins with
  | a :: (b :: _) as rest => (a <=? b) && nondecreasing rest
  | _ => true
  end.

Fixpoint increasing (bins : list Z) : bool :=
  match bins with
  | a :: (b :: _) as rest => (a <? b) && increasing rest
  | _ => true
  end.

Fixpoint distinct (labels : list string) : bool :=
  match labels with
  | [] => true
  | l :: rest => negb (existsb (String.eqb l) rest) && distinct rest
  end.

(** [pd.cut(x, bins=bins, labels=labels)] at one int [x], with intervals
    closed on the right. ValueError when the bins decrease somewhere,
    when more than two bins hold a repeated edge, when a label is
    repeated, or when the labels are not one fewer than the bins. No
    label ([None], NaN in the column) when [x] is at or below the first
    bin or above the last. *)
Definition cut (x : Z) (bins : list Z) (labels : list string)
    : Result (option string) :=
  if negb (nondecreasing bins) then Raise ValueError
  else if negb (increasing bins) && negb (List.length bins =? 2)%nat
  then Raise ValueError
  else if negb (distinct labels) then Raise ValueError
  else if negb (S (List.length labels) =? List.length bins)%nat
  then Raise ValueError
  else
    let ids := searchsorted_left bins x in
    if (ids =? 0)%nat || (ids =? List.length bins)%nat then Ok None
    else Ok (nth_error labels (ids - 1)).

(** The number of times [v] occurs in a column. *)
Definition count_of (v : string) (values : list string) : nat :=
  List.length (filter (String.eqb v) values).

(** [np.sort] of an array of strings, which Python orders by code
    point. *)
Fixpoint insert_sorted (v : string) (sorted : list string) : list string :=
  match sorted with
  | [] => [v]
  | x :: rest =>
      if String.leb v x then v :: sorted else x :: insert_sorted v rest
  end.

Definition sort_strings (values : list string) : list string :=
  fold_right insert_sorted [] values.

(** [Series.mode()]: the values that occur most often, sorted. *)
Definition mode (values : list string) : list string :=
  let distinct_values := Pandas.unique values in
  let top :=
    fold_left Nat.max (map (fun v => count_of v values) distinct_values) O in
  sort_strings
    (filter (fun v => (count_of v values =? top)%nat) distinct_values).

End Pandas.

(** ** The statistics the scripts take from the table *)

(** step2_realistic_data.py, lines 128, 129, 138 and 139. *)
Definition cities_included (df : list Property) : Result (list string) :=
  rbind (Pandas.column city df) (fun c => Ok (Pandas.unique c)).

Definition property_types_included (df : list Property) : Result (list string) :=
  rbind (Pandas.column property_type df) (fun c => Ok (Pandas.unique c)).

Definition price_range_of (df : list Property) : Result (float * float) :=
  rbind (Pandas.column price_lakhs df) (fun c =>
  Ok (Pandas.series_min c, Pandas.series_max c)).

Definition average_area (df : list Property) : Result float :=
  rbind (Pandas.column area_sqft df) Pandas.series_mean_int.

(** step3_simple_analysis.py, lines 66 to 68: the age group of a row. *)
Definition age_group (property_age_years : Z) : Result (option string) :=
  Pandas.cut property_age_years [0; 5; 10; 15; 25]
    ["0-5 years"; "6-10 years"; "11-15 years"; "16+ years"]%string.

(** step3_simple_analysis.py, lines 131 to 136: the loop over the cities
    of a loaded frame, with its two accumulators. *)
Definition city_price_ranges (df : list Property)
    : list (float * float) * list string :=
  fold_left
    (fun acc city' =>
       let city_data :=
         map price_lakhs (filter (fun row => String.eqb (city row) city') df) in
       ((fst acc ++ [(Pandas.series_min city_data, Pandas.series_max city_data)])%list,
        (snd acc ++ [city'])%list))
    (Pandas.unique (map city df)) ([], []).

(** step3_simple_analysis.py, line 240: [df['property_type'].mode()[0]],
    the label [0] of the modes; KeyError when there is none. *)
Definition most_popular_property_type (df : list Property) : Result string :=
  match Pandas.mode (map property_type df) with
  | [] => Raise KeyError
  | t :: _ => Ok t
  end.

(** ** Predicates and ranges of the further analysis *)

(** A finite, non-negative, canonical float. *)
Definition proper (x : float) : Prop :=
  nonneg_finite x /\ valid_binary prec emax x = true.

(** A step that returns [a] with [Q a] and neither reads nor sets the
    clock. *)
Definition off_clock {R : RandomSource} {A : Type} (Q : A -> Prop)
    (c : M R A) : Prop :=
  forall w a w',
    c w = Ok (a, w') ->
    Q a /\ clock R w' = clock R w /\ clock_reads R w' = clock_reads R w.

(** The row is dated from the reading of the clock that the computation
    takes, its only one. *)
Definition dated (clk : nat -> N) (k : nat) (row : Property) : Prop :=
  exists days_ago,
    1 <= days_ago <= 730
    /\ listing_date row = sub_days (Z.of_N (clk k)) days_ago
    /\ month_listed row = strftime_Ym (listing_date row).

Definition dates_row {R : RandomSource} (c : M R Property) : Prop :=
  forall w row w',
    c w = Ok (row, w') ->
    dated (clock R w) (clock_reads R w) row
    /\ clock R w' = clock R w /\ clock_reads R w' = S (clock_reads R w).

(** Two rows drawn from the same state of [random] at the clock readings
    [t1] and [t2]: the same fields but the dates, which lie the same
    number of days before the two readings. *)
Definition twin_rows (t1 t2 : N) (row1 row2 : Property) : Prop :=
  without_dates row1 = without_dates row2
  /\ exists days_ago,
       1 <= days_ago <= 730
       /\ listing_date row1 = sub_days (Z.of_N t1) days_ago
       /\ listing_date row2 = sub_days (Z.of_N t2) days_ago
       /\ month_listed row1 = strftime_Ym (listing_date row1)
       /\ month_listed row2 = strftime_Ym (listing_date row2).

(** A step that, run from two worlds with the same state of [random],
    returns the same value [a] with [Q a], leaves [random] in the same
    state again, and neither reads nor sets the clock. *)
Definition in_step {R : RandomSource} {A : Type} (Q : A -> Prop)
    (c : M R A) : Prop :=
  forall w1 w2 a1 a2 u1 u2,
    py_random R w1 = py_random R w2 ->
    c w1 = Ok (a1, u1) -> c w2 = Ok (a2, u2) ->
    a1 = a2 /\ Q a1 /\ py_random R u1 = py_random R u2
    /\ clock R u1 = clock R w1 /\ clock_reads R u1 = clock_reads R w1
    /\ clock R u2 = clock R w2 /\ clock_reads R u2 = clock_reads R w2.

(** A computation of a row that, run from two worlds with the same state
    of [random], gives twin rows at the readings the two clocks are at. *)
Definition twins_row {R : RandomSource} (c : M R Property) : Prop :=
  forall w1 w2 row1 row2 u1 u2,
    py_random R w1 = py_random R w2 ->
    c w1 = Ok (row1, u1) -> c w2 = Ok (row2, u2) ->
    twin_rows (clock R w1 (clock_reads R w1)) (clock R w2 (clock_reads R w2))
      row1 row2
    /\ py_random R u1 = py_random R u2
    /\ clock R u1 = clock R w1 /\ clock_reads R u1 = S (clock_reads R w1)
    /\ clock R u2 = clock R w2 /\ clock_reads R u2 = S (clock_reads R w2).

(** The total price in lakhs and the product of lines 87 and 101 over the
    whole table: between 10 and 547, and within the products of the
    ends. *)
Definition total_range : fival := (F 10, F 547).

Definition adjusted_range : fival := fi_mul total_range bonus_bounds.

Definition final_range : fival := fi_mul adjusted_range penalty_bounds.

(** The bonus does not fall when the location score rises, and the
    penalty factor does not rise with the age. *)
Definition result_le (r1 r2 : Result float) : bool :=
  match r1, r2 with
  | inr a, inr b => fle_b a b
  | _, _ => false
  end.

Definition bonus_rises : bool :=
  forallb (fun i =>
    forallb (fun j =>
      (j <? i)%Z || result_le (location_bonus_of i) (location_bonus_of j))
      (zrange 1 10)) (zrange 1 10).

Definition penalty_falls : bool :=
  forallb (fun i =>
    forallb (fun j =>
      (j <? i)%Z || result_le (age_penalty_of j) (age_penalty_of i))
      (zrange 0 26)) (zrange 0 26).

(** A small frame, as [pd.read_excel] could load it: two rows of Pune and
    one of Chennai. *)
Definition sample_frame : list Property :=
  [ {| city := "Pune"; property_type := "2BHK"; area_sqft := 700;
       price_lakhs := literal 4575 100; price_per_sqft := 6500;
       property_age_years := 0; floor_number := 3; total_floors := 12;
       location_score := 6; listing_date := 1700000000000000;
       month_listed := "2023-11" |};
    {| city := "Chennai"; property_type := "1BHK"; area_sqft := 450;
       price_lakhs := literal 2810 100; price_per_sqft := 6200;
       property_age_years := 7; floor_number := 1; total_floors := 4;
       location_score := 5; listing_date := 1710000000000000;
       month_listed := "2024-03" |};
    {| city := "Pune"; property_type := "3BHK"; area_sqft := 1200;
       price_lakhs := literal 9050 100; price_per_sqft := 7500;
       property_age_years := 12; floor_number := 8; total_floors := 15;
       location_score := 8; listing_date := 1720000000000000;
       month_listed := "2024-07" |} ]%string.

(** * Rounding of binary64 operations *)

Section DivHalfEven.

Lemma div_half_even_bounds n d :
  0 < d -> n / d <= div_half_even n d <= n / d + 1.
Proof.
  intros Hd. unfold div_half_even.
  destruct (2 * (n mod d) ?= d); [destruct (Z.even (n / d)) | | ]; lia.
Qed.

Lemma div_half_even_nonneg n d : 0 <= n -> 0 < d -> 0 <= div_half_even n d.
Proof.
  intros Hn Hd. pose proof (div_half_even_bounds n d Hd).
  pose proof (Z.div_pos n d Hn Hd). lia.
Qed.

Lemma div_half_even_mono a b d :
  0 < d -> a <= b -> div_half_even a d <= div_half_even b d.
Proof.
  intros Hd Hab.
  pose proof (Z.div_le_mono a b d Hd Hab) as Hq.
  destruct (Z.eq_dec (a / d) (b / d)) as [E | N].
  - pose proof (Z.div_mod a d ltac:(lia)) as Ha.
    pose proof (Z.div_mod b d ltac:(lia)) as Hb.
    assert (Hr : a mod d <= b mod d) by nia.
    unfold div_half_even. rewrite E.
    destruct (Z.compare_spec (2 * (a mod d)) d);
      destruct (Z.compare_spec (2 * (b mod d)) d);
      destruct (Z.even (b / d)); lia.
  - pose proof (div_half_even_bounds a d Hd).
    pose proof (div_half_even_bounds b d Hd). lia.
Qed.

Lemma div_half_even_scale a d c :
  0 < d -> 0 < c -> div_half_even (a * c) (d * c) = div_half_even a d.
Proof.
  intros Hd Hc. unfold div_half_even.
  rewrite Z.div_mul_cancel_r by lia.
  rewrite Z.mul_mod_distr_r by lia.
  replace (2 * (a mod d * c)) with (2 * (a mod d) * c) by ring.
  rewrite <- (Zmult_compare_compat_r (2 * (a mod d)) d c) by lia.
  reflexivity.
Qed.

Lemma div_half_even_exact a d : 0 < d -> div_half_even (a * d) d = a.
Proof.
  intros Hd. unfold div_half_even.
  rewrite Z.div_mul by lia. rewrite Z.mod_mul by lia.
  destruct (Z.compare_spec (2 * 0) d); lia.
Qed.

End DivHalfEven.

Section Shr.

Lemma iter_pos_nat (A : Type) (f : A -> A) p x :
  iter_pos f p x = Nat.iter (Pos.to_nat p) f x.
Proof.
  revert x. induction p as [p IH | p IH | ]; intros x; cbn [iter_pos].
  - rewrite !IH. rewrite Pos2Nat.inj_xI.
    replace (S (2 * Pos.to_nat p))%nat
      with (Pos.to_nat p + (Pos.to_nat p + 1))%nat by lia.
    rewrite !Nat.iter_add. reflexivity.
  - rewrite !IH. rewrite Pos2Nat.inj_xO.
    replace (2 * Pos.to_nat p)%nat with (Pos.to_nat p + Pos.to_nat p)%nat by lia.
    rewrite Nat.iter_add. reflexivity.
  - reflexivity.
Qed.

Lemma shr_1_spec m r s :
  0 <= m ->
  shr_1 (Build_shr_record m r s) = Build_shr_record (m / 2) (Z.odd m) (r || s).
Proof.
  intros Hm. rewrite <- Z.div2_div.
  destruct m as [ | [p | p | ] | p ]; try reflexivity; lia.
Qed.

(** The record after [k] right shifts of an exact mantissa. *)
Definition shifted (m : Z) (k : nat) : shr_record :=
  match k with
  | O => Build_shr_record m false false
  | S j =>
      Build_shr_record (m / 2 ^ Z.of_nat k)
        (Z.odd (m / 2 ^ Z.of_nat j))
        (negb (m mod 2 ^ Z.of_nat j =? 0))
  end.

Lemma mod_pow2_succ m j :
  0 <= j ->
  m mod 2 ^ (j + 1) = 2 ^ j * ((m / 2 ^ j) mod 2) + m mod 2 ^ j.
Proof.
  intros Hj. rewrite Z.pow_add_r by lia. change (2 ^ 1) with 2.
  rewrite Z.rem_mul_r by lia. lia.
Qed.

Lemma odd_mod2 a : a mod 2 = if Z.odd a then 1 else 0.
Proof. rewrite Zmod_odd. reflexivity. Qed.

Lemma iter_shr_1 m k :
  0 <= m ->
  Nat.iter k shr_1 (Build_shr_record m false false) = shifted m k.
Proof.
  intros Hm. induction k as [ | k IH]; [reflexivity | ].
  simpl Nat.iter. rewrite IH. clear IH.
  destruct k as [ | j].
  - simpl shifted. rewrite shr_1_spec by lia.
    change (2 ^ Z.of_nat 1) with 2. change (2 ^ Z.of_nat 0) with 1.
    rewrite Z.div_1_r, Z.mod_1_r. reflexivity.
  - unfold shifted. rewrite shr_1_spec by (apply Z.div_pos; lia).
    rewrite !Nat2Z.inj_succ. unfold Z.succ. f_equal.
    + rewrite Z.div_div by lia. f_equal.
      rewrite (Z.pow_add_r 2 (Z.of_nat j + 1) 1) by lia. reflexivity.
    + rewrite mod_pow2_succ by lia. rewrite odd_mod2.
      pose proof (Z.mod_pos_bound m (2 ^ Z.of_nat j) ltac:(lia)) as Hb.
      destruct (Z.odd (m / 2 ^ Z.of_nat j)); simpl.
      * symmetry. apply negb_true_iff. apply Z.eqb_neq. lia.
      * f_equal. rewrite Z.mul_0_r. reflexivity.
Qed.

Lemma round_shifted m k :
  0 <= m ->
  round_nearest_even (shr_m (shifted m k)) (loc_of_shr_record (shifted m k))
  = div_half_even m (2 ^ Z.of_nat k).
Proof.
  intros Hm. destruct k as [ | j].
  - simpl. unfold div_half_even. change (2 ^ 0) with 1.
    rewrite Z.div_1_r, Z.mod_1_r. reflexivity.
  - unfold shifted. rewrite (Nat2Z.inj_succ j). unfold Z.succ.
    set (h := 2 ^ Z.of_nat j).
    assert (Hh : 0 < h) by (unfold h; lia).
    assert (Hd : 2 ^ (Z.of_nat j + 1) = 2 * h).
    { unfold h. rewrite Z.pow_add_r by lia. change (2 ^ 1) with 2. ring. }
    unfold div_half_even.
    pose proof (mod_pow2_succ m (Z.of_nat j) ltac:(lia)) as Hr.
    fold h in Hr. rewrite odd_mod2 in Hr. rewrite Hr, Hd. clear Hr.
    pose proof (Z.mod_pos_bound m h Hh) as Hb.
    cbn [shr_m shr_r shr_s].
    destruct (Z.odd (m / h)); destruct (Z.eqb_spec (m mod h) 0) as [E | N];
      cbn [negb loc_of_shr_record round_nearest_even];
      match goal with
      | |- context [?a ?= ?b] => destruct (Z.compare_spec a b)
      end; try lia; reflexivity.
Qed.

End Shr.

Section Rounding.

Lemma fexp_eq x : fexp prec emax x = Z.max (x - 53) (- 1074).
Proof. reflexivity. Qed.

Lemma digits2_pos_size p : digits2_pos p = Pos.size p.
Proof. induction p; simpl; congruence. Qed.

Lemma Zdigits2_log2 m : 0 < m -> Zdigits2 m = Z.log2 m + 1.
Proof.
  intros Hm. destruct m as [ | p | p ]; try lia.
  destruct p; simpl; rewrite ?digits2_pos_size; lia.
Qed.

Lemma shr_nonpos mrs e n : n <= 0 -> shr mrs e n = (mrs, e).
Proof. destruct n; [reflexivity | lia | reflexivity]. Qed.

Lemma shr_pos m e n :
  0 <= m -> 0 < n ->
  shr (Build_shr_record m false false) e n = (shifted m (Z.to_nat n), e + n).
Proof.
  intros Hm Hn. destruct n as [ | p | p]; try lia.
  unfold shr. rewrite iter_pos_nat, iter_shr_1 by lia.
  rewrite Z2Nat.inj_pos. reflexivity.
Qed.

Lemma shr_top E :
  shr (Build_shr_record (2 ^ 53) false false) E 1
  = (Build_shr_record (2 ^ 52) false false, E + 1).
Proof. reflexivity. Qed.

Lemma round_aux_exact (m : positive) e sc :
  B <= sc -> 0 <= e + sc -> Zpos m * 2 ^ (e + sc) < 2 ^ (sc + 900) ->
  nonneg_finite (binary_round_aux prec emax false (Zpos m) e loc_Exact)
  /\ units (binary_round_aux prec emax false (Zpos m) e loc_Exact)
     = round_units sc (Zpos m * 2 ^ (e + sc)).
Proof.
  intros Hsc He HX. unfold B in *.
  set (X := Zpos m * 2 ^ (e + sc)) in *.
  assert (Hlog : Z.log2 X = e + sc + Z.log2 (Zpos m)).
  { unfold X. apply Z.log2_mul_pow2; lia. }
  pose proof (Z.log2_nonneg (Zpos m)) as Hl0.
  pose proof (Z.log2_spec (Zpos m) ltac:(lia)) as [Hlo Hhi].
  set (l := Z.log2 (Zpos m)) in *.
  assert (Hmag : e + l < 900).
  { assert (Z.log2 X < sc + 900) by (apply Z.log2_lt_pow2; unfold X; lia). lia. }
  unfold round_units. rewrite Hlog, fexp_eq.
  replace (e + sc + l + 1 - sc - 53) with (l + 1 + e - 53) by ring.
  unfold binary_round_aux, shr_fexp.
  rewrite Zdigits2_log2 by lia. fold l. rewrite fexp_eq.
  set (E := Z.max (l + 1 + e - 53) (-1074)).
  assert (HEdef : E = Z.max (l + 1 + e - 53) (-1074)) by reflexivity.
  cbn [shr_record_of_loc].
  destruct (Z_le_gt_dec (E - e) 0) as [Hn | Hn].
  - (* the mantissa already fits *)
    rewrite shr_nonpos by lia.
    cbn [shr_m loc_of_shr_record round_nearest_even].
    rewrite Zdigits2_log2 by lia. fold l. rewrite fexp_eq. fold E.
    cbn [shr_record_of_loc]. rewrite shr_nonpos by lia. cbn [shr_m].
    replace (e <=? emax - prec) with true
      by (symmetry; apply Z.leb_le; unfold emax, prec; lia).
    split.
    { cbn [nonneg_finite]. unfold B. split; [lia | ].
      apply Z.lt_le_trans with (2 ^ Z.succ l); [lia | ].
      apply Z.pow_le_mono_r; lia. }
    cbn [units]. unfold X.
    replace (Zpos m * 2 ^ (e + sc))
      with (Zpos m * 2 ^ (e - E) * 2 ^ (E + sc)).
    2:{ rewrite <- Z.mul_assoc, <- Z.pow_add_r by lia. do 2 f_equal. ring. }
    rewrite div_half_even_exact by lia. unfold B.
    rewrite <- Z.mul_assoc, <- Z.pow_add_r by lia. do 2 f_equal. ring.
  - (* [E - e] low bits are shifted out *)
    rewrite shr_pos by lia.
    rewrite round_shifted by lia. rewrite Z2Nat.id by lia.
    replace (e + (E - e)) with E by ring.
    set (m1 := div_half_even (Zpos m) (2 ^ (E - e))).
    assert (Hm1eq : div_half_even X (2 ^ (E + sc)) = m1).
    { unfold X, m1.
      replace (2 ^ (E + sc)) with (2 ^ (E - e) * 2 ^ (e + sc)).
      2:{ rewrite <- Z.pow_add_r by lia. f_equal. ring. }
      apply div_half_even_scale; lia. }
    rewrite Hm1eq.
    assert (Hm1lo : 0 <= m1) by (apply div_half_even_nonneg; lia).
    assert (Hm1hi : m1 <= 2 ^ 53).
    { pose proof (div_half_even_bounds (Zpos m) (2 ^ (E - e)) ltac:(lia)) as Hb.
      fold m1 in Hb.
      destruct (Z_le_gt_dec (E - e) (l + 1)) as [Hd | Hd].
      - assert (Zpos m / 2 ^ (E - e) < 2 ^ (l + 1 - (E - e))).
        { apply Z.div_lt_upper_bound; [lia | ].
          rewrite <- Z.pow_add_r by lia.
          replace (E - e + (l + 1 - (E - e))) with (Z.succ l) by ring. lia. }
        assert (2 ^ (l + 1 - (E - e)) <= 2 ^ 53)
          by (apply Z.pow_le_mono_r; lia).
        lia.
      - assert (Zpos m / 2 ^ (E - e) = 0).
        { apply Z.div_small. split; [lia | ].
          apply Z.lt_le_trans with (2 ^ Z.succ l); [lia | ].
          apply Z.pow_le_mono_r; lia. }
        assert (1 <= 2 ^ 53) by lia. lia. }
    cbn [shr_record_of_loc].
    assert (HE : E <= 900) by lia.
    destruct (Z.eq_dec m1 0) as [Hz | Hnz].
    + rewrite Hz. simpl Zdigits2. rewrite shr_nonpos by (rewrite fexp_eq; lia).
      cbn [shr_m]. split; [exact I | reflexivity].
    + destruct (Z.eq_dec m1 (2 ^ 53)) as [Htop | Hlt].
      * rewrite Htop.
        replace (fexp prec emax (Zdigits2 (2 ^ 53) + E) - E) with 1
          by (rewrite fexp_eq; change (Zdigits2 (2 ^ 53)) with 54; lia).
        rewrite shr_top. cbn [shr_m].
        change (2 ^ 52) with (Zpos (2 ^ 52)). cbv iota beta.
        replace (E + 1 <=? emax - prec) with true
          by (symmetry; apply Z.leb_le; unfold emax, prec; lia).
        split; [cbn [nonneg_finite]; unfold B; split; [lia | reflexivity] | ].
        cbn [units]. unfold B.
        replace (E + 1 + 1074) with (1 + (E + 1074)) by ring.
        rewrite (Z.pow_add_r 2 1 (E + 1074)) by lia.
        change (2 ^ 53) with (Zpos (2 ^ 52) * 2 ^ 1). ring.
      * assert (Hdig : Zdigits2 m1 <= 53).
        { rewrite Zdigits2_log2 by lia.
          assert (Z.log2 m1 < 53) by (apply Z.log2_lt_pow2; lia). lia. }
        rewrite shr_nonpos by (rewrite fexp_eq; lia).
        cbn [shr_m]. destruct m1 as [ | p1 | p1 ]; try lia.
        replace (E <=? emax - prec) with true
          by (symmetry; apply Z.leb_le; unfold emax, prec; lia).
        split; [cbn [nonneg_finite]; unfold B; lia | reflexivity].
Qed.

End Rounding.

Section Monotone.

Lemma round_units_nonneg sc X : B <= sc -> 0 <= X -> 0 <= round_units sc X.
Proof.
  intros Hsc HX. unfold round_units, B in *. rewrite fexp_eq.
  apply Z.mul_nonneg_nonneg; [ | lia].
  apply div_half_even_nonneg; [lia | ]. apply Z.pow_pos_nonneg; lia.
Qed.

Lemma round_units_0 sc : B <= sc -> round_units sc 0 = 0.
Proof.
  intros Hsc. unfold round_units, B in *. rewrite fexp_eq.
  change (Z.log2 0) with 0.
  set (g := 2 ^ _) at 1.
  assert (Hg : 0 < g) by (apply Z.pow_pos_nonneg; lia).
  pose proof (div_half_even_exact 0 g Hg) as H0.
  rewrite Z.mul_0_l in H0. rewrite H0. reflexivity.
Qed.

(** A rounded value does not exceed the next power of two. *)
Lemma round_units_upper sc X :
  B <= sc -> 0 < X ->
  round_units sc X
  <= 2 ^ (Z.max (Z.log2 X + 1 - sc) (fexp prec emax (Z.log2 X + 1 - sc)) + B).
Proof.
  intros Hsc HX. unfold round_units, B in *. rewrite fexp_eq.
  pose proof (Z.log2_spec X HX) as [Hlo Hhi].
  pose proof (Z.log2_nonneg X) as Hl0.
  set (l := Z.log2 X) in *.
  set (E := Z.max (l + 1 - sc - 53) (-1074)).
  assert (HE : E = Z.max (l + 1 - sc - 53) (-1074)) by reflexivity.
  assert (Hg : 0 < 2 ^ (E + sc)) by (apply Z.pow_pos_nonneg; lia).
  pose proof (div_half_even_bounds X (2 ^ (E + sc)) Hg) as Hb.
  destruct (Z_le_gt_dec E (l + 1 - sc)) as [Ht | Ht].
  - rewrite Z.max_l by lia.
    assert (X / 2 ^ (E + sc) < 2 ^ (l + 1 - sc - E)).
    { apply Z.div_lt_upper_bound; [lia | ].
      assert (0 <= E + sc) by lia.
      assert (0 <= l + 1 - sc - E) by lia.
      rewrite <- Z.pow_add_r; [ | assumption | assumption ].
      replace (E + sc + (l + 1 - sc - E)) with (Z.succ l) by ring. lia. }
    replace (l + 1 - sc + 1074) with ((l + 1 - sc - E) + (E + 1074)) by ring.
    rewrite (Z.pow_add_r 2 (l + 1 - sc - E) (E + 1074)) by lia.
    apply Z.mul_le_mono_nonneg_r; lia.
  - rewrite Z.max_r by lia.
    assert (X / 2 ^ (E + sc) = 0).
    { apply Z.div_small. split; [lia | ].
      apply Z.lt_le_trans with (2 ^ Z.succ l); [lia | ].
      apply Z.pow_le_mono_r; lia. }
    assert (0 < 2 ^ (E + 1074)) by (apply Z.pow_pos_nonneg; lia).
    nia.
Qed.

(** In the normal range a rounded value is at least the power of two
    below the exact one. *)
Lemma round_units_lower sc X :
  B <= sc -> 0 < X -> - 1074 <= Z.log2 X + 1 - sc - 53 ->
  2 ^ (Z.log2 X - sc + B) <= round_units sc X.
Proof.
  intros Hsc HX Hn. unfold round_units, B in *. rewrite fexp_eq.
  pose proof (Z.log2_spec X HX) as [Hlo Hhi].
  set (l := Z.log2 X) in *.
  rewrite Z.max_l by lia.
  set (E := l + 1 - sc - 53).
  assert (HE : E = l + 1 - sc - 53) by reflexivity.
  assert (Hg : 0 < 2 ^ (E + sc)) by (apply Z.pow_pos_nonneg; lia).
  pose proof (div_half_even_bounds X (2 ^ (E + sc)) Hg) as Hb.
  assert (2 ^ 52 <= X / 2 ^ (E + sc)).
  { apply Z.div_le_lower_bound; [lia | ].
    rewrite <- Z.pow_add_r by lia.
    replace (E + sc + 52) with l by lia. lia. }
  replace (l - sc + 1074) with (52 + (E + 1074)) by lia.
  rewrite (Z.pow_add_r 2 52 (E + 1074)) by lia.
  apply Z.mul_le_mono_nonneg_r; lia.
Qed.

Lemma round_units_mono sc X Y :
  B <= sc -> 0 <= X <= Y -> round_units sc X <= round_units sc Y.
Proof.
  intros Hsc [HX HXY].
  destruct (Z.eq_dec X 0) as [-> | HX0].
  { rewrite round_units_0 by lia. apply round_units_nonneg; lia. }
  assert (Hl : Z.log2 X <= Z.log2 Y) by (apply Z.log2_le_mono; lia).
  destruct (Z.eq_dec (fexp prec emax (Z.log2 X + 1 - sc))
                     (fexp prec emax (Z.log2 Y + 1 - sc))) as [HE | HE].
  - unfold round_units. rewrite HE. unfold B in *.
    apply Z.mul_le_mono_nonneg_r; [rewrite fexp_eq; lia | ].
    apply div_half_even_mono; [ | lia].
    rewrite fexp_eq. apply Z.pow_pos_nonneg; lia.
  - rewrite !fexp_eq in HE.
    apply Z.le_trans with (2 ^ (Z.log2 Y - sc + B)).
    + eapply Z.le_trans; [apply round_units_upper; lia | ].
      rewrite fexp_eq. unfold B in *. apply Z.pow_le_mono_r; lia.
    + apply round_units_lower; lia.
Qed.

End Monotone.

Section Operations.

Lemma units_nonneg f : nonneg_finite f -> 0 <= units f.
Proof.
  destruct f as [ [ | ] | | | [ | ] m e ]; cbn [nonneg_finite units];
    try tauto; lia.
Qed.

(** A representable value is its own rounding. *)
Lemma round_units_representable f :
  nonneg_finite f -> round_units B (units f) = units f.
Proof.
  destruct f as [ [ | ] | | | [ | ] m e ]; cbn [nonneg_finite units];
    try tauto.
  intros [He Hm]. unfold round_units, B in *. rewrite fexp_eq.
    rewrite Z.log2_mul_pow2 by lia.
    assert (Hl : Z.log2 (Zpos m) < 53) by (apply Z.log2_lt_pow2; lia).
    pose proof (Z.log2_nonneg (Zpos m)) as Hl0.
    set (l := Z.log2 (Zpos m)) in *.
    set (E := Z.max (e + 1074 + l + 1 - 1074 - 53) (-1074)).
    assert (HE : E = Z.max (e + 1074 + l + 1 - 1074 - 53) (-1074)) by reflexivity.
    replace (Zpos m * 2 ^ (e + 1074))
      with (Zpos m * 2 ^ (e - E) * 2 ^ (E + 1074)).
    2:{ rewrite <- Z.mul_assoc, <- Z.pow_add_r by lia. do 2 f_equal. ring. }
  rewrite div_half_even_exact by (apply Z.pow_pos_nonneg; lia).
  reflexivity.
Qed.

Lemma pos_iter_xO m d : Zpos (Pos.iter xO m d) = Zpos m * 2 ^ Zpos d.
Proof.
  induction d as [ | d IH] using Pos.peano_ind.
  - simpl. lia.
  - rewrite Pos.iter_succ, Pos2Z.inj_xO, IH, Pos2Z.inj_succ.
    rewrite Z.pow_succ_r by lia. ring.
Qed.

Lemma shl_align_spec m e e' :
  Zpos (fst (shl_align m e e')) = Zpos m * 2 ^ (e - Z.min e e')
  /\ snd (shl_align m e e') = Z.min e e'.
Proof.
  unfold shl_align. destruct (e' - e) as [ | d | d] eqn:Hd; cbn [fst snd].
  - rewrite Z.min_l by lia. rewrite Z.sub_diag. split; lia.
  - rewrite Z.min_l by lia. rewrite Z.sub_diag. split; lia.
  - rewrite Z.min_r by lia. rewrite pos_iter_xO. split; [ | reflexivity].
    do 2 f_equal. lia.
Qed.

Lemma binary_round_units (m : positive) e :
  - B <= e -> Zpos m * 2 ^ (e + B) < 2 ^ (B + 900) ->
  nonneg_finite (binary_round prec emax false m e)
  /\ units (binary_round prec emax false m e)
     = round_units B (Zpos m * 2 ^ (e + B)).
Proof.
  intros He HX. unfold binary_round.
  pose proof (shl_align_spec m e (fexp prec emax (Zpos (digits2_pos m) + e)))
    as [Hm Hz].
  destruct (shl_align m e (fexp prec emax (Zpos (digits2_pos m) + e)))
    as [mz ez]. cbn [fst snd] in Hm, Hz.
  rewrite fexp_eq in Hz, Hm. unfold B in *.
  assert (HXeq : Zpos mz * 2 ^ (ez + 1074) = Zpos m * 2 ^ (e + 1074)).
  { rewrite Hm, <- Z.mul_assoc, <- Z.pow_add_r by lia. do 2 f_equal. lia. }
  rewrite <- HXeq. apply round_aux_exact; unfold B; lia.
Qed.

Lemma binary_normalize_units n e :
  0 <= n -> - B <= e -> n * 2 ^ (e + B) < 2 ^ (B + 900) ->
  nonneg_finite (binary_normalize prec emax n e false)
  /\ units (binary_normalize prec emax n e false)
     = round_units B (n * 2 ^ (e + B)).
Proof.
  intros Hn He HX. destruct n as [ | p | p]; try lia.
  - simpl. split; [exact I | ]. symmetry. apply round_units_0. lia.
  - apply binary_round_units; assumption.
Qed.

Lemma fmul_units x y :
  nonneg_finite x -> nonneg_finite y ->
  units x * units y < 2 ^ (2 * B + 900) ->
  nonneg_finite (fmul x y)
  /\ units (fmul x y) = round_units (2 * B) (units x * units y).
Proof.
  intros Hx Hy HX.
  destruct x as [ [ | ] | | | [ | ] mx ex ]; try (exfalso; exact Hx);
    destruct y as [ [ | ] | | | [ | ] my ey ]; try (exfalso; exact Hy);
    try (cbn [units]; rewrite ?Z.mul_0_l, ?Z.mul_0_r;
         rewrite round_units_0 by (unfold B; lia);
         split; [exact I | reflexivity]).
  destruct Hx as [Hex _], Hy as [Hey _]. cbn [units] in *. unfold B in *.
  assert (Heq : Zpos mx * 2 ^ (ex + 1074) * (Zpos my * 2 ^ (ey + 1074))
                = Zpos (mx * my) * 2 ^ (ex + ey + 2 * 1074)).
  { rewrite Pos2Z.inj_mul.
    replace (ex + ey + 2 * 1074) with ((ex + 1074) + (ey + 1074)) by ring.
    rewrite (Z.pow_add_r 2 (ex + 1074) (ey + 1074)) by lia. ring. }
  rewrite Heq in *.
  change (fmul (S754_finite false mx ex) (S754_finite false my ey))
    with (binary_round_aux prec emax false (Zpos (mx * my)) (ex + ey) loc_Exact).
  apply round_aux_exact; unfold B; lia.
Qed.

Lemma fadd_units x y :
  nonneg_finite x -> nonneg_finite y ->
  units x + units y < 2 ^ (B + 900) ->
  nonneg_finite (fadd x y)
  /\ units (fadd x y) = round_units B (units x + units y).
Proof.
  intros Hx Hy HX.
  destruct x as [ [ | ] | | | [ | ] mx ex ]; try (exfalso; exact Hx);
    destruct y as [ [ | ] | | | [ | ] my ey ]; try (exfalso; exact Hy).
  - split; [exact I | ]. symmetry. apply round_units_0. unfold B; lia.
  - change (fadd (S754_zero false) (S754_finite false my ey))
      with (S754_finite false my ey).
    split; [exact Hy | ]. rewrite Z.add_0_l.
    symmetry. apply round_units_representable. exact Hy.
  - change (fadd (S754_finite false mx ex) (S754_zero false))
      with (S754_finite false mx ex).
    split; [exact Hx | ]. rewrite Z.add_0_r.
    symmetry. apply round_units_representable. exact Hx.
  - destruct Hx as [Hex _], Hy as [Hey _]. cbn [units] in *. unfold B in *.
    unfold fadd, SFadd. cbn [cond_Zopp].
    pose proof (shl_align_spec mx ex (Z.min ex ey)) as [Hmx _].
    pose proof (shl_align_spec my ey (Z.min ex ey)) as [Hmy _].
    set (ax := fst (shl_align mx ex (Z.min ex ey))) in *.
    set (ay := fst (shl_align my ey (Z.min ex ey))) in *.
    change (Zpos ax + Zpos ay) with (Zpos (ax + ay)).
    cbn [binary_normalize].
    assert (Heq : Zpos mx * 2 ^ (ex + 1074) + Zpos my * 2 ^ (ey + 1074)
                  = Zpos (ax + ay) * 2 ^ (Z.min ex ey + 1074)).
    { rewrite Pos2Z.inj_add, Hmx, Hmy, Z.mul_add_distr_r.
      rewrite <- !Z.mul_assoc, <- !Z.pow_add_r by lia.
      f_equal; do 2 f_equal; lia. }
    rewrite Heq in *.
    apply binary_round_units; unfold B; lia.
Qed.

Lemma py_int_units x :
  nonneg_finite x -> py_int x = Ok (units x / 2 ^ B).
Proof.
  destruct x as [ [ | ] | | | [ | ] m e ]; try (intros H; exfalso; exact H).
  - reflexivity.
  - intros [He _]. cbn [py_int units]. unfold B in *. unfold Ok. do 2 f_equal.
    assert (Hp : 2 ^ 1074 <> 0) by lia.
    destruct e as [ | p | p].
    + rewrite Z.shiftl_mul_pow2 by lia. change (0 + 1074) with 1074.
      rewrite Z.div_mul by exact Hp. change (2 ^ 0) with 1. ring.
    + rewrite Z.shiftl_mul_pow2 by lia.
      rewrite (Z.pow_add_r 2 (Zpos p) 1074) by lia. rewrite Z.mul_assoc.
      rewrite Z.div_mul by exact Hp. reflexivity.
    + rewrite Z.shiftr_div_pow2 by lia.
      assert (Hc : 0 < 2 ^ (Zneg p + 1074)) by (apply Z.pow_pos_nonneg; lia).
      assert (Hs : 2 ^ 1074 = 2 ^ Zpos p * 2 ^ (Zneg p + 1074)).
      { rewrite <- Z.pow_add_r by lia. f_equal. lia. }
      rewrite Hs. rewrite Z.div_mul_cancel_r by lia. reflexivity.
Qed.

End Operations.

Section Division.

Lemma shr_nat mrs e n :
  0 <= n -> shr mrs e n = (Nat.iter (Z.to_nat n) shr_1 mrs, e + n).
Proof.
  intros Hn. destruct n as [ | p | p]; try lia.
  - simpl. rewrite Z.add_0_r. reflexivity.
  - unfold shr. rewrite iter_pos_nat, Z2Nat.inj_pos. reflexivity.
Qed.

Lemma shr_1_twice (q : positive) l :
  shr_1 (shr_1 (Build_shr_record (4 * Zpos q + loc_code l) false false))
  = shr_record_of_loc (Zpos q) l.
Proof. destruct l as [ | [ | | ] ]; reflexivity. Qed.

Lemma Zdigits2_key (q : positive) l :
  Zdigits2 (4 * Zpos q + loc_code l) = Zdigits2 (Zpos q) + 2.
Proof.
  destruct l as [ | [ | | ] ]; cbn [loc_code Zdigits2]; simpl Z.add; simpl Zdigits2;
    lia.
Qed.

(** A located mantissa rounds like the exact mantissa that carries the
    location in two extra low bits. *)
Lemma round_aux_loc s (q : positive) e l :
  0 <= fexp prec emax (Zdigits2 (Zpos q) + e) - e ->
  binary_round_aux prec emax s (Zpos q) e l
  = binary_round_aux prec emax s (4 * Zpos q + loc_code l) (e - 2) loc_Exact.
Proof.
  intros Hn. unfold binary_round_aux, shr_fexp.
  rewrite Zdigits2_key.
  replace (Zdigits2 (Zpos q) + 2 + (e - 2)) with (Zdigits2 (Zpos q) + e) by ring.
  set (E := fexp prec emax (Zdigits2 (Zpos q) + e)) in *.
  rewrite (shr_nat _ e (E - e)) by lia.
  rewrite (shr_nat _ (e - 2) (E - (e - 2))) by lia.
  replace (Z.to_nat (E - (e - 2))) with (Z.to_nat (E - e) + 2)%nat by lia.
  rewrite Nat.iter_add. cbn [shr_record_of_loc].
  change (Nat.iter 2 shr_1 ?x) with (shr_1 (shr_1 x)).
  rewrite shr_1_twice.
  replace (e - 2 + (E - (e - 2))) with (e + (E - e)) by ring.
  reflexivity.
Qed.

Lemma loc_code_range l : 0 <= loc_code l <= 3.
Proof. destruct l as [ | [ | | ] ]; simpl; lia. Qed.

Lemma new_location_0 D : new_location D 0 = loc_Exact.
Proof.
  unfold new_location, new_location_even, new_location_odd.
  destruct (Z.even D); reflexivity.
Qed.

Lemma div_core (p D : positive) :
  Zpos p < 2 ^ 53 -> Zpos D < 2 ^ 53 ->
  SFdiv_core_binary prec emax (Zpos p) 0 (Zpos D) 0
  = (Zpos p * 2 ^ (53 + Z.log2 (Zpos D) - Z.log2 (Zpos p)) / Zpos D,
     - (53 + Z.log2 (Zpos D) - Z.log2 (Zpos p)),
     new_location (Zpos D)
       ((Zpos p * 2 ^ (53 + Z.log2 (Zpos D) - Z.log2 (Zpos p))) mod Zpos D)).
Proof.
  intros Hp HD. unfold SFdiv_core_binary.
  rewrite !Zdigits2_log2 by lia. rewrite fexp_eq.
  assert (Hl1 : Z.log2 (Zpos p) < 53) by (apply Z.log2_lt_pow2; lia).
  assert (Hl2 : Z.log2 (Zpos D) < 53) by (apply Z.log2_lt_pow2; lia).
  pose proof (Z.log2_nonneg (Zpos p)). pose proof (Z.log2_nonneg (Zpos D)).
  set (l1 := Z.log2 (Zpos p)) in *. set (l2 := Z.log2 (Zpos D)) in *.
  replace (Z.min (Z.max (l1 + 1 + 0 - (l2 + 1 + 0) - 53) (-1074)) (0 - 0))
    with (- (53 + l2 - l1)) by lia.
  replace (0 - 0 - - (53 + l2 - l1)) with (53 + l2 - l1) by ring.
  destruct (53 + l2 - l1) as [ | t | t] eqn:Ht; try lia.
  rewrite Z.shiftl_mul_pow2 by lia.
  unfold Z.div, Z.modulo.
  destruct (Z.div_eucl (Zpos p * 2 ^ Zpos t) (Zpos D)) as [q r].
  reflexivity.
Qed.

Lemma fdiv_int_within (p D : positive) K K' :
  Zpos p < 2 ^ 53 -> Zpos D < 2 ^ 53 -> 0 <= K ->
  K * Zpos D <= Zpos p <= K' * Zpos D -> K' * 2 ^ B < 2 ^ (B + 900) ->
  within (round_units B (K * 2 ^ B)) (round_units B (K' * 2 ^ B))
    (fdiv (S754_finite false p 0) (S754_finite false D 0)).
Proof.
  intros Hp HD HK [HKlo HKhi] Hov.
  unfold fdiv, SFdiv. rewrite div_core by assumption. cbn [xorb].
  assert (Hl1' : Z.log2 (Zpos p) < 53) by (apply Z.log2_lt_pow2; lia).
  assert (Hl2' : Z.log2 (Zpos D) < 53) by (apply Z.log2_lt_pow2; lia).
  pose proof (Z.log2_nonneg (Zpos p)) as Hl1.
  pose proof (Z.log2_nonneg (Zpos D)) as Hl2.
  pose proof (Z.log2_spec (Zpos p) ltac:(lia)) as [Hplo Hphi].
  pose proof (Z.log2_spec (Zpos D) ltac:(lia)) as [HDlo HDhi].
  set (l1 := Z.log2 (Zpos p)) in *. set (l2 := Z.log2 (Zpos D)) in *.
  set (s := 53 + l2 - l1).
  assert (Hs : s = 53 + l2 - l1) by reflexivity.
  assert (H2s : 0 < 2 ^ s) by (apply Z.pow_pos_nonneg; lia).
  pose proof (Z.div_mod (Zpos p * 2 ^ s) (Zpos D) ltac:(lia)) as Hdm.
  pose proof (Z.mod_pos_bound (Zpos p * 2 ^ s) (Zpos D) ltac:(lia)) as Hr.
  set (q := Zpos p * 2 ^ s / Zpos D) in *.
  set (r := (Zpos p * 2 ^ s) mod Zpos D) in *.
  (* the quotient has at least 53 bits *)
  assert (Hq52 : 2 ^ 52 <= q).
  { apply Z.div_le_lower_bound; [lia | ].
    apply Z.le_trans with (2 ^ Z.succ l2 * 2 ^ 52); [nia | ].
    apply Z.le_trans with (2 ^ l1 * 2 ^ s); [ | nia].
    rewrite <- !Z.pow_add_r by lia. apply Z.pow_le_mono_r; lia. }
  assert (Hlq : 52 <= Z.log2 q) by (apply Z.log2_le_pow2; lia).
  destruct q as [ | qp | qp] eqn:Hqeq; try lia.
  rewrite round_aux_loc.
  2:{ rewrite Zdigits2_log2 by lia. rewrite fexp_eq. lia. }
  pose proof (loc_code_range (new_location (Zpos D) r)) as Hc.
  set (c := loc_code (new_location (Zpos D) r)) in *.
  assert (Hc0 : r = 0 -> c = 0).
  { intros ->. unfold c. rewrite new_location_0. reflexivity. }
  destruct (4 * Zpos qp + c) as [ | kp | kp] eqn:Hk; try lia.
  assert (He2 : 0 <= - s - 2 + B) by (unfold B; lia).
  assert (H2e : 0 < 2 ^ (- s - 2 + B)) by (apply Z.pow_pos_nonneg; lia).
  assert (Hsplit : 2 ^ B = 4 * 2 ^ s * 2 ^ (- s - 2 + B)).
  { change 4 with (2 ^ 2). rewrite <- !Z.pow_add_r by lia. f_equal. ring. }
  (* bounds on the exact mantissa *)
  assert (HXlo : K * 2 ^ B <= Zpos kp * 2 ^ (- s - 2 + B)).
  { rewrite Hsplit, <- Hk.
    assert (K * 2 ^ s <= Zpos qp).
    { apply Z.lt_succ_r. apply (Z.mul_lt_mono_pos_l (Zpos D)); [lia | ].
      apply Z.le_lt_trans with (Zpos p * 2 ^ s); [nia | lia]. }
    replace (K * (4 * 2 ^ s * 2 ^ (- s - 2 + B)))
      with (4 * (K * 2 ^ s) * 2 ^ (- s - 2 + B)) by ring.
    apply Z.mul_le_mono_nonneg_r; lia. }
  assert (HXhi : Zpos kp * 2 ^ (- s - 2 + B) <= K' * 2 ^ B).
  { rewrite Hsplit, <- Hk.
    assert (HpK : Zpos p * 2 ^ s <= Zpos D * (K' * 2 ^ s)) by nia.
    assert (4 * Zpos qp + c <= 4 * (K' * 2 ^ s)).
    { destruct (Z.eq_dec r 0) as [Hr0 | Hr0].
      - rewrite (Hc0 Hr0).
        assert (Zpos qp <= K' * 2 ^ s)
          by (apply (Z.mul_le_mono_pos_l _ _ (Zpos D)); lia).
        lia.
      - assert (Zpos qp < K' * 2 ^ s)
          by (apply (Z.mul_lt_mono_pos_l (Zpos D)); lia).
        lia. }
    replace (K' * (4 * 2 ^ s * 2 ^ (- s - 2 + B)))
      with (4 * (K' * 2 ^ s) * 2 ^ (- s - 2 + B)) by ring.
    apply Z.mul_le_mono_nonneg_r; lia. }
  destruct (round_aux_exact kp (- s - 2) B) as [Hfin Hval];
    [lia | lia | lia | ].
  split; [exact Hfin | ].
  rewrite Hval. split; apply round_units_mono; lia.
Qed.

End Division.

Section Intervals.

Lemma nonneg_finiteb_true f : nonneg_finiteb f = true -> nonneg_finite f.
Proof.
  destruct f as [ [ | ] | | | [ | ] m e ]; cbn [nonneg_finiteb nonneg_finite];
    try discriminate; try tauto.
  intros H. apply andb_true_iff in H. destruct H as [H1 H2].
  apply Z.leb_le in H1. apply Z.ltb_lt in H2. tauto.
Qed.

Lemma nonneg_finite_not_inf f : nonneg_finite f -> is_inf f = false.
Proof. destruct f as [ [ | ] | [ | ] | | [ | ] m e ]; simpl; tauto. Qed.

Lemma within_const f : nonneg_finite f -> within (units f) (units f) f.
Proof. intros H. split; [exact H | lia]. Qed.

Lemma fmul_within a b c d x y :
  within a b x -> within c d y -> 0 <= a -> 0 <= c ->
  b * d < 2 ^ (2 * B + 900) ->
  within (round_units (2 * B) (a * c)) (round_units (2 * B) (b * d)) (fmul x y).
Proof.
  intros [Hx [Hxa Hxb]] [Hy [Hyc Hyd]] Ha Hc Hov.
  assert (Hlo : a * c <= units x * units y) by (apply Z.mul_le_mono_nonneg; lia).
  assert (Hhi : units x * units y <= b * d) by (apply Z.mul_le_mono_nonneg; lia).
  destruct (fmul_units x y Hx Hy ltac:(lia)) as [Hf Hu].
  split; [exact Hf | ]. rewrite Hu.
  split; apply round_units_mono; unfold B; lia.
Qed.

Lemma fadd_within a b c d x y :
  within a b x -> within c d y -> 0 <= a -> 0 <= c ->
  b + d < 2 ^ (B + 900) ->
  within (round_units B (a + c)) (round_units B (b + d)) (fadd x y).
Proof.
  intros [Hx [Hxa Hxb]] [Hy [Hyc Hyd]] Ha Hc Hov.
  destruct (fadd_units x y Hx Hy ltac:(lia)) as [Hf Hu].
  split; [exact Hf | ]. rewrite Hu.
  split; apply round_units_mono; unfold B; lia.
Qed.

Lemma py_int_within a b x :
  within a b x ->
  exists v, py_int x = Ok v /\ a / 2 ^ B <= v <= b / 2 ^ B.
Proof.
  intros [Hx [Ha Hb]]. exists (units x / 2 ^ B).
  split; [apply py_int_units; exact Hx | ].
  assert (0 < 2 ^ B) by (unfold B; lia).
  split; apply Z.div_le_mono; lia.
Qed.

Lemma float_of_int_within a b n :
  0 <= a -> a <= n <= b -> b * 2 ^ B < 2 ^ (B + 900) ->
  exists f, float_of_int n = Ok f
            /\ within (round_units B (a * 2 ^ B)) (round_units B (b * 2 ^ B)) f.
Proof.
  intros Ha [Hl Hh] Hov. unfold float_of_int.
  assert (Hp : 0 < 2 ^ B) by (unfold B; lia).
  destruct (binary_normalize_units n 0 ltac:(lia) ltac:(unfold B; lia))
    as [Hf Hu].
  { rewrite Z.add_0_l. apply Z.le_lt_trans with (b * 2 ^ B); [ | exact Hov].
    apply Z.mul_le_mono_nonneg_r; lia. }
  rewrite (nonneg_finite_not_inf _ Hf). eexists. split; [reflexivity | ].
  split; [exact Hf | ]. rewrite Hu, Z.add_0_l.
  split; apply round_units_mono; try (unfold B; lia); split;
    try (apply Z.mul_nonneg_nonneg; lia); apply Z.mul_le_mono_nonneg_r; lia.
Qed.

Lemma int_truediv_within n D K K' :
  0 < n < 2 ^ 53 -> 0 < D < 2 ^ 53 -> 0 <= K ->
  K * D <= n <= K' * D -> K' * 2 ^ B < 2 ^ (B + 900) ->
  exists f, int_truediv n D = Ok f
    /\ within (round_units B (K * 2 ^ B)) (round_units B (K' * 2 ^ B)) f.
Proof.
  intros Hn HD HK Hb Hov.
  destruct n as [ | p | p]; try lia. destruct D as [ | q | q]; try lia.
  pose proof (fdiv_int_within p q K K' ltac:(lia) ltac:(lia) HK Hb Hov) as Hw.
  unfold int_truediv. cbv zeta.
  rewrite (nonneg_finite_not_inf _ (proj1 Hw)).
  eexists. split; [reflexivity | exact Hw].
Qed.

Lemma py_round2_cents x :
  nonneg_finite x ->
  py_round2 x =
  match div_half_even (100 * units x) (2 ^ B) with
  | Zpos c => fdiv (S754_finite false c 0) (S754_finite false 100 0)
  | _ => S754_zero false
  end.
Proof.
  destruct x as [ [ | ] | | | [ | ] m e ]; try (intros H; exfalso; exact H).
  - intros _. reflexivity.
  - intros [He _]. cbn [py_round2 units]. unfold B in *.
    assert (Hp : 0 < 2 ^ 1074) by lia.
    assert (Hk : match e with
                 | Zneg p => div_half_even (100 * Zpos m) (Z.pow_pos 2 p)
                 | _ => 100 * Z.shiftl (Zpos m) e
                 end
                 = div_half_even (100 * (Zpos m * 2 ^ (e + 1074))) (2 ^ 1074)).
    { destruct e as [ | p | p].
      - rewrite Z.shiftl_mul_pow2 by lia. change (2 ^ 0) with 1.
        change (0 + 1074) with 1074. rewrite Z.mul_1_r, Z.mul_assoc.
        rewrite div_half_even_exact by lia. reflexivity.
      - rewrite Z.shiftl_mul_pow2 by lia.
        rewrite (Z.pow_add_r 2 (Zpos p) 1074) by lia. rewrite !Z.mul_assoc.
        rewrite div_half_even_exact by lia. ring.
      - change (Z.pow_pos 2 p) with (2 ^ Zpos p).
        assert (Hc : 0 < 2 ^ (Zneg p + 1074)) by (apply Z.pow_pos_nonneg; lia).
        assert (Hs : 2 ^ 1074 = 2 ^ Zpos p * 2 ^ (Zneg p + 1074)).
        { rewrite <- Z.pow_add_r by lia. f_equal. lia. }
        rewrite Hs, Z.mul_assoc.
        rewrite div_half_even_scale by lia. reflexivity. }
    rewrite Hk. reflexivity.
Qed.

End Intervals.

Section FloatBounds.

Lemma smallb_true f : smallb f = true -> nonneg_finite f /\ small f.
Proof.
  unfold smallb. intros H. apply andb_true_iff in H. destruct H as [H1 H2].
  pose proof (nonneg_finiteb_true f H1) as Hf. split; [exact Hf | ].
  unfold small.
  destruct f as [ [ | ] | | | [ | ] m e ]; try (exfalso; exact Hf);
    cbn [units nonneg_finite] in *; unfold B in *.
  - apply Z.pow_pos_nonneg; lia.
  - destruct Hf as [He Hm]. apply Z.leb_le in H2.
    apply Z.lt_le_trans with (2 ^ 53 * 2 ^ (e + 1074)).
    + apply Z.mul_lt_mono_pos_r; [apply Z.pow_pos_nonneg; lia | exact Hm].
    + rewrite <- Z.pow_add_r by lia. apply Z.pow_le_mono_r; lia.
Qed.

Lemma fi_ok_true x :
  fi_ok x = true ->
  nonneg_finite (fst x) /\ nonneg_finite (snd x) /\ small (snd x).
Proof.
  unfold fi_ok. intros H. apply andb_true_iff in H. destruct H as [H1 H2].
  apply nonneg_finiteb_true in H1. apply smallb_true in H2. tauto.
Qed.

Lemma small_mul a b : 0 <= a -> 0 <= b ->
  a < 2 ^ (B + 400) -> b < 2 ^ (B + 400) -> a * b < 2 ^ (2 * B + 900).
Proof.
  intros Ha Hb Ha' Hb'. unfold B in *.
  apply Z.le_lt_trans with (2 ^ (1074 + 400) * 2 ^ (1074 + 400)).
  - apply Z.mul_le_mono_nonneg; lia.
  - rewrite <- Z.pow_add_r by lia. apply Z.pow_lt_mono_r; lia.
Qed.

Lemma small_add a b :
  a < 2 ^ (B + 400) -> b < 2 ^ (B + 400) -> a + b < 2 ^ (B + 900).
Proof.
  intros Ha Hb. unfold B in *.
  assert (2 * 2 ^ (1074 + 400) <= 2 ^ (1074 + 900)).
  { change 2 with (2 ^ 1) at 1. rewrite <- Z.pow_add_r by lia.
    apply Z.pow_le_mono_r; lia. }
  lia.
Qed.

Lemma fmul_between X Y x y :
  fi_ok X = true -> fi_ok Y = true ->
  between (fst X) (snd X) x -> between (fst Y) (snd Y) y ->
  between (fst (fi_mul X Y)) (snd (fi_mul X Y)) (fmul x y).
Proof.
  intros HX HY [Hx [Hxa Hxb]] [Hy [Hyc Hyd]].
  destruct (fi_ok_true X HX) as (Ha & Hb & Hsb).
  destruct (fi_ok_true Y HY) as (Hc & Hd & Hsd).
  unfold small in *. cbn [fi_mul fst snd].
  pose proof (units_nonneg _ Ha). pose proof (units_nonneg _ Hc).
  pose proof (units_nonneg _ Hx). pose proof (units_nonneg _ Hy).
  destruct (fmul_units (fst X) (fst Y) Ha Hc) as [_ Hlo];
    [apply small_mul; lia | ].
  destruct (fmul_units (snd X) (snd Y) Hb Hd) as [_ Hhi];
    [apply small_mul; lia | ].
  unfold between. rewrite Hlo, Hhi.
  apply fmul_within; try (split; [assumption | lia]); try lia.
  apply small_mul; lia.
Qed.

Lemma fadd_between X Y x y :
  fi_ok X = true -> fi_ok Y = true ->
  between (fst X) (snd X) x -> between (fst Y) (snd Y) y ->
  between (fst (fi_add X Y)) (snd (fi_add X Y)) (fadd x y).
Proof.
  intros HX HY [Hx [Hxa Hxb]] [Hy [Hyc Hyd]].
  destruct (fi_ok_true X HX) as (Ha & Hb & Hsb).
  destruct (fi_ok_true Y HY) as (Hc & Hd & Hsd).
  unfold small in *. cbn [fi_add fst snd].
  pose proof (units_nonneg _ Ha). pose proof (units_nonneg _ Hc).
  destruct (fadd_units (fst X) (fst Y) Ha Hc) as [_ Hlo];
    [apply small_add; lia | ].
  destruct (fadd_units (snd X) (snd Y) Hb Hd) as [_ Hhi];
    [apply small_add; lia | ].
  unfold between. rewrite Hlo, Hhi.
  apply fadd_within; try (split; [assumption | lia]); try lia.
  apply small_add; lia.
Qed.

Lemma between_const f : nonneg_finite f -> between f f f.
Proof. intros H. apply within_const. exact H. Qed.

Lemma pow2_B_bound n : 0 <= n < 2 ^ 400 -> n * 2 ^ B < 2 ^ (B + 900).
Proof.
  intros [H0 H1]. unfold B.
  apply Z.lt_le_trans with (2 ^ 400 * 2 ^ 1074).
  - apply Z.mul_lt_mono_pos_r; lia.
  - rewrite <- Z.pow_add_r by lia. apply Z.pow_le_mono_r; lia.
Qed.

Lemma F_units n :
  0 <= n < 2 ^ 400 ->
  nonneg_finite (F n) /\ units (F n) = round_units B (n * 2 ^ B).
Proof.
  intros Hn. unfold F.
  destruct (binary_normalize_units n 0 ltac:(lia) ltac:(unfold B; lia)) as [H1 H2].
  - rewrite Z.add_0_l. apply pow2_B_bound. exact Hn.
  - rewrite Z.add_0_l in H2. split; assumption.
Qed.

Lemma F_pos n : 1 <= n < 2 ^ 400 -> 0 < units (F n).
Proof.
  intros Hn. destruct (F_units n ltac:(lia)) as [_ Hu]. rewrite Hu.
  assert (Hp : 0 < 2 ^ B) by (unfold B; lia).
  assert (HX : 2 ^ B <= n * 2 ^ B) by nia.
  assert (Hl : B <= Z.log2 (n * 2 ^ B)).
  { apply Z.log2_le_pow2; [lia | exact HX]. }
  pose proof (round_units_lower B (n * 2 ^ B) ltac:(lia) ltac:(lia)) as Hlow.
  assert (0 < 2 ^ (Z.log2 (n * 2 ^ B) - B + B))
    by (apply Z.pow_pos_nonneg; unfold B in *; lia).
  unfold B in *. lia.
Qed.

Lemma float_of_int_between a b n :
  0 <= a -> a <= n <= b -> b < 2 ^ 400 ->
  exists f, float_of_int n = Ok f /\ between (F a) (F b) f.
Proof.
  intros Ha Hn Hb.
  destruct (F_units a ltac:(lia)) as [_ Hua].
  destruct (F_units b ltac:(lia)) as [_ Hub].
  unfold between. rewrite Hua, Hub.
  apply float_of_int_within; try lia. apply pow2_B_bound. lia.
Qed.

Lemma random_between k :
  0 <= k < 2 ^ 53 ->
  between (S754_zero false) random_max
          (binary_normalize prec emax k (-53) false).
Proof.
  intros [Hk0 Hk1].
  assert (Hp : 0 < 2 ^ (B - 53)) by (unfold B; lia).
  assert (Hov : forall j, 0 <= j < 2 ^ 53 ->
                          j * 2 ^ (-53 + B) < 2 ^ (B + 900)).
  { intros j Hj. replace (-53 + B) with (B - 53) by ring.
    apply Z.le_lt_trans with (2 ^ 53 * 2 ^ (B - 53)).
    - apply Z.mul_le_mono_nonneg_r; lia.
    - rewrite <- Z.pow_add_r by (unfold B; lia).
      apply Z.pow_lt_mono_r; unfold B; lia. }
  destruct (binary_normalize_units k (-53) Hk0 ltac:(unfold B; lia)
              (Hov k ltac:(lia))) as [Hf Hu].
  destruct (binary_normalize_units (2 ^ 53 - 1) (-53) ltac:(lia)
              ltac:(unfold B; lia) (Hov (2 ^ 53 - 1) ltac:(lia))) as [_ Hm].
  change (binary_normalize prec emax (2 ^ 53 - 1) (-53) false)
    with random_max in Hm.
  split; [exact Hf | ]. rewrite Hu, Hm. cbn [units].
  replace (-53 + B) with (B - 53) by ring.
  split.
  - apply round_units_nonneg; [unfold B; lia | ].
    apply Z.mul_nonneg_nonneg; lia.
  - apply round_units_mono; [unfold B; lia | ]. split.
    + apply Z.mul_nonneg_nonneg; lia.
    + apply Z.mul_le_mono_nonneg_r; lia.
Qed.

Lemma int_truediv_between n D K K' :
  0 < n < 2 ^ 53 -> 0 < D < 2 ^ 53 -> 0 <= K ->
  K * D <= n <= K' * D -> K' < 2 ^ 400 ->
  exists f, int_truediv n D = Ok f /\ between (F K) (F K') f.
Proof.
  intros Hn HD HK Hb HK'.
  assert (0 <= K') by nia.
  destruct (F_units K ltac:(nia)) as [_ Hua].
  destruct (F_units K' ltac:(lia)) as [_ Hub].
  unfold between. rewrite Hua, Hub.
  apply int_truediv_within; try assumption.
  apply pow2_B_bound. lia.
Qed.

Lemma trunc_units f : nonneg_finite f -> trunc f = units f / 2 ^ B.
Proof. intros H. unfold trunc. rewrite (py_int_units f H). reflexivity. Qed.

Lemma py_int_between lo hi x :
  nonneg_finite lo -> nonneg_finite hi -> between lo hi x ->
  exists v, py_int x = Ok v /\ trunc lo <= v <= trunc hi.
Proof.
  intros Hlo Hhi Hx. rewrite !trunc_units by assumption.
  apply py_int_within. exact Hx.
Qed.

Lemma py_round2_between lo hi x :
  nonneg_finite lo -> nonneg_finite hi -> between lo hi x ->
  1 <= trunc lo -> 100 * (trunc hi + 1) < 2 ^ 53 ->
  between (F (trunc lo)) (F (trunc hi + 1)) (py_round2 x).
Proof.
  intros Hlo Hhi [Hx [Ha Hb]] H1 H2.
  rewrite !trunc_units in * by assumption.
  assert (Hp : 0 < 2 ^ B) by (unfold B; lia).
  set (ia := units lo / 2 ^ B) in *. set (ib := units hi / 2 ^ B) in *.
  assert (Hia : ia * 2 ^ B <= units lo).
  { unfold ia. rewrite Z.mul_comm. apply Z.mul_div_le. lia. }
  assert (Hib : units hi < (ib + 1) * 2 ^ B).
  { unfold ib. pose proof (Z.div_mod (units hi) (2 ^ B) ltac:(lia)).
    pose proof (Z.mod_pos_bound (units hi) (2 ^ B) Hp). nia. }
  rewrite (py_round2_cents x Hx).
  pose proof (div_half_even_mono (100 * ia * 2 ^ B) (100 * units x) (2 ^ B) Hp
                ltac:(nia)) as Hk1.
  pose proof (div_half_even_mono (100 * units x) (100 * (ib + 1) * 2 ^ B) (2 ^ B)
                Hp ltac:(nia)) as Hk2.
  rewrite div_half_even_exact in Hk1, Hk2 by lia.
  assert (Hps : 2 ^ 53 < 2 ^ 400) by (apply Z.pow_lt_mono_r; lia).
  destruct (F_units ia ltac:(lia)) as [_ Hua].
  destruct (F_units (ib + 1) ltac:(lia)) as [_ Hub].
  unfold between. rewrite Hua, Hub.
  destruct (div_half_even (100 * units x) (2 ^ B)) as [ | c | c]; try lia.
  apply fdiv_int_within; try lia.
  apply pow2_B_bound. lia.
Qed.

Lemma between_positive lo hi x :
  between lo hi x -> 0 < units lo -> fltb (S754_zero false) x = true.
Proof.
  intros [Hx [Ha _]] Hlo.
  destruct x as [ [ | ] | | | [ | ] m e ]; try (exfalso; exact Hx).
  - cbn [units] in Ha. lia.
  - reflexivity.
Qed.

Lemma fle_b_sound x y :
  nonneg_finite x -> nonneg_finite y -> fle_b x y = true ->
  units x <= units y.
Proof.
  intros Hx Hy H.
  destruct x as [ [ | ] | | | [ | ] m1 e1 ]; try (exfalso; exact Hx);
    destruct y as [ [ | ] | | | [ | ] m2 e2 ]; try (exfalso; exact Hy);
    cbn [fle_b units] in *; try discriminate; try lia.
  destruct Hx as [He1 _], Hy as [He2 _]. apply Z.leb_le in H. unfold B in *.
  set (e := Z.min e1 e2) in *.
  assert (He : e = Z.min e1 e2) by reflexivity.
  replace (e1 + 1074) with ((e1 - e) + (e + 1074)) by ring.
  replace (e2 + 1074) with ((e2 - e) + (e + 1074)) by ring.
  rewrite (Z.pow_add_r 2 (e1 - e)), (Z.pow_add_r 2 (e2 - e)) by lia.
  rewrite !Z.mul_assoc. apply Z.mul_le_mono_nonneg_r; [ | exact H].
  apply Z.pow_nonneg. lia.
Qed.

End FloatBounds.

(** * The generator, step by step *)

Section Enumerations.

Lemma zrange_forallb (P : Z -> bool) a n v :
  forallb P (zrange a n) = true -> a <= v < a + Z.of_nat n -> P v = true.
Proof.
  intros H Hv. unfold zrange in H. rewrite forallb_forall in H.
  apply H. apply in_map_iff. exists (Z.to_nat (v - a)). split; [lia | ].
  apply in_seq. lia.
Qed.

Lemma in_bounds_true b r :
  in_bounds b r = true -> nonneg_finite (fst b) -> nonneg_finite (snd b) ->
  exists x, r = Ok x /\ between (fst b) (snd b) x.
Proof.
  intros H Hlo Hhi. destruct r as [e | x]; [discriminate | ].
  cbn [in_bounds] in H. apply andb_true_iff in H. destruct H as [H H3].
  apply andb_true_iff in H. destruct H as [H1 H2].
  apply nonneg_finiteb_true in H1.
  exists x. split; [reflexivity | ]. split; [exact H1 | ].
  split; apply fle_b_sound; assumption.
Qed.

Lemma bonus_bounds_ok : fi_ok bonus_bounds = true.
Proof. reflexivity. Qed.

Lemma penalty_bounds_ok : fi_ok penalty_bounds = true.
Proof. reflexivity. Qed.

Lemma location_bonus_between ls :
  1 <= ls <= 10 ->
  exists b, location_bonus_of ls = Ok b
            /\ between (fst bonus_bounds) (snd bonus_bounds) b.
Proof.
  intros H.
  destruct (fi_ok_true _ bonus_bounds_ok) as (Hlo & Hhi & _).
  apply in_bounds_true; try assumption.
  apply (zrange_forallb (fun v => in_bounds bonus_bounds (location_bonus_of v))
           1 10); [vm_compute; reflexivity | lia].
Qed.

Lemma age_penalty_between age :
  0 <= age <= 25 ->
  exists p, age_penalty_of age = Ok p
            /\ between (fst penalty_bounds) (snd penalty_bounds) p.
Proof.
  intros H.
  destruct (fi_ok_true _ penalty_bounds_ok) as (Hlo & Hhi & _).
  apply in_bounds_true; try assumption.
  apply (zrange_forallb (fun v => in_bounds penalty_bounds (age_penalty_of v))
           0 26); [vm_compute; reflexivity | lia].
Qed.

Lemma rbind_Ok_inv {A C : Type} (c : Result A) (k : A -> Result C) x :
  rbind c k = Ok x -> exists a, c = Ok a /\ k a = Ok x.
Proof.
  destruct c as [e | a]; cbn [rbind]; intros H; [discriminate | ].
  exists a. split; [reflexivity | exact H].
Qed.

End Enumerations.

Section Steps.

Variable R : RandomSource.

Lemma set_py_random_twice (w : World R) s1 s2 :
  set_py_random R (set_py_random R w s1) s2 = set_py_random R w s2.
Proof. reflexivity. Qed.

Lemma bind_Ok {A C : Type} (c : M R A) (k : A -> M R C) w a w1 :
  c w = Ok (a, w1) -> bind c k w = k a w1.
Proof. intros H. unfold bind. rewrite H. reflexivity. Qed.

Lemma lift_Ok {A : Type} (r : Result A) a (w : World R) :
  r = Ok a -> lift R r w = Ok (a, w).
Proof. intros ->. reflexivity. Qed.

Lemma randbelow_ok n w :
  0 < n ->
  exists v s, randbelow R n w = Ok (v, set_py_random R w s) /\ 0 <= v < n.
Proof.
  intros Hn. unfold randbelow.
  pose proof (rng_randbelow_range R n (py_random R w) Hn) as Hr.
  destruct (rng_randbelow R n (py_random R w)) as [v s].
  exists v, s. split; [reflexivity | exact Hr].
Qed.

Lemma randint_ok a b w :
  a <= b ->
  exists v s, randint R a b w = Ok (v, set_py_random R w s) /\ a <= v <= b.
Proof.
  intros Hab. unfold randint.
  destruct (Z.ltb_spec 0 (b + 1 - a)) as [Hw | Hw]; [ | lia].
  destruct (randbelow_ok (b + 1 - a) w Hw) as (v & s & Hv & Hr).
  rewrite (bind_Ok _ _ _ _ _ Hv).
  exists (a + v), s. split; [reflexivity | lia].
Qed.

Lemma choice_ok {A : Type} (seq : list A) w :
  seq <> [] ->
  exists x s, choice R seq w = Ok (x, set_py_random R w s) /\ In x seq.
Proof.
  intros Hne. destruct seq as [ | a l]; [congruence | ].
  unfold choice. set (seq := a :: l).
  destruct (randbelow_ok (Z.of_nat (List.length seq)) w) as (i & s & Hi & Hr).
  { simpl. lia. }
  rewrite (bind_Ok _ _ _ _ _ Hi).
  destruct (nth_error seq (Z.to_nat i)) as [x | ] eqn:Hx.
  - exists x, s. split; [reflexivity | ]. eapply nth_error_In. exact Hx.
  - apply nth_error_None in Hx. lia.
Qed.

Lemma random_ok w :
  exists r s, random R w = Ok (r, set_py_random R w s)
              /\ between (S754_zero false) random_max r.
Proof.
  unfold random.
  pose proof (rng_bits53_range R (py_random R w)) as Hr.
  destruct (rng_bits53 R (py_random R w)) as [k s].
  eexists _, s. split; [reflexivity | ]. apply random_between. exact Hr.
Qed.

Lemma unit_interval_ok : fi_ok (S754_zero false, random_max) = true.
Proof. reflexivity. Qed.

Lemma fi_ok_const f : smallb f = true -> fi_ok (fi_const f) = true.
Proof.
  intros H. unfold fi_ok, fi_const. cbn [fst snd]. rewrite H.
  unfold smallb in H. apply andb_true_iff in H. destruct H as [H _].
  rewrite H. reflexivity.
Qed.

Lemma uniform_ok lo hi w :
  smallb lo = true -> smallb (fsub hi lo) = true ->
  fi_ok (spread_bounds lo hi) = true ->
  exists v s, uniform R lo hi w = Ok (v, set_py_random R w s)
    /\ between (fst (variation_bounds lo hi)) (snd (variation_bounds lo hi)) v.
Proof.
  intros Hlo Hd Hsp. unfold uniform.
  destruct (random_ok w) as (r & s & Hr & Hb).
  rewrite (bind_Ok _ _ _ _ _ Hr).
  exists (fadd lo (fmul (fsub hi lo) r)), s. split; [reflexivity | ].
  unfold variation_bounds.
  apply fadd_between; [apply fi_ok_const; exact Hlo | exact Hsp | | ].
  - apply between_const. apply (smallb_true _ Hlo).
  - unfold spread_bounds.
    apply fmul_between;
      [apply fi_ok_const; exact Hd | exact unit_interval_ok | | exact Hb].
    apply between_const. apply (smallb_true _ Hd).
Qed.

Lemma datetime_now_ok (w : World R) :
  datetime_now R w = Ok (Z.of_N (clock R w (clock_reads R w)), tick R w).
Proof. reflexivity. Qed.

Lemma getitem_keys {V : Type} (d : dict V) k :
  In k (keys d) -> exists v, getitem d k = Ok v /\ In (k, v) d.
Proof.
  induction d as [ | [k' v'] d IH]; intros Hin; [contradiction | ].
  cbn [getitem]. destruct (String.eqb_spec k k') as [-> | Hne].
  - exists v'. split; [reflexivity | left; reflexivity].
  - destruct Hin as [Heq | Hin]; [cbn in Heq; congruence | ].
    destruct (IH Hin) as (v & Hg & Hv). exists v. split; [exact Hg | right; exact Hv].
Qed.

Lemma keys_nonempty {V : Type} (d : dict V) : d <> [] -> keys d <> [].
Proof. destruct d; [congruence | discriminate]. Qed.

Lemma tables_combo cities types c cd t pd :
  tables_ok cities types = true ->
  In (c, cd) cities -> In (t, pd) types -> combo_ok cd pd = true.
Proof.
  intros H Hc Ht. unfold tables_ok in H. rewrite forallb_forall in H.
  specialize (H _ Hc). rewrite forallb_forall in H. exact (H _ Ht).
Qed.

End Steps.

Ltac peel H H' := apply andb_prop in H; destruct H as [H H'].

Section Row.

Variable R : RandomSource.

Lemma trunc_nonneg f : nonneg_finite f -> 0 <= trunc f.
Proof.
  intros H. rewrite trunc_units by exact H.
  apply Z.div_pos; [apply units_nonneg; exact H | unfold B; lia].
Qed.

Lemma one_property_ok cities types (w : World R) :
  tables_ok cities types = true -> cities <> [] -> types <> [] ->
  exists row s cd pd,
    one_property R cities types w = Ok (row, tick R (set_py_random R w s))
    /\ getitem cities (city row) = Ok cd
    /\ getitem types (property_type row) = Ok pd
    /\ RowFacts (clock R w) cd pd row.
Proof.
  intros Hok Hc Ht.
  (* the two choices and the table look-ups *)
  destruct (choice_ok R (keys cities) w (keys_nonempty _ Hc))
    as (c & s1 & E1 & Hin1).
  destruct (choice_ok R (keys types) (set_py_random R w s1) (keys_nonempty _ Ht))
    as (t & s2 & E2 & Hin2).
  rewrite set_py_random_twice in E2.
  destruct (getitem_keys cities c Hin1) as (cd & Egc & Hcd).
  destruct (getitem_keys types t Hin2) as (pd & Egt & Hpd).
  pose proof (tables_combo _ _ _ _ _ _ Hok Hcd Hpd) as Hco.
  unfold combo_ok in Hco.
  peel Hco Hcents. peel Hco Hlakh. peel Hco Hfinal. peel Hco Htb.
  peel Hco Htotal. peel Hco Hprod53. peel Hco Hprodpos. peel Hco Harea_ok.
  peel Hco HFmm. peel Hco Hmax53. peel Hco Hminmax. peel Hco Hmin0.
  apply Z.ltb_lt in Hcents, Hprod53, Hprodpos, Hmax53.
  apply Z.leb_le in Hlakh, Hminmax, Hmin0.
  unfold city_ok in Hco.
  destruct (price_range cd) as [[[lo hi] basef] | ] eqn:Epr; [ | discriminate].
  peel Hco Hpps_ok. peel Hco Hvar_ok. peel Hco Hspread_ok. peel Hco Hmult.
  peel Hco Hbase. peel Hco Hd. rename Hco into Hlo.
  assert (Eppsb : pps_float_bounds cd
                  = fi_mul (fi_const basef) (variation_bounds lo hi)).
  { unfold pps_float_bounds. rewrite Epr. reflexivity. }
  unfold price_range in Epr.
  destruct (int_sub_float 1 (price_variation cd)) as [ | lo'] eqn:Elo;
    [discriminate | ].
  destruct (int_add_float 1 (price_variation cd)) as [ | hi'] eqn:Ehi;
    [discriminate | ].
  destruct (float_of_int (base_price_per_sqft cd)) as [ | basef'] eqn:Ebase;
    [discriminate | ].
  injection Epr as -> -> ->.
  (* area *)
  destruct (randint_ok R (min_area pd) (max_area pd) (set_py_random R w s2)
              Hminmax) as (base_area & s3 & E3 & Hba).
  rewrite set_py_random_twice in E3.
  assert (Hp53 : 2 ^ 53 < 2 ^ 400) by (apply Z.pow_lt_mono_r; lia).
  destruct (float_of_int_between (min_area pd) (max_area pd) base_area
              Hmin0 Hba ltac:(lia)) as (fa & Efa & Hfa).
  pose proof (fmul_between (F (min_area pd), F (max_area pd))
                (fi_const (avg_area_multiplier cd)) fa (avg_area_multiplier cd)
                HFmm (fi_ok_const _ Hmult) Hfa
                (between_const _ (proj1 (smallb_true _ Hmult)))) as Hscaled.
  fold (area_float_bounds cd pd) in Hscaled.
  destruct (fi_ok_true _ Harea_ok) as (Halo & Hahi & _).
  destruct (py_int_between _ _ _ Halo Hahi Hscaled) as (area & Earea & Harea).
  fold (fst (area_bounds cd pd)) in Harea.
  (* price per square foot *)
  destruct (uniform_ok R lo hi (set_py_random R w s3) Hlo Hd Hspread_ok)
    as (pv & s4 & E4 & Hpv).
  rewrite set_py_random_twice in E4.
  pose proof (fmul_between (fi_const basef) (variation_bounds lo hi) basef pv
                (fi_ok_const _ Hbase) Hvar_ok
                (between_const _ (proj1 (smallb_true _ Hbase))) Hpv) as Hvaried.
  rewrite <- Eppsb in Hvaried.
  destruct (fi_ok_true _ Hpps_ok) as (Hplo & Hphi & _).
  destruct (py_int_between _ _ _ Hplo Hphi Hvaried) as (pps & Epps & Hpps).
  (* total price in lakhs *)
  pose proof (trunc_nonneg _ Halo) as Halo0.
  pose proof (trunc_nonneg _ Hplo) as Hplo0.
  change (trunc (fst (area_float_bounds cd pd))) with (fst (area_bounds cd pd)) in *.
  change (trunc (snd (area_float_bounds cd pd))) with (snd (area_bounds cd pd)) in *.
  change (trunc (fst (pps_float_bounds cd))) with (fst (pps_bounds cd)) in *.
  change (trunc (snd (pps_float_bounds cd))) with (snd (pps_bounds cd)) in *.
  set (alo := fst (area_bounds cd pd)) in *.
  set (ahi := snd (area_bounds cd pd)) in *.
  set (plo := fst (pps_bounds cd)) in *.
  set (phi := snd (pps_bounds cd)) in *.
  assert (Hprod : plo * alo <= pps * area <= phi * ahi).
  { split; apply Z.mul_le_mono_nonneg; lia. }
  destruct (int_truediv_between (pps * area) 100000
              (plo * alo / 100000) (phi * ahi / 100000 + 1))
    as (total & Etotal & Htotalb).
  { lia. }
  { lia. }
  { apply Z.div_pos; lia. }
  { pose proof (Z.mul_div_le (plo * alo) 100000 ltac:(lia)).
    pose proof (Z.div_mod (phi * ahi) 100000 ltac:(lia)).
    pose proof (Z.mod_pos_bound (phi * ahi) 100000 ltac:(lia)). lia. }
  { pose proof (Z.div_le_upper_bound (phi * ahi) 100000 (phi * ahi) ltac:(lia)
                  ltac:(lia)). lia. }
  change (between (fst (total_bounds cd pd)) (snd (total_bounds cd pd)) total)
    in Htotalb.
  (* the integer attributes *)
  destruct (randint_ok R 0 25 (set_py_random R w s4) ltac:(lia))
    as (age & s5 & E5 & Hage).
  rewrite set_py_random_twice in E5.
  destruct (randint_ok R 1 20 (set_py_random R w s5) ltac:(lia))
    as (fl & s6 & E6 & Hfl).
  rewrite set_py_random_twice in E6.
  destruct (randint_ok R fl 25 (set_py_random R w s6) ltac:(lia))
    as (tf & s7 & E7 & Htf).
  rewrite set_py_random_twice in E7.
  destruct (randint_ok R 1 10 (set_py_random R w s7) ltac:(lia))
    as (ls & s8 & E8 & Hls).
  rewrite set_py_random_twice in E8.
  (* location bonus and age penalty *)
  destruct (location_bonus_between ls Hls) as (bonus & Ebonus & Hbonus).
  pose proof Ebonus as Ebonus'. unfold location_bonus_of in Ebonus'.
  apply rbind_Ok_inv in Ebonus'. destruct Ebonus' as (bpart & Ebp & Ebo).
  destruct (age_penalty_between age Hage) as (penalty & Epenalty & Hpenalty).
  pose proof Epenalty as Epenalty'. unfold age_penalty_of in Epenalty'.
  apply rbind_Ok_inv in Epenalty'. destruct Epenalty' as (apart & Eap & Eao).
  (* final price *)
  pose proof (fmul_between _ _ _ _ Htotal bonus_bounds_ok Htotalb Hbonus) as Htb'.
  pose proof (fmul_between _ _ _ _ Htb penalty_bounds_ok Htb' Hpenalty) as Hfin.
  fold (final_bounds cd pd) in Hfin.
  destruct (fi_ok_true _ Hfinal) as (Hflo & Hfhi & _).
  assert (Hprice :
    between (fst (price_bounds cd pd)) (snd (price_bounds cd pd))
      (py_round2 (fmul (fmul total bonus) penalty))).
  { apply (py_round2_between _ _ _ Hflo Hfhi Hfin); [exact Hlakh | ].
    exact Hcents. }
  (* listing date *)
  destruct (randint_ok R 1 730 (set_py_random R w s8) ltac:(lia))
    as (days & s9 & E9 & Hdays).
  rewrite set_py_random_twice in E9.
  eexists _, s9, cd, pd. split.
  { unfold one_property.
    rewrite (bind_Ok R _ _ _ _ _ E1), (bind_Ok R _ _ _ _ _ E2).
    rewrite (bind_Ok R _ _ _ _ _ (lift_Ok R _ _ _ Egc)).
    rewrite (bind_Ok R _ _ _ _ _ (lift_Ok R _ _ _ Egt)).
    rewrite (bind_Ok R _ _ _ _ _ E3).
    assert (Escaled : int_mul_float base_area (avg_area_multiplier cd)
                      = Ok (fmul fa (avg_area_multiplier cd))).
    { unfold int_mul_float. rewrite Efa. reflexivity. }
    rewrite (bind_Ok R _ _ _ _ _ (lift_Ok R _ _ _ Escaled)).
    rewrite (bind_Ok R _ _ _ _ _ (lift_Ok R _ _ _ Earea)).
    rewrite (bind_Ok R _ _ _ _ _ (lift_Ok R _ _ _ Elo)).
    rewrite (bind_Ok R _ _ _ _ _ (lift_Ok R _ _ _ Ehi)).
    rewrite (bind_Ok R _ _ _ _ _ E4).
    assert (Evaried : int_mul_float (base_price_per_sqft cd) pv
                      = Ok (fmul basef pv)).
    { unfold int_mul_float. rewrite Ebase. reflexivity. }
    rewrite (bind_Ok R _ _ _ _ _ (lift_Ok R _ _ _ Evaried)).
    rewrite (bind_Ok R _ _ _ _ _ (lift_Ok R _ _ _ Epps)).
    rewrite (bind_Ok R _ _ _ _ _ (lift_Ok R _ _ _ Etotal)).
    rewrite (bind_Ok R _ _ _ _ _ E5), (bind_Ok R _ _ _ _ _ E6).
    rewrite (bind_Ok R _ _ _ _ _ E7), (bind_Ok R _ _ _ _ _ E8).
    rewrite (bind_Ok R _ _ _ _ _ (lift_Ok R _ _ _ Ebp)).
    rewrite (bind_Ok R _ _ _ _ _ (lift_Ok R _ _ _ Ebo)).
    rewrite (bind_Ok R _ _ _ _ _ (lift_Ok R _ _ _ Eap)).
    rewrite (bind_Ok R _ _ _ _ _ (lift_Ok R _ _ _ Eao)).
    rewrite (bind_Ok R _ _ _ _ _ E9).
    rewrite (bind_Ok R _ _ _ _ _ (datetime_now_ok R _)).
    reflexivity. }
  cbn [city property_type].
  split; [exact Egc | ]. split; [exact Egt | ].
  constructor; cbn [area_sqft price_per_sqft property_age_years floor_number
                    total_floors location_score price_lakhs listing_date
                    month_listed]; try assumption; try lia.
  - unfold spec_total_price. rewrite Etotal. cbn [rbind].
    rewrite Ebonus. cbn [rbind]. rewrite Epenalty. reflexivity.
  - nia.
  - nia.
  - apply (between_positive _ _ _ Hprice).
    cbn [price_bounds price_int_bounds fst].
    apply F_pos. split; [exact Hlakh | ].
    destruct Hfin as (_ & Hf1 & Hf2).
    assert (trunc (fst (final_bounds cd pd)) <= trunc (snd (final_bounds cd pd))).
    { rewrite !trunc_units by assumption.
      apply Z.div_le_mono; [unfold B; lia | lia]. }
    cbn [price_int_bounds snd] in Hcents. lia.
  - exists (clock_reads R w), days. split; [exact Hdays | reflexivity].
  - reflexivity.
Qed.

End Row.

Section Loop.

Variable R : RandomSource.

Lemma for_range_ok cities types :
  tables_ok cities types = true -> cities <> [] -> types <> [] ->
  forall k acc (w : World R),
  exists rows w',
    for_range R k cities types acc w = Ok (acc ++ rows, w')
    /\ List.length rows = k
    /\ Forall (row_ok cities types (clock R w)) rows
    /\ np_random R w' = np_random R w
    /\ clock R w' = clock R w
    /\ stdout R w' = stdout R w
    /\ clock_reads R w' = (clock_reads R w + k)%nat.
Proof.
  intros Hok Hc Ht. induction k as [ | k IH]; intros acc w.
  - exists [], w. cbn [for_range]. rewrite app_nil_r.
    repeat split; try reflexivity; [constructor | lia].
  - destruct (one_property_ok R cities types w Hok Hc Ht)
      as (row & s & cd & pd & Erow & Hgc & Hgt & Hfacts).
    destruct (IH (acc ++ [row]) (tick R (set_py_random R w s)))
      as (rows & w' & Erows & Hlen & Hall & Hnp & Hclk & Hout & Hreads).
    exists (row :: rows), w'. cbn [for_range].
    rewrite (bind_Ok R _ _ _ _ _ Erow), Erows, <- app_assoc.
    cbn [tick set_py_random np_random clock stdout clock_reads] in *.
    repeat split; try assumption.
    + cbn [List.length]. lia.
    + constructor; [ | exact Hall]. exists cd, pd. tauto.
    + lia.
Qed.

Lemma generate_from_ok cities types n (w : World R) :
  tables_ok cities types = true -> cities <> [] -> types <> [] ->
  exists df w',
    generate_from R cities types n w = Ok (df, w')
    /\ List.length df = Z.to_nat n
    /\ Forall (row_ok cities types (clock R w)) df
    /\ np_random R w' = np_random R w
    /\ clock R w' = clock R w
    /\ stdout R w' = stdout R w
    /\ clock_reads R w' = (clock_reads R w + Z.to_nat n)%nat.
Proof.
  intros Hok Hc Ht. unfold generate_from.
  destruct (for_range_ok cities types Hok Hc Ht (Z.to_nat n) [] w)
    as (rows & w' & H). exists rows, w'. exact H.
Qed.

Lemma generate_from_nonpositive cities types n (w : World R) :
  n <= 0 -> generate_from R cities types n w = Ok ([], w).
Proof.
  intros Hn. unfold generate_from.
  replace (Z.to_nat n) with O by lia. reflexivity.
Qed.

End Loop.

Section Tables.

Lemma tables_checked : tables_ok cities_info property_types = true.
Proof. vm_compute. reflexivity. Qed.

Lemma cities_info_nonempty : cities_info <> [].
Proof. discriminate. Qed.

Lemma property_types_nonempty : property_types <> [].
Proof. discriminate. Qed.

Lemma create_ok (R : RandomSource) n (w : World R) :
  exists df w',
    create_realistic_property_data R n w = Ok (df, w')
    /\ List.length df = Z.to_nat n
    /\ Forall (row_ok cities_info property_types (clock R w)) df
    /\ np_random R w' = np_random R w
    /\ clock R w' = clock R w
    /\ stdout R w' = stdout R w
    /\ clock_reads R w' = (clock_reads R w + Z.to_nat n)%nat.
Proof.
  apply generate_from_ok;
    [exact tables_checked | exact cities_info_nonempty
     | exact property_types_nonempty].
Qed.

(** Every row has the property [P] when [P] follows from the facts of
    the analysis. *)
Lemma every_row (R : RandomSource) (P : Property -> Prop) n (w : World R) :
  (forall clk row, row_ok cities_info property_types clk row -> P row) ->
  exists df w',
    create_realistic_property_data R n w = Ok (df, w') /\ Forall P df.
Proof.
  intros HP. destruct (create_ok R n w) as (df & w' & E & _ & Hall & _).
  exists df, w'. split; [exact E | ].
  eapply Forall_impl; [ | exact Hall]. intros row. apply HP.
Qed.

End Tables.

(** ** Two runs side by side *)

Section TwoRuns.

Variable R : RandomSource.

Lemma bind_inv {A C : Type} (c : M R A) (k : A -> M R C) w b w' :
  bind c k w = Ok (b, w') ->
  exists a w1, c w = Ok (a, w1) /\ k a w1 = Ok (b, w').
Proof.
  unfold bind. destruct (c w) as [e | [a w1]]; intros H; [discriminate | ].
  exists a, w1. split; [reflexivity | exact H].
Qed.

Lemma in_step_lift {A : Type} (r : Result A) : in_step (fun _ => True) (lift R r).
Proof.
  intros w1 w2 a1 a2 u1 u2 H E1 E2. unfold lift in *.
  destruct r as [e | x]; [discriminate | ].
  injection E1 as <- <-. injection E2 as <- <-. repeat split. exact H.
Qed.

Lemma in_step_randbelow n :
  in_step (fun v => 0 < n -> 0 <= v < n) (randbelow R n).
Proof.
  intros w1 w2 a1 a2 u1 u2 H E1 E2. unfold randbelow in *. rewrite <- H in E2.
  pose proof (rng_randbelow_range R n (py_random R w1)) as Hr.
  destruct (rng_randbelow R n (py_random R w1)) as [v s].
  injection E1 as <- <-. injection E2 as <- <-. repeat split; apply Hr; assumption.
Qed.

Lemma in_step_randint a b : in_step (fun v => a <= v <= b) (randint R a b).
Proof.
  intros w1 w2 a1 a2 u1 u2 H E1 E2. unfold randint in *.
  destruct (Z.ltb_spec 0 (b + 1 - a)) as [Hw | Hw]; [ | discriminate].
  apply bind_inv in E1. destruct E1 as (i1 & v1 & S1 & E1).
  apply bind_inv in E2. destruct E2 as (i2 & v2 & S2 & E2).
  destruct (in_step_randbelow _ _ _ _ _ _ _ H S1 S2)
    as (<- & Hi & Hs & F1 & F2 & F3 & F4).
  injection E1 as <- <-. injection E2 as <- <-. specialize (Hi Hw).
  repeat split; try assumption; lia.
Qed.

Lemma in_step_choice {A : Type} (seq : list A) :
  in_step (fun x => In x seq) (choice R seq).
Proof.
  intros w1 w2 a1 a2 u1 u2 H E1 E2. unfold choice in *.
  destruct seq as [ | a l]; [discriminate | ].
  apply bind_inv in E1. destruct E1 as (i1 & v1 & S1 & E1).
  apply bind_inv in E2. destruct E2 as (i2 & v2 & S2 & E2).
  destruct (in_step_randbelow _ _ _ _ _ _ _ H S1 S2)
    as (<- & _ & Hs & F1 & F2 & F3 & F4).
  destruct (nth_error (a :: l) (Z.to_nat i1)) as [y | ] eqn:Hy; [ | discriminate].
  injection E1 as <- <-. injection E2 as <- <-.
  repeat split; try assumption. eapply nth_error_In. exact Hy.
Qed.

Lemma in_step_uniform lo hi : in_step (fun _ => True) (uniform R lo hi).
Proof.
  intros w1 w2 a1 a2 u1 u2 H E1 E2. unfold uniform in *.
  apply bind_inv in E1. destruct E1 as (r1 & v1 & S1 & E1).
  apply bind_inv in E2. destruct E2 as (r2 & v2 & S2 & E2).
  unfold random in S1, S2. rewrite <- H in S2.
  destruct (rng_bits53 R (py_random R w1)) as [k s].
  injection S1 as <- <-. injection S2 as <- <-.
  injection E1 as <- <-. injection E2 as <- <-. repeat split.
Qed.

Lemma twins_row_bind {A : Type} (Q : A -> Prop) (c : M R A)
    (k : A -> M R Property) :
  in_step Q c -> (forall a, Q a -> twins_row (k a)) -> twins_row (bind c k).
Proof.
  intros Hc Hk w1 w2 row1 row2 u1 u2 H E1 E2.
  apply bind_inv in E1. destruct E1 as (a1 & v1 & S1 & E1).
  apply bind_inv in E2. destruct E2 as (a2 & v2 & S2 & E2).
  destruct (Hc _ _ _ _ _ _ H S1 S2) as (<- & Ha & Hs & F1 & F2 & F3 & F4).
  destruct (Hk a1 Ha _ _ _ _ _ _ Hs E1 E2) as (Ht & Hs' & G1 & G2 & G3 & G4).
  rewrite F1, F2, F3, F4 in *. split; [exact Ht | ]. repeat split; assumption.
Qed.

(** The body of the loop gives twin rows. *)
Lemma one_property_twins cities types : twins_row (one_property R cities types).
Proof.
  unfold one_property.
  eapply twins_row_bind; [apply in_step_choice | ]; intros ? _.
  eapply twins_row_bind; [apply in_step_choice | ]; intros ? _.
  eapply twins_row_bind; [apply in_step_lift | ]; intros ? _.
  eapply twins_row_bind; [apply in_step_lift | ]; intros ? _.
  eapply twins_row_bind; [apply in_step_randint | ]; intros ? _.
  eapply twins_row_bind; [apply in_step_lift | ]; intros ? _.
  eapply twins_row_bind; [apply in_step_lift | ]; intros ? _.
  eapply twins_row_bind; [apply in_step_lift | ]; intros ? _.
  eapply twins_row_bind; [apply in_step_lift | ]; intros ? _.
  eapply twins_row_bind; [apply in_step_uniform | ]; intros ? _.
  eapply twins_row_bind; [apply in_step_lift | ]; intros ? _.
  eapply twins_row_bind; [apply in_step_lift | ]; intros ? _.
  eapply twins_row_bind; [apply in_step_lift | ]; intros ? _.
  eapply twins_row_bind; [apply in_step_randint | ]; intros ? _.
  eapply twins_row_bind; [apply in_step_randint | ]; intros ? _.
  eapply twins_row_bind; [apply in_step_randint | ]; intros ? _.
  eapply twins_row_bind; [apply in_step_randint | ]; intros ? _.
  eapply twins_row_bind; [apply in_step_lift | ]; intros ? _.
  eapply twins_row_bind; [apply in_step_lift | ]; intros ? _.
  eapply twins_row_bind; [apply in_step_lift | ]; intros ? _.
  eapply twins_row_bind; [apply in_step_lift | ]; intros ? _.
  eapply twins_row_bind; [apply in_step_randint | ]; intros days_ago Hdays.
  intros w1 w2 row1 row2 u1 u2 H E1 E2.
  apply bind_inv in E1. destruct E1 as (now1 & v1 & S1 & E1).
  apply bind_inv in E2. destruct E2 as (now2 & v2 & S2 & E2).
  unfold datetime_now in S1, S2.
  injection S1 as <- <-. injection S2 as <- <-.
  injection E1 as <- <-. injection E2 as <- <-.
  split; [ | repeat split; exact H].
  split; [reflexivity | ].
  exists days_ago. repeat split; apply Hdays.
Qed.

(** Two runs of the loop from the same state of [random]: row [i] of the
    one and row [i] of the other are twins at the [i]-th readings. *)
Lemma for_range_twins cities types k :
  forall acc1 acc2 (w1 w2 : World R) out1 out2 u1 u2,
    py_random R w1 = py_random R w2 ->
    for_range R k cities types acc1 w1 = Ok (out1, u1) ->
    for_range R k cities types acc2 w2 = Ok (out2, u2) ->
    exists rows1 rows2,
      out1 = (acc1 ++ rows1)%list /\ out2 = (acc2 ++ rows2)%list
      /\ List.length rows1 = k /\ List.length rows2 = k
      /\ py_random R u1 = py_random R u2
      /\ forall i row1 row2,
           nth_error rows1 i = Some row1 -> nth_error rows2 i = Some row2 ->
           twin_rows (clock R w1 (clock_reads R w1 + i)%nat)
             (clock R w2 (clock_reads R w2 + i)%nat) row1 row2.
Proof.
  induction k as [ | k IH]; intros acc1 acc2 w1 w2 out1 out2 u1 u2 H E1 E2;
    cbn [for_range] in E1, E2.
  - injection E1 as <- <-. injection E2 as <- <-. exists [], [].
    rewrite !app_nil_r.
    split; [reflexivity | ]. split; [reflexivity | ].
    split; [reflexivity | ]. split; [reflexivity | ]. split; [exact H | ].
    intros [ | i] row1 row2 E; discriminate.
  - apply bind_inv in E1. destruct E1 as (r1 & v1 & S1 & E1).
    apply bind_inv in E2. destruct E2 as (r2 & v2 & S2 & E2).
    destruct (one_property_twins cities types _ _ _ _ _ _ H S1 S2)
      as (Ht & Hs & G1 & G2 & G3 & G4).
    destruct (IH _ _ _ _ _ _ _ _ Hs E1 E2)
      as (rows1 & rows2 & -> & -> & L1 & L2 & Hs' & Hrows).
    exists (r1 :: rows1), (r2 :: rows2). rewrite <- !app_assoc.
    split; [reflexivity | ]. split; [reflexivity | ].
    split; [cbn [List.length]; lia | ]. split; [cbn [List.length]; lia | ].
    split; [exact Hs' | ].
    intros [ | i] row1 row2 N1 N2; cbn [nth_error] in N1, N2.
    + injection N1 as <-. injection N2 as <-. rewrite !Nat.add_0_r. exact Ht.
    + specialize (Hrows i row1 row2 N1 N2).
      rewrite G1, G2, G3, G4 in Hrows.
      rewrite <- !Nat.add_succ_comm. exact Hrows.
Qed.

Lemma row_ext (row1 row2 : Property) :
  without_dates row1 = without_dates row2 ->
  listing_date row1 = listing_date row2 ->
  month_listed row1 = month_listed row2 ->
  row1 = row2.
Proof.
  destruct row1, row2. unfold without_dates. cbn. intros H -> ->.
  injection H as -> -> -> -> -> -> -> -> ->. reflexivity.
Qed.

Lemma twin_rows_equal t1 t2 row1 row2 :
  twin_rows t1 t2 row1 row2 -> (row1 = row2 <-> t1 = t2).
Proof.
  intros (Hw & d & _ & L1 & L2 & M1 & M2). split.
  - intros <-. rewrite L1 in L2. unfold sub_days in L2. lia.
  - intros <-. apply row_ext; [exact Hw | congruence | ].
    rewrite M1, M2, L1, L2. reflexivity.
Qed.

(** Two calls of the generator from the same state of [random]. *)
Lemma create_twins n (w1 w2 : World R) :
  py_random R w1 = py_random R w2 ->
  exists df1 u1 df2 u2,
    create_realistic_property_data R n w1 = Ok (df1, u1)
    /\ create_realistic_property_data R n w2 = Ok (df2, u2)
    /\ List.length df1 = Z.to_nat n /\ List.length df2 = Z.to_nat n
    /\ (forall i row1 row2,
          nth_error df1 i = Some row1 -> nth_error df2 i = Some row2 ->
          twin_rows (clock R w1 (clock_reads R w1 + i)%nat)
            (clock R w2 (clock_reads R w2 + i)%nat) row1 row2)
    /\ map without_dates df1 = map without_dates df2
    /\ py_random R u1 = py_random R u2
    /\ (df1 = df2 <->
        forall i, (i < Z.to_nat n)%nat ->
          clock R w1 (clock_reads R w1 + i)%nat
          = clock R w2 (clock_reads R w2 + i)%nat).
Proof.
  intros H.
  destruct (create_ok R n w1) as (df1 & u1 & E1 & _).
  destruct (create_ok R n w2) as (df2 & u2 & E2 & _).
  exists df1, u1, df2, u2. split; [exact E1 | ]. split; [exact E2 | ].
  unfold create_realistic_property_data, generate_from in E1, E2.
  destruct (for_range_twins _ _ _ _ _ _ _ _ _ _ _ H E1 E2)
    as (rows1 & rows2 & -> & -> & L1 & L2 & Hs & Hrows).
  cbn [app]. split; [exact L1 | ]. split; [exact L2 | ].
  split; [exact Hrows | ].
  assert (Hnth : forall i, (i < Z.to_nat n)%nat ->
            exists row1 row2,
              nth_error rows1 i = Some row1 /\ nth_error rows2 i = Some row2).
  { intros i Hi.
    destruct (nth_error rows1 i) as [row1 | ] eqn:N1;
      [ | apply nth_error_None in N1; lia].
    destruct (nth_error rows2 i) as [row2 | ] eqn:N2;
      [ | apply nth_error_None in N2; lia].
    exists row1, row2. split; reflexivity. }
  split; [ | split; [exact Hs | ]].
  - apply nth_error_ext. intros i. rewrite !nth_error_map.
    destruct (Nat.lt_ge_cases i (Z.to_nat n)) as [Hi | Hi].
    + destruct (Hnth i Hi) as (row1 & row2 & N1 & N2). rewrite N1, N2.
      cbn [option_map]. f_equal. apply (Hrows i row1 row2 N1 N2).
    + rewrite (proj2 (nth_error_None rows1 i)), (proj2 (nth_error_None rows2 i))
        by lia. reflexivity.
  - split.
    + intros Heq i Hi. destruct (Hnth i Hi) as (row1 & row2 & N1 & N2).
      apply (twin_rows_equal _ _ _ _ (Hrows i row1 row2 N1 N2)).
      rewrite Heq in N1. congruence.
    + intros Hclk. apply nth_error_ext. intros i.
      destruct (Nat.lt_ge_cases i (Z.to_nat n)) as [Hi | Hi].
      * destruct (Hnth i Hi) as (row1 & row2 & N1 & N2). rewrite N1, N2.
        f_equal. apply (twin_rows_equal _ _ _ _ (Hrows i row1 row2 N1 N2)).
        apply Hclk. exact Hi.
      * rewrite (proj2 (nth_error_None rows1 i)), (proj2 (nth_error_None rows2 i))
          by lia. reflexivity.
Qed.

End TwoRuns.

Open Scope string_scope.

(** ** Runs of the model *)

Example literal_0_4 : literal 4 10 = S754_finite false 7205759403792794 (-54).
Proof. vm_compute. reflexivity. Qed.

Example base_price_times_low_end :
  rbind (int_sub_float 1 f0_4) (fun lo => rbind (int_mul_float 15000 lo) py_int)
  = Ok 9000.
Proof. vm_compute. reflexivity. Qed.

Example round_ties_to_even :
  py_round2 (literal 125 1000) = literal 12 100
  /\ py_round2 (literal 375 1000) = literal 38 100
  /\ py_round2 (literal 2675 1000) = literal 267 100.
Proof. vm_compute. repeat split. Qed.

Example strftime_november : strftime_Ym (Z.of_N t_nov) = "2026-11".
Proof. vm_compute. reflexivity. Qed.

Example strftime_leap_day : strftime_Ym (19782 * us_per_day) = "2024-02".
Proof. vm_compute. reflexivity. Qed.

Example first_row :
  match seeded_run lcg64 42 1 (world_at t_nov) with
  | inr ([row], _) =>
      (city row, property_type row, area_sqft row, price_per_sqft row,
       month_listed row) = ("Mumbai", "3BHK", 1053, 13954, "2026-10")
  | _ => False
  end.
Proof. vm_compute. reflexivity. Qed.

(** ** The claims *)

Section Claims.

Variable R : RandomSource.

(** C4. For every positive count [n] the generator returns a table of
    exactly [n] rows. *)
Theorem generator_returns_count_rows n (w : World R) :
  0 < n ->
  exists df w',
    create_realistic_property_data R n w = Ok (df, w')
    /\ Z.of_nat (List.length df) = n.
Proof.
  intros Hn. destruct (create_ok R n w) as (df & w' & E & Hlen & _).
  exists df, w'. split; [exact E | lia].
Qed.

(** C5. Every row of the generated table has
    [total_floors >= floor_number]. *)
Theorem total_floors_at_least_floor_number n (w : World R) :
  exists df w',
    create_realistic_property_data R n w = Ok (df, w')
    /\ Forall (fun row => floor_number row <= total_floors row) df.
Proof.
  apply every_row. intros clk row (cd & pd & _ & _ & H).
  apply (rf_total_floors _ _ _ _ H).
Qed.

(** C6. Every row of the generated table has a location score between 1
    and 10, an age between 0 and 25, a floor number between 1 and 20,
    and a number of floors between the floor number and 25. *)
Theorem attribute_bounds n (w : World R) :
  exists df w',
    create_realistic_property_data R n w = Ok (df, w')
    /\ Forall (fun row =>
         1 <= location_score row <= 10
         /\ 0 <= property_age_years row <= 25
         /\ 1 <= floor_number row <= 20
         /\ floor_number row <= total_floors row <= 25) df.
Proof.
  apply every_row. intros clk row (cd & pd & _ & _ & H).
  pose proof (rf_location _ _ _ _ H). pose proof (rf_age _ _ _ _ H).
  pose proof (rf_floor _ _ _ _ H). pose proof (rf_total_floors _ _ _ _ H).
  tauto.
Qed.

(** C3. In every row the stored price is the value recomputed from the
    stored price per square foot, area, location score and age:
    [round((pps * area) / 100000 * (1 + (score - 5) * 0.02)
           * (1 - age * 0.01), 2)]; it is a function of those four
    fields alone. *)
Theorem price_is_recomputed_from_stored_fields n (w : World R) :
  exists df w',
    create_realistic_property_data R n w = Ok (df, w')
    /\ Forall (fun row =>
         spec_total_price (price_per_sqft row) (area_sqft row)
           (location_score row) (property_age_years row)
         = Ok (price_lakhs row)) df.
Proof.
  apply every_row. intros clk row (cd & pd & _ & _ & H).
  apply (rf_price _ _ _ _ H).
Qed.

(** C7. The table gives Mumbai the base price 15000, the variation 0.4
    and the area multiplier 0.8, and 2BHK the areas 600 to 900; every
    Mumbai 2BHK row has an area between 480 and 720 and a price per
    square foot between 9000 and 21000. *)
Theorem mumbai_2bhk_ranges n (w : World R) :
  getitem cities_info "Mumbai"
  = Ok {| base_price_per_sqft := 15000; price_variation := literal 4 10;
          avg_area_multiplier := literal 8 10 |}
  /\ getitem property_types "2BHK" = Ok {| min_area := 600; max_area := 900 |}
  /\ exists df w',
       create_realistic_property_data R n w = Ok (df, w')
       /\ Forall (fun row =>
            city row = "Mumbai" -> property_type row = "2BHK" ->
            480 <= area_sqft row <= 720
            /\ 9000 <= price_per_sqft row <= 21000) df.
Proof.
  split; [vm_compute; reflexivity | ]. split; [reflexivity | ].
  apply every_row. intros clk row (cd & pd & Hc & Ht & H) Ecity Etype.
  rewrite Ecity in Hc. rewrite Etype in Ht.
  vm_compute in Hc, Ht. injection Hc as <-. injection Ht as <-.
  pose proof (rf_area _ _ _ _ H) as Ha. pose proof (rf_pps _ _ _ _ H) as Hp.
  match type of Ha with
  | fst (area_bounds ?c ?t) <= _ <= _ =>
      replace (area_bounds c t) with (480, 720) in Ha
        by (vm_compute; reflexivity);
      replace (pps_bounds c) with (9000, 21000) in Hp
        by (vm_compute; reflexivity)
  end.
  cbn [fst snd] in Ha, Hp. split; assumption.
Qed.

(** C10. In every row the stored price is strictly positive; the area
    and the price per square foot are positive, the location bonus is at
    least 0.92 and the age penalty at least 0.75. *)
Theorem price_is_positive n (w : World R) :
  exists df w',
    create_realistic_property_data R n w = Ok (df, w')
    /\ Forall (fun row =>
         fltb (S754_zero false) (price_lakhs row) = true
         /\ 0 < area_sqft row
         /\ 0 < price_per_sqft row
         /\ exists bonus penalty,
              location_bonus_of (location_score row) = Ok bonus
              /\ age_penalty_of (property_age_years row) = Ok penalty
              /\ fle (literal 92 100) bonus
              /\ fle (literal 75 100) penalty) df.
Proof.
  apply every_row. intros clk row (cd & pd & _ & _ & H).
  split; [apply (rf_price_pos _ _ _ _ H) | ].
  split; [apply (rf_area_pos _ _ _ _ H) | ].
  split; [apply (rf_pps_pos _ _ _ _ H) | ].
  destruct (location_bonus_between _ (rf_location _ _ _ _ H))
    as (bonus & Eb & _ & Hb & _).
  destruct (age_penalty_between _ (rf_age _ _ _ _ H))
    as (penalty & Ep & _ & Hp & _).
  exists bonus, penalty. repeat split; assumption.
Qed.

(** C2, as the code has it. With a count of zero or less the generator
    raises nothing: it returns the empty table and leaves the world,
    the random state included, as it was. *)
Theorem nonpositive_count_gives_empty_table n (w : World R) :
  n <= 0 -> create_realistic_property_data R n w = Ok ([], w).
Proof. apply generate_from_nonpositive. Qed.


(** C9, as the code has it. The generator prints nothing and leaves
    NumPy's generator and the clock itself untouched; it reads the clock
    once per row, and the only other state it changes is that of the
    [random] module. With a count of zero or less nothing changes. *)
Theorem generator_frame n (w : World R) :
  exists df w',
    create_realistic_property_data R n w = Ok (df, w')
    /\ stdout R w' = stdout R w
    /\ np_random R w' = np_random R w
    /\ clock R w' = clock R w
    /\ clock_reads R w' = (clock_reads R w + Z.to_nat n)%nat
    /\ (n <= 0 -> w' = w).
Proof.
  destruct (create_ok R n w) as (df & w' & E & _ & _ & Hnp & Hclk & Hout & Hr).
  exists df, w'. repeat split; try assumption.
  intros Hn. unfold create_realistic_property_data in E.
  rewrite (generate_from_nonpositive R _ _ n w Hn) in E.
  injection E as _ <-. reflexivity.
Qed.

Lemma seeded_run_eq seed n (w : World R) :
  0 <= seed <= 4294967295 ->
  seeded_run R seed n w
  = create_realistic_property_data R n
      (set_py_random R (set_np_random R w (Some seed)) (rng_seed R seed)).
Proof.
  intros [Hlo Hhi]. unfold seeded_run, seed_all, np_random_seed, bind.
  apply Z.leb_le in Hlo. apply Z.leb_le in Hhi. rewrite Hlo, Hhi.
  reflexivity.
Qed.

(** A seed that [np.random.seed] refuses stops the run at line 15. *)
Lemma seeded_run_refused seed n (w : World R) :
  seed < 0 \/ 4294967295 < seed ->
  seeded_run R seed n w = Raise ValueError.
Proof.
  intros H. unfold seeded_run, seed_all, np_random_seed, bind.
  destruct H as [H | H].
  - apply Z.leb_gt in H. rewrite H. reflexivity.
  - apply Z.leb_gt in H. rewrite H, andb_false_r. reflexivity.
Qed.

(** C1, as the code has it. Two runs with the same count and the same
    seed, one that [np.random.seed] accepts, whatever the worlds they
    start in: both return a table of [count] rows; row [i] of the one
    and row [i] of the other agree on every field but [listing_date] and
    [month_listed]; the [listing_date] of each is the [i]-th reading its
    run takes of the clock, less the same number of days, drawn between 1
    and 730, and [month_listed] its year and month; the runs leave the
    [random] module in the same state. So the tables are equal when, and
    only when, the clock gives both runs the same [count] readings. *)
Theorem same_seed_same_rows_but_dates seed n (w1 w2 : World R) :
  0 <= seed <= 4294967295 ->
  exists df1 w1' df2 w2',
    seeded_run R seed n w1 = Ok (df1, w1')
    /\ seeded_run R seed n w2 = Ok (df2, w2')
    /\ List.length df1 = Z.to_nat n /\ List.length df2 = Z.to_nat n
    /\ (forall i row1 row2,
          nth_error df1 i = Some row1 -> nth_error df2 i = Some row2 ->
          twin_rows (clock R w1 (clock_reads R w1 + i)%nat)
            (clock R w2 (clock_reads R w2 + i)%nat) row1 row2)
    /\ map without_dates df1 = map without_dates df2
    /\ py_random R w1' = py_random R w2'
    /\ (df1 = df2 <->
        forall i, (i < Z.to_nat n)%nat ->
          clock R w1 (clock_reads R w1 + i)%nat
          = clock R w2 (clock_reads R w2 + i)%nat).
Proof.
  intros Hseed. rewrite !seeded_run_eq by exact Hseed.
  exact (create_twins R n
           (set_py_random R (set_np_random R w1 (Some seed)) (rng_seed R seed))
           (set_py_random R (set_np_random R w2 (Some seed)) (rng_seed R seed))
           eq_refl).
Qed.

End Claims.

(** ** Witnesses and counterexamples on the concrete source *)

Lemma generator_returns_count_rows_witness :
  0 < 3
  /\ exists df w',
       create_realistic_property_data lcg64 3 (world_at t_nov) = Ok (df, w')
       /\ Z.of_nat (List.length df) = 3.
Proof.
  split; [lia | ].
  apply (generator_returns_count_rows lcg64 3 (world_at t_nov)). lia.
Defined.

(** C2 fails as stated: counts 0 and -5 return the empty table, nothing is
    raised. *)
Lemma nonpositive_count_raises_nothing :
  create_realistic_property_data lcg64 0 (world_at t_nov)
  = Ok ([], world_at t_nov)
  /\ create_realistic_property_data lcg64 (-5) (world_at t_nov)
     = Ok ([], world_at t_nov)
  /\ create_realistic_property_data lcg64 0 (world_at t_nov)
     <> Raise InvalidArgumentError
  /\ create_realistic_property_data lcg64 (-5) (world_at t_nov)
     <> Raise InvalidArgumentError.
Proof.
  unfold create_realistic_property_data.
  rewrite !generate_from_nonpositive by lia.
  repeat split; discriminate.
Qed.

Lemma nonpositive_count_gives_empty_table_witness :
  -5 <= 0
  /\ create_realistic_property_data lcg64 (-5) (world_at t_nov)
     = Ok ([], world_at t_nov).
Proof.
  split; [lia | ].
  apply (nonpositive_count_gives_empty_table lcg64 (-5) (world_at t_nov)). lia.
Defined.


(** C9 fails as stated: one row later the [random] module is in another
    state and the clock has been read. *)
Lemma generator_changes_random_state :
  match create_realistic_property_data lcg64 1 (world_at t_nov) with
  | inr (_, w') =>
      py_random lcg64 w' <> py_random lcg64 (world_at t_nov)
      /\ clock_reads lcg64 w' = S (clock_reads lcg64 (world_at t_nov))
  | inl _ => False
  end.
Proof. vm_compute. split; [discriminate | reflexivity]. Qed.

(** C1 fails as stated: two runs with the seed 42 and the count 1, forty
    days apart, differ in [listing_date] and [month_listed]; whatever
    the random source, the two dates lie forty days apart. And the seed
    -1 gives no table: the seeding raises ValueError. *)
Lemma same_seed_different_dates :
  match seeded_run lcg64 42 1 (world_at t_nov),
        seeded_run lcg64 42 1 (world_at t_dec) with
  | inr ([row1], _), inr ([row2], _) =>
      listing_date row1 <> listing_date row2
      /\ month_listed row1 = "2026-10"
      /\ month_listed row2 = "2026-11"
  | _, _ => False
  end
  /\ (forall R : RandomSource,
        exists row1 w1' row2 w2',
          seeded_run R 42 1 (world_from R t_nov) = Ok ([row1], w1')
          /\ seeded_run R 42 1 (world_from R t_dec) = Ok ([row2], w2')
          /\ listing_date row2 = (listing_date row1 + 40 * us_per_day)%Z)
  /\ seeded_run lcg64 (-1) 1 (world_at t_nov) = Raise ValueError.
Proof.
  split; [vm_compute; split; [discriminate | split; reflexivity] | ].
  split; [ | apply seeded_run_refused; lia].
  intros R.
  destruct (create_twins R 1
              (set_py_random R (set_np_random R (world_from R t_nov) (Some 42))
                 (rng_seed R 42))
              (set_py_random R (set_np_random R (world_from R t_dec) (Some 42))
                 (rng_seed R 42)) eq_refl)
    as (df1 & w1' & df2 & w2' & E1 & E2 & L1 & L2 & Hrows & _).
  destruct df1 as [ | row1 [ | ? ?]]; try discriminate L1.
  destruct df2 as [ | row2 [ | ? ?]]; try discriminate L2.
  exists row1, w1', row2, w2'.
  split; [rewrite seeded_run_eq by lia; exact E1 | ].
  split; [rewrite seeded_run_eq by lia; exact E2 | ].
  destruct (Hrows 0%nat row1 row2 eq_refl eq_refl)
    as (_ & days_ago & _ & D1 & D2 & _).
  rewrite D1, D2. unfold sub_days.
  cbn [set_py_random set_np_random world_from clock clock_reads Nat.add
       N.of_nat].
  rewrite !N.add_0_r.
  replace (Z.of_N t_dec) with (Z.of_N t_nov + 40 * us_per_day)%Z by reflexivity.
  lia.
Qed.

(** Two runs of three rows with the seed 42, forty days apart. *)
Lemma same_seed_same_rows_but_dates_witness :
  0 <= 42 <= 4294967295
  /\ exists df1 w1' df2 w2',
       seeded_run lcg64 42 3 (world_at t_nov) = Ok (df1, w1')
       /\ seeded_run lcg64 42 3 (world_at t_dec) = Ok (df2, w2')
       /\ List.length df1 = Z.to_nat 3 /\ List.length df2 = Z.to_nat 3
       /\ (forall i row1 row2,
             nth_error df1 i = Some row1 -> nth_error df2 i = Some row2 ->
             twin_rows
               (clock lcg64 (world_at t_nov)
                  (clock_reads lcg64 (world_at t_nov) + i)%nat)
               (clock lcg64 (world_at t_dec)
                  (clock_reads lcg64 (world_at t_dec) + i)%nat) row1 row2)
       /\ map without_dates df1 = map without_dates df2
       /\ py_random lcg64 w1' = py_random lcg64 w2'
       /\ (df1 = df2 <->
           forall i, (i < Z.to_nat 3)%nat ->
             clock lcg64 (world_at t_nov)
               (clock_reads lcg64 (world_at t_nov) + i)%nat
             = clock lcg64 (world_at t_dec)
                 (clock_reads lcg64 (world_at t_dec) + i)%nat).
Proof.
  split; [lia | ].
  apply (same_seed_same_rows_but_dates lcg64 42 3 (world_at t_nov)
           (world_at t_dec)). lia.
Defined.

Open Scope Z_scope.

(** * Canonical floats and their order *)

Section Canonical.

(** When low bits are shifted out, the rounded float is canonical. *)
Lemma round_aux_valid (m : positive) e :
  0 < Z.max (Z.log2 (Zpos m) + 1 + e - 53) (-1074) - e ->
  Z.max (Z.log2 (Zpos m) + 1 + e - 53) (-1074) < 971 ->
  valid_binary prec emax
    (binary_round_aux prec emax false (Zpos m) e loc_Exact) = true.
Proof.
  pose proof (Z.log2_nonneg (Zpos m)) as Hl0.
  pose proof (Z.log2_spec (Zpos m) ltac:(lia)) as [Hlo Hhi].
  set (l := Z.log2 (Zpos m)) in *.
  set (E := Z.max (l + 1 + e - 53) (-1074)).
  assert (HEdef : E = Z.max (l + 1 + e - 53) (-1074)) by reflexivity.
  intros Hn HE.
  unfold binary_round_aux, shr_fexp.
  rewrite Zdigits2_log2 by lia. fold l. rewrite fexp_eq. fold E.
  cbn [shr_record_of_loc].
  rewrite shr_pos by lia.
  rewrite round_shifted by lia. rewrite Z2Nat.id by lia.
  replace (e + (E - e)) with E by ring.
  set (m1 := div_half_even (Zpos m) (2 ^ (E - e))).
  assert (Hg : 0 < 2 ^ (E - e)) by (apply Z.pow_pos_nonneg; lia).
  pose proof (div_half_even_bounds (Zpos m) (2 ^ (E - e)) Hg) as Hb.
  fold m1 in Hb.
  assert (Hm1lo : 0 <= m1) by (apply div_half_even_nonneg; lia).
  assert (Hm1hi : m1 <= 2 ^ 53).
  { destruct (Z_le_gt_dec (E - e) (l + 1)) as [Hd | Hd].
    - assert (Zpos m / 2 ^ (E - e) < 2 ^ (l + 1 - (E - e))).
      { apply Z.div_lt_upper_bound; [lia | ].
        rewrite <- Z.pow_add_r by lia.
        replace (E - e + (l + 1 - (E - e))) with (Z.succ l) by ring. lia. }
      assert (2 ^ (l + 1 - (E - e)) <= 2 ^ 53)
        by (apply Z.pow_le_mono_r; lia).
      lia.
    - assert (Zpos m / 2 ^ (E - e) = 0).
      { apply Z.div_small. split; [lia | ].
        apply Z.lt_le_trans with (2 ^ Z.succ l); [lia | ].
        apply Z.pow_le_mono_r; lia. }
      assert (1 <= 2 ^ 53) by lia. lia. }
  assert (Hnormal : - 1074 < E -> 2 ^ 52 <= m1).
  { intros HEn. assert (HE' : E = l + 1 + e - 53) by lia.
    assert (2 ^ 52 <= Zpos m / 2 ^ (E - e)); [ | lia].
    apply Z.div_le_lower_bound; [lia | ].
    rewrite <- Z.pow_add_r by lia.
    replace (E - e + 52) with l by lia. lia. }
  cbn [shr_record_of_loc].
  destruct (Z.eq_dec m1 0) as [Hz | Hnz].
  - rewrite Hz. simpl Zdigits2. rewrite shr_nonpos by (rewrite fexp_eq; lia).
    reflexivity.
  - destruct (Z.eq_dec m1 (2 ^ 53)) as [Htop | Hlt].
    + rewrite Htop.
      replace (fexp prec emax (Zdigits2 (2 ^ 53) + E) - E) with 1
        by (rewrite fexp_eq; change (Zdigits2 (2 ^ 53)) with 54; lia).
      rewrite shr_top. cbn [shr_m].
      change (2 ^ 52) with (Zpos (2 ^ 52)). cbv iota beta.
      replace (E + 1 <=? emax - prec) with true
        by (symmetry; apply Z.leb_le; unfold emax, prec; lia).
      cbn [valid_binary]. unfold bounded, canonical_mantissa.
      rewrite fexp_eq.
      change (Zpos (digits2_pos (2 ^ 52))) with 53.
      apply andb_true_iff. split; [apply Z.eqb_eq; lia | ].
      apply Z.leb_le. unfold emax, prec. lia.
    + assert (Hdig : Zdigits2 m1 <= 53).
      { rewrite Zdigits2_log2 by lia.
        assert (Z.log2 m1 < 53) by (apply Z.log2_lt_pow2; lia). lia. }
      rewrite shr_nonpos by (rewrite fexp_eq; lia).
      cbn [shr_m]. destruct m1 as [ | p1 | p1 ] eqn:Hm1; try lia.
      replace (E <=? emax - prec) with true
        by (symmetry; apply Z.leb_le; unfold emax, prec; lia).
      cbn [valid_binary]. unfold bounded, canonical_mantissa.
      rewrite fexp_eq.
      change (Zpos (digits2_pos p1)) with (Zdigits2 (Zpos p1)).
      apply andb_true_iff. split; [ | apply Z.leb_le; unfold emax, prec; lia].
      apply Z.eqb_eq.
      destruct (Z.eq_dec E (-1074)) as [Hsub | Hnor]; [lia | ].
      assert (H52 : 2 ^ 52 <= Zpos p1) by (apply Hnormal; lia).
      rewrite Zdigits2_log2 in * by lia.
      assert (52 <= Z.log2 (Zpos p1)) by (apply Z.log2_le_pow2; lia).
      lia.
Qed.

Lemma log2_with_loc (q : positive) l :
  Z.log2 (4 * Zpos q + loc_code l) = Z.log2 (Zpos q) + 2.
Proof.
  pose proof (Zdigits2_key q l) as H. pose proof (loc_code_range l).
  rewrite !Zdigits2_log2 in H by lia. lia.
Qed.

(** The quotient of two ints below [2 ** 53] is a canonical float. *)
Lemma fdiv_int_valid (p D : positive) :
  Zpos p < 2 ^ 53 -> Zpos D < 2 ^ 53 ->
  valid_binary prec emax
    (fdiv (S754_finite false p 0) (S754_finite false D 0)) = true.
Proof.
  intros Hp HD.
  unfold fdiv, SFdiv. rewrite div_core by assumption. cbn [xorb].
  assert (Hl1' : Z.log2 (Zpos p) < 53) by (apply Z.log2_lt_pow2; lia).
  assert (Hl2' : Z.log2 (Zpos D) < 53) by (apply Z.log2_lt_pow2; lia).
  pose proof (Z.log2_nonneg (Zpos p)) as Hl1.
  pose proof (Z.log2_nonneg (Zpos D)) as Hl2.
  pose proof (Z.log2_spec (Zpos p) ltac:(lia)) as [Hplo Hphi].
  pose proof (Z.log2_spec (Zpos D) ltac:(lia)) as [HDlo HDhi].
  set (l1 := Z.log2 (Zpos p)) in *. set (l2 := Z.log2 (Zpos D)) in *.
  set (s := 53 + l2 - l1).
  assert (Hs : s = 53 + l2 - l1) by reflexivity.
  assert (H2s : 0 < 2 ^ s) by (apply Z.pow_pos_nonneg; lia).
  set (q := Zpos p * 2 ^ s / Zpos D) in *.
  set (r := (Zpos p * 2 ^ s) mod Zpos D) in *.
  assert (Hq52 : 2 ^ 52 <= q).
  { apply Z.div_le_lower_bound; [lia | ].
    apply Z.le_trans with (2 ^ Z.succ l2 * 2 ^ 52); [nia | ].
    apply Z.le_trans with (2 ^ l1 * 2 ^ s); [ | nia].
    rewrite <- !Z.pow_add_r by lia. apply Z.pow_le_mono_r; lia. }
  assert (Hq54 : q < 2 ^ 54).
  { apply Z.div_lt_upper_bound; [lia | ].
    apply Z.lt_le_trans with (2 ^ Z.succ l1 * 2 ^ s); [nia | ].
    apply Z.le_trans with (2 ^ l2 * 2 ^ 54); [ | nia].
    rewrite <- !Z.pow_add_r by lia. apply Z.pow_le_mono_r; lia. }
  assert (Hlq : 52 <= Z.log2 q) by (apply Z.log2_le_pow2; lia).
  assert (Hlq' : Z.log2 q < 54) by (apply Z.log2_lt_pow2; lia).
  destruct q as [ | qp | qp] eqn:Hqeq; try lia.
  rewrite round_aux_loc.
  2:{ rewrite Zdigits2_log2 by lia. rewrite fexp_eq. lia. }
  pose proof (loc_code_range (new_location (Zpos D) r)) as Hc.
  pose proof (log2_with_loc qp (new_location (Zpos D) r)) as Hlk.
  destruct (4 * Zpos qp + loc_code (new_location (Zpos D) r))
    as [ | kp | kp] eqn:Hk; try lia.
  apply round_aux_valid; lia.
Qed.

Lemma canonical_digits m e :
  valid_binary prec emax (S754_finite false m e) = true ->
  Zpos m < 2 ^ 53 /\ (- 1074 < e -> 2 ^ 52 <= Zpos m) /\ - 1074 <= e.
Proof.
  cbn [valid_binary]. unfold bounded, canonical_mantissa. intros H.
  apply andb_true_iff in H. destruct H as [H _]. apply Z.eqb_eq in H.
  rewrite fexp_eq in H.
  change (Zpos (digits2_pos m)) with (Zdigits2 (Zpos m)) in H.
  rewrite Zdigits2_log2 in H by lia.
  pose proof (Z.log2_spec (Zpos m) ltac:(lia)) as [Hlo Hhi].
  pose proof (Z.log2_nonneg (Zpos m)).
  split; [ | split; [ | lia]].
  - apply Z.lt_le_trans with (2 ^ Z.succ (Z.log2 (Zpos m))); [lia | ].
    apply Z.pow_le_mono_r; lia.
  - intros He. apply Z.le_trans with (2 ^ Z.log2 (Zpos m)); [ | lia].
    apply Z.pow_le_mono_r; lia.
Qed.

Lemma units_lt_exponent m1 e1 m2 e2 :
  Zpos m1 < 2 ^ 53 -> 2 ^ 52 <= Zpos m2 -> - 1074 <= e1 -> e1 < e2 ->
  Zpos m1 * 2 ^ (e1 + B) < Zpos m2 * 2 ^ (e2 + B).
Proof.
  intros H1 H2 He Hlt. unfold B.
  assert (Hp : 0 < 2 ^ (e1 + 1074)) by (apply Z.pow_pos_nonneg; lia).
  apply Z.lt_le_trans with (2 ^ 53 * 2 ^ (e1 + 1074)); [nia | ].
  apply Z.le_trans with (2 ^ 52 * 2 ^ (e2 + 1074)).
  - rewrite <- !Z.pow_add_r by lia. apply Z.pow_le_mono_r; lia.
  - apply Z.mul_le_mono_nonneg_r; [apply Z.pow_nonneg; lia | exact H2].
Qed.

(** On proper floats [<] is the order of the values. *)
Lemma fltb_units x y :
  proper x -> proper y -> fltb x y = (units x <? units y).
Proof.
  intros [Hx Vx] [Hy Vy].
  destruct x as [ [ | ] | | | [ | ] m1 e1 ]; try (exfalso; exact Hx);
    destruct y as [ [ | ] | | | [ | ] m2 e2 ]; try (exfalso; exact Hy);
    cbn [units nonneg_finite] in *; unfold fltb, SFltb; cbn [SFcompare].
  - reflexivity.
  - symmetry. apply Z.ltb_lt. unfold B in *.
    apply Z.mul_pos_pos; [lia | apply Z.pow_pos_nonneg; lia].
  - symmetry. apply Z.ltb_ge.
    apply Z.mul_nonneg_nonneg; [lia | apply Z.pow_nonneg; lia].
  - destruct (canonical_digits _ _ Vx) as (Hm1 & Hn1 & He1).
    destruct (canonical_digits _ _ Vy) as (Hm2 & Hn2 & He2).
    destruct (Z.compare_spec e1 e2) as [-> | Hlt | Hgt].
    + rewrite Pos.compare_cont_spec. cbn [Pos.switch_Eq].
      assert (Hp : 0 < 2 ^ (e2 + B)) by (apply Z.pow_pos_nonneg; unfold B; lia).
      change (Pos.compare m1 m2) with (Z.compare (Zpos m1) (Zpos m2)).
      destruct (Z.compare_spec (Zpos m1) (Zpos m2)) as [E | E | E];
        symmetry; [apply Z.ltb_ge | apply Z.ltb_lt | apply Z.ltb_ge]; nia.
    + symmetry. apply Z.ltb_lt.
      apply units_lt_exponent; try assumption; lia.
    + symmetry. apply Z.ltb_ge. apply Z.lt_le_incl.
      apply units_lt_exponent; try assumption; lia.
Qed.

End Canonical.

Section DivisionOrder.

(** The quotient of two ints between two dyadic fractions [K / 2**t] and
    [K' / 2**t]. *)
Lemma fdiv_int_dyadic (p D : positive) K K' t :
  Zpos p < 2 ^ 53 -> Zpos D < 2 ^ 53 -> 0 <= K ->
  0 <= t <= Z.log2 (Zpos D) + 1 ->
  K * Zpos D <= Zpos p * 2 ^ t <= K' * Zpos D ->
  K' * 2 ^ (B - t) < 2 ^ (B + 900) ->
  within (round_units B (K * 2 ^ (B - t))) (round_units B (K' * 2 ^ (B - t)))
    (fdiv (S754_finite false p 0) (S754_finite false D 0)).
Proof.
  intros Hp HD HK Ht [HKlo HKhi] Hov.
  unfold fdiv, SFdiv. rewrite div_core by assumption. cbn [xorb].
  assert (Hl1' : Z.log2 (Zpos p) < 53) by (apply Z.log2_lt_pow2; lia).
  assert (Hl2' : Z.log2 (Zpos D) < 53) by (apply Z.log2_lt_pow2; lia).
  pose proof (Z.log2_nonneg (Zpos p)) as Hl1.
  pose proof (Z.log2_nonneg (Zpos D)) as Hl2.
  pose proof (Z.log2_spec (Zpos p) ltac:(lia)) as [Hplo Hphi].
  pose proof (Z.log2_spec (Zpos D) ltac:(lia)) as [HDlo HDhi].
  set (l1 := Z.log2 (Zpos p)) in *. set (l2 := Z.log2 (Zpos D)) in *.
  set (s := 53 + l2 - l1).
  assert (Hs : s = 53 + l2 - l1) by reflexivity.
  assert (H2s : 0 < 2 ^ s) by (apply Z.pow_pos_nonneg; lia).
  assert (H2t : 0 < 2 ^ t) by (apply Z.pow_pos_nonneg; lia).
  assert (H2st : 0 < 2 ^ (s - t)) by (apply Z.pow_pos_nonneg; lia).
  assert (Hst : 2 ^ s = 2 ^ t * 2 ^ (s - t)).
  { rewrite <- Z.pow_add_r by lia. f_equal. ring. }
  pose proof (Z.div_mod (Zpos p * 2 ^ s) (Zpos D) ltac:(lia)) as Hdm.
  pose proof (Z.mod_pos_bound (Zpos p * 2 ^ s) (Zpos D) ltac:(lia)) as Hr.
  set (q := Zpos p * 2 ^ s / Zpos D) in *.
  set (r := (Zpos p * 2 ^ s) mod Zpos D) in *.
  assert (Hq52 : 2 ^ 52 <= q).
  { apply Z.div_le_lower_bound; [lia | ].
    apply Z.le_trans with (2 ^ Z.succ l2 * 2 ^ 52); [nia | ].
    apply Z.le_trans with (2 ^ l1 * 2 ^ s); [ | nia].
    rewrite <- !Z.pow_add_r by lia. apply Z.pow_le_mono_r; lia. }
  assert (Hlq : 52 <= Z.log2 q) by (apply Z.log2_le_pow2; lia).
  destruct q as [ | qp | qp] eqn:Hqeq; try lia.
  rewrite round_aux_loc.
  2:{ rewrite Zdigits2_log2 by lia. rewrite fexp_eq. lia. }
  pose proof (loc_code_range (new_location (Zpos D) r)) as Hc.
  set (c := loc_code (new_location (Zpos D) r)) in *.
  assert (Hc0 : r = 0 -> c = 0).
  { intros ->. unfold c. rewrite new_location_0. reflexivity. }
  destruct (4 * Zpos qp + c) as [ | kp | kp] eqn:Hk; try lia.
  assert (He2 : 0 <= - s - 2 + B) by (unfold B; lia).
  assert (H2e : 0 < 2 ^ (- s - 2 + B)) by (apply Z.pow_pos_nonneg; lia).
  assert (Hsplit : 2 ^ (B - t) = 4 * 2 ^ (s - t) * 2 ^ (- s - 2 + B)).
  { change 4 with (2 ^ 2). rewrite <- !Z.pow_add_r by lia. f_equal. ring. }
  assert (Hps : Zpos p * 2 ^ s = Zpos p * 2 ^ t * 2 ^ (s - t)).
  { rewrite Hst. ring. }
  assert (HXlo : K * 2 ^ (B - t) <= Zpos kp * 2 ^ (- s - 2 + B)).
  { rewrite Hsplit, <- Hk.
    assert (K * 2 ^ (s - t) <= Zpos qp).
    { apply Z.lt_succ_r. apply (Z.mul_lt_mono_pos_l (Zpos D)); [lia | ].
      apply Z.le_lt_trans with (Zpos p * 2 ^ s); [ | lia].
      rewrite Hps.
      replace (Zpos D * (K * 2 ^ (s - t))) with (K * Zpos D * 2 ^ (s - t))
        by ring.
      apply Z.mul_le_mono_nonneg_r; [lia | exact HKlo]. }
    replace (K * (4 * 2 ^ (s - t) * 2 ^ (- s - 2 + B)))
      with (4 * (K * 2 ^ (s - t)) * 2 ^ (- s - 2 + B)) by ring.
    apply Z.mul_le_mono_nonneg_r; lia. }
  assert (HXhi : Zpos kp * 2 ^ (- s - 2 + B) <= K' * 2 ^ (B - t)).
  { rewrite Hsplit, <- Hk.
    assert (HpK : Zpos p * 2 ^ s <= Zpos D * (K' * 2 ^ (s - t))).
    { rewrite Hps.
      replace (Zpos D * (K' * 2 ^ (s - t))) with (K' * Zpos D * 2 ^ (s - t))
        by ring.
      apply Z.mul_le_mono_nonneg_r; [lia | exact HKhi]. }
    assert (4 * Zpos qp + c <= 4 * (K' * 2 ^ (s - t))).
    { destruct (Z.eq_dec r 0) as [Hr0 | Hr0].
      - rewrite (Hc0 Hr0).
        assert (Zpos qp <= K' * 2 ^ (s - t))
          by (apply (Z.mul_le_mono_pos_l _ _ (Zpos D)); lia).
        lia.
      - assert (Zpos qp < K' * 2 ^ (s - t))
          by (apply (Z.mul_lt_mono_pos_l (Zpos D)); lia).
        lia. }
    replace (K' * (4 * 2 ^ (s - t) * 2 ^ (- s - 2 + B)))
      with (4 * (K' * 2 ^ (s - t)) * 2 ^ (- s - 2 + B)) by ring.
    apply Z.mul_le_mono_nonneg_r; lia. }
  destruct (round_aux_exact kp (- s - 2) B) as [Hfin Hval];
    [lia | lia | lia | ].
  split; [exact Hfin | ].
  rewrite Hval. split; apply round_units_mono; lia.
Qed.

(** Division of ints by a fixed int keeps the order. *)
Lemma fdiv_int_mono (p p' D : positive) :
  Zpos p <= Zpos p' -> Zpos p' < 2 ^ 53 -> Zpos D < 2 ^ 53 ->
  units (fdiv (S754_finite false p 0) (S754_finite false D 0))
  <= units (fdiv (S754_finite false p' 0) (S754_finite false D 0)).
Proof.
  intros Hle Hp' HD.
  destruct (Z.eq_dec (Zpos p) (Zpos p')) as [E | Hne].
  { injection E as ->. lia. }
  pose proof (Z.log2_nonneg (Zpos D)) as Hl2.
  pose proof (Z.log2_spec (Zpos D) ltac:(lia)) as [HDlo HDhi].
  set (t := Z.log2 (Zpos D) + 1).
  assert (Ht : t = Z.log2 (Zpos D) + 1) by reflexivity.
  assert (Ht53 : t <= 53).
  { assert (Z.log2 (Zpos D) < 53) by (apply Z.log2_lt_pow2; lia). lia. }
  assert (H2t : Zpos D < 2 ^ t) by (unfold t; rewrite <- Z.add_1_r in HDhi; exact HDhi).
  set (K := (Zpos p * 2 ^ t) / Zpos D + 1).
  pose proof (Z.div_mod (Zpos p * 2 ^ t) (Zpos D) ltac:(lia)) as Hdm.
  pose proof (Z.mod_pos_bound (Zpos p * 2 ^ t) (Zpos D) ltac:(lia)) as Hr.
  assert (HK0 : 0 <= (Zpos p * 2 ^ t) / Zpos D) by (apply Z.div_pos; lia).
  assert (HKD : K * Zpos D = Zpos D * (Zpos p * 2 ^ t / Zpos D) + Zpos D)
    by (unfold K; ring).
  assert (H2t0 : 0 < 2 ^ t) by (apply Z.pow_pos_nonneg; lia).
  assert (Hstep : (Zpos p + 1) * 2 ^ t <= Zpos p' * 2 ^ t)
    by (apply Z.mul_le_mono_nonneg_r; lia).
  rewrite Z.mul_add_distr_r, Z.mul_1_l in Hstep.
  assert (HKlo : Zpos p * 2 ^ t <= K * Zpos D) by lia.
  assert (HKhi : K * Zpos D <= Zpos p' * 2 ^ t) by lia.
  assert (H2B : 0 < 2 ^ (B - t)) by (apply Z.pow_pos_nonneg; unfold B; lia).
  assert (Hbig : 2 ^ 53 * 2 ^ t * 2 ^ (B - t) < 2 ^ (B + 900)).
  { rewrite <- !Z.pow_add_r by (unfold B; lia).
    apply Z.pow_lt_mono_r; unfold B; lia. }
  assert (HKub : K <= 2 ^ 53 * 2 ^ t).
  { assert (Hq : Zpos p * 2 ^ t / Zpos D <= Zpos p * 2 ^ t).
    { apply Z.div_le_upper_bound; [lia | ].
      rewrite <- (Z.mul_1_l (Zpos p * 2 ^ t)) at 1.
      apply Z.mul_le_mono_nonneg_r; lia. }
    assert (Hp2 : (Zpos p + 1) * 2 ^ t <= 2 ^ 53 * 2 ^ t)
      by (apply Z.mul_le_mono_nonneg_r; lia).
    rewrite Z.mul_add_distr_r, Z.mul_1_l in Hp2.
    unfold K. lia. }
  assert (HovK : K * 2 ^ (B - t) < 2 ^ (B + 900)).
  { apply Z.le_lt_trans with (2 ^ 53 * 2 ^ t * 2 ^ (B - t)); [ | exact Hbig].
    apply Z.mul_le_mono_nonneg_r; [apply Z.lt_le_incl; exact H2B | exact HKub]. }
  assert (Ht' : 0 <= t <= Z.log2 (Zpos D) + 1) by (split; [ | apply Z.eq_le_incl; exact Ht]; rewrite Ht; apply Z.le_le_succ_r; exact Hl2).
  assert (Hpp : Zpos p < 2 ^ 53) by (eapply Z.le_lt_trans; [exact Hle | exact Hp']).
  assert (HK1 : 0 <= K) by (unfold K; apply Z.le_le_succ_r; exact HK0).
  assert (Hz : 0 * Zpos D <= Zpos p * 2 ^ t <= K * Zpos D).
  { split; [ | exact HKlo]. rewrite Z.mul_0_l. apply Z.mul_nonneg_nonneg;
      [apply Pos2Z.is_nonneg | apply Z.pow_nonneg; discriminate]. }
  pose proof (fdiv_int_dyadic p D 0 K t Hpp HD (Z.le_refl 0) Ht' Hz HovK)
    as (_ & _ & Hup).
  assert (Hy : K * Zpos D <= Zpos p' * 2 ^ t <= 2 ^ 53 * 2 ^ t * Zpos D).
  { split; [exact HKhi | ].
    assert (Hpt : Zpos p' * 2 ^ t <= 2 ^ 53 * 2 ^ t).
    { apply Z.mul_le_mono_nonneg_r; [apply Z.pow_nonneg; discriminate | ].
      apply Z.lt_le_incl. exact Hp'. }
    eapply Z.le_trans; [exact Hpt | ].
    rewrite <- (Z.mul_1_r (2 ^ 53 * 2 ^ t)) at 1.
    apply Z.mul_le_mono_nonneg_l; [ | pose proof (Pos2Z.is_pos D); lia].
    apply Z.mul_nonneg_nonneg; apply Z.pow_nonneg; discriminate. }
  pose proof (fdiv_int_dyadic p' D K (2 ^ 53 * 2 ^ t) t Hp' HD HK1 Ht' Hy Hbig)
    as (_ & Hlow & _).
  eapply Z.le_trans; [exact Hup | exact Hlow].
Qed.

Lemma fmul_mono x y x' y' :
  nonneg_finite x -> nonneg_finite y -> nonneg_finite x' -> nonneg_finite y' ->
  units x <= units x' -> units y <= units y' ->
  units x' * units y' < 2 ^ (2 * B + 900) ->
  units (fmul x y) <= units (fmul x' y').
Proof.
  intros Hx Hy Hx' Hy' Hxx Hyy Hov.
  pose proof (units_nonneg _ Hx). pose proof (units_nonneg _ Hy).
  assert (Hle : units x * units y <= units x' * units y')
    by (apply Z.mul_le_mono_nonneg; lia).
  destruct (fmul_units x y Hx Hy ltac:(lia)) as [_ ->].
  destruct (fmul_units x' y' Hx' Hy' Hov) as [_ ->].
  apply round_units_mono; [unfold B; lia | ]. split; [nia | exact Hle].
Qed.

(** What [round(x, 2)] returns for [x] of at least one: the quotient of
    an int by 100. *)
Lemma py_round2_form lo hi x :
  nonneg_finite lo -> nonneg_finite hi -> between lo hi x ->
  1 <= trunc lo -> 100 * (trunc hi + 1) < 2 ^ 53 ->
  exists c,
    div_half_even (100 * units x) (2 ^ B) = Zpos c
    /\ Zpos c < 2 ^ 53
    /\ py_round2 x = fdiv (S754_finite false c 0) (S754_finite false 100 0).
Proof.
  intros Hlo Hhi [Hx [Ha Hb]] H1 H2.
  rewrite !trunc_units in * by assumption.
  assert (Hp : 0 < 2 ^ B) by (unfold B; lia).
  set (ia := units lo / 2 ^ B) in *. set (ib := units hi / 2 ^ B) in *.
  assert (Hia : ia * 2 ^ B <= units lo).
  { unfold ia. rewrite Z.mul_comm. apply Z.mul_div_le. lia. }
  assert (Hib : units hi < (ib + 1) * 2 ^ B).
  { unfold ib. pose proof (Z.div_mod (units hi) (2 ^ B) ltac:(lia)).
    pose proof (Z.mod_pos_bound (units hi) (2 ^ B) Hp). nia. }
  pose proof (div_half_even_mono (100 * ia * 2 ^ B) (100 * units x) (2 ^ B) Hp
                ltac:(nia)) as Hk1.
  pose proof (div_half_even_mono (100 * units x) (100 * (ib + 1) * 2 ^ B) (2 ^ B)
                Hp ltac:(nia)) as Hk2.
  rewrite div_half_even_exact in Hk1, Hk2 by lia.
  rewrite (py_round2_cents x Hx).
  destruct (div_half_even (100 * units x) (2 ^ B)) as [ | c | c]; try lia.
  exists c. split; [reflexivity | ]. split; [lia | reflexivity].
Qed.

Lemma py_round2_mono hi x y :
  nonneg_finite x -> nonneg_finite y -> nonneg_finite hi ->
  units x <= units y -> units y <= units hi ->
  100 * (trunc hi + 1) < 2 ^ 53 ->
  units (py_round2 x) <= units (py_round2 y).
Proof.
  intros Hx Hy Hhi Hxy Hyh H2.
  rewrite trunc_units in H2 by assumption.
  assert (Hp : 0 < 2 ^ B) by (unfold B; lia).
  pose proof (units_nonneg _ Hx) as Hx0.
  set (ib := units hi / 2 ^ B) in *.
  assert (Hib : units hi < (ib + 1) * 2 ^ B).
  { unfold ib. pose proof (Z.div_mod (units hi) (2 ^ B) ltac:(lia)).
    pose proof (Z.mod_pos_bound (units hi) (2 ^ B) Hp). nia. }
  pose proof (div_half_even_mono (100 * units x) (100 * units y) (2 ^ B) Hp
                ltac:(lia)) as Hk1.
  pose proof (div_half_even_mono (100 * units y) (100 * (ib + 1) * 2 ^ B) (2 ^ B)
                Hp ltac:(nia)) as Hk2.
  rewrite div_half_even_exact in Hk2 by lia.
  pose proof (div_half_even_nonneg (100 * units x) (2 ^ B) ltac:(lia) Hp) as Hk0.
  rewrite (py_round2_cents x Hx), (py_round2_cents y Hy).
  destruct (div_half_even (100 * units x) (2 ^ B)) as [ | cx | cx];
    destruct (div_half_even (100 * units y) (2 ^ B)) as [ | cy | cy];
    try lia.
  - cbn [units]. apply units_nonneg.
    apply (fdiv_int_within cy 100 0 (2 ^ 53)); try lia.
    apply pow2_B_bound. lia.
  - apply fdiv_int_mono; lia.
Qed.

End DivisionOrder.

(** * Further properties of the generator *)

Section Lookups.

Lemma getitem_In {V : Type} (d : dict V) k v : getitem d k = Ok v -> In (k, v) d.
Proof.
  induction d as [ | [k' v'] d IH]; cbn [getitem]; [discriminate | ].
  destruct (String.eqb_spec k k') as [-> | Hne]; intros H.
  - injection H as ->. left. reflexivity.
  - right. apply IH. exact H.
Qed.

Lemma between_weaken lo hi lo' hi' x :
  nonneg_finite lo' -> nonneg_finite lo -> nonneg_finite hi -> nonneg_finite hi' ->
  fle_b lo' lo = true -> fle_b hi hi' = true ->
  between lo hi x -> between lo' hi' x.
Proof.
  intros H1 H2 H3 H4 Hlo Hhi (Hx & Ha & Hb).
  pose proof (fle_b_sound _ _ H1 H2 Hlo). pose proof (fle_b_sound _ _ H3 H4 Hhi).
  split; [exact Hx | lia].
Qed.

End Lookups.

(** The city and the type of a row, taken out of the two tables. *)
Ltac table_cases Hc Ht :=
  let Hc' := fresh in let Ht' := fresh in
  pose proof (getitem_In _ _ _ Hc) as Hc'; pose proof (getitem_In _ _ _ Ht) as Ht';
  cbn [cities_info property_types In] in Hc', Ht';
  repeat (destruct Hc' as [Hc' | Hc']; [ | try contradiction ]);
  repeat (destruct Ht' as [Ht' | Ht']; [ | try contradiction ]);
  injection Hc' as _ <-; injection Ht' as _ <-.

Section RowRanges.

Variable R : RandomSource.

(** X1. Every row names a city and a type of the two tables, and its area
    lies between [int(min_area * avg_area_multiplier)] and
    [int(max_area * avg_area_multiplier)] of that city and type; over the
    whole table the areas lie between 320 and 2600. *)
Theorem area_within_scaled_type_range n (w : World R) :
  exists df w',
    create_realistic_property_data R n w = Ok (df, w')
    /\ Forall (fun row =>
         exists city_data prop_data lo hi,
           getitem cities_info (city row) = Ok city_data
           /\ getitem property_types (property_type row) = Ok prop_data
           /\ rbind (int_mul_float (min_area prop_data)
                       (avg_area_multiplier city_data)) py_int = Ok lo
           /\ rbind (int_mul_float (max_area prop_data)
                       (avg_area_multiplier city_data)) py_int = Ok hi
           /\ lo <= area_sqft row <= hi
           /\ 320 <= area_sqft row <= 2600) df.
Proof.
  apply every_row. intros clk row (cd & pd & Hc & Ht & H).
  pose proof (rf_area _ _ _ _ H) as Ha. clear H.
  exists cd, pd.
  table_cases Hc Ht;
    match type of Ha with
    | fst (area_bounds ?c ?t) <= _ <= _ =>
        let v := eval vm_compute in (area_bounds c t) in
        replace (area_bounds c t) with v in Ha by (vm_compute; reflexivity)
    end;
    cbn [fst snd] in Ha;
    (eexists _, _; split; [exact Hc | ]; split; [exact Ht | ];
     split; [vm_compute; reflexivity | ]; split; [vm_compute; reflexivity | ];
     lia).
Qed.

(** X2. The price per square foot of every row lies between
    [int(base_price * (1 - price_variation))] and
    [int(base_price * (1 + price_variation))] of its city; over the whole
    table it lies between 3250 and 21000. *)
Theorem price_per_sqft_within_city_range n (w : World R) :
  exists df w',
    create_realistic_property_data R n w = Ok (df, w')
    /\ Forall (fun row =>
         exists city_data lo hi,
           getitem cities_info (city row) = Ok city_data
           /\ rbind (int_sub_float 1 (price_variation city_data)) (fun v =>
              rbind (int_mul_float (base_price_per_sqft city_data) v) py_int)
              = Ok lo
           /\ rbind (int_add_float 1 (price_variation city_data)) (fun v =>
              rbind (int_mul_float (base_price_per_sqft city_data) v) py_int)
              = Ok hi
           /\ lo <= price_per_sqft row <= hi
           /\ 3250 <= price_per_sqft row <= 21000) df.
Proof.
  apply every_row. intros clk row (cd & pd & Hc & Ht & H).
  pose proof (rf_pps _ _ _ _ H) as Hp. clear H.
  exists cd.
  table_cases Hc Ht;
    match type of Hp with
    | fst (pps_bounds ?c) <= _ <= _ =>
        let v := eval vm_compute in (pps_bounds c) in
        replace (pps_bounds c) with v in Hp by (vm_compute; reflexivity)
    end;
    cbn [fst snd] in Hp;
    (eexists _, _; split; [exact Hc | ];
     split; [vm_compute; reflexivity | ]; split; [vm_compute; reflexivity | ];
     lia).
Qed.

End RowRanges.

(** ** The price as a function of the stored fields *)

Section Prices.

Lemma location_bonus_mono ls ls' b b' :
  1 <= ls -> ls <= ls' -> ls' <= 10 ->
  location_bonus_of ls = Ok b -> location_bonus_of ls' = Ok b' ->
  units b <= units b'.
Proof.
  intros H1 H2 H3 Eb Eb'.
  destruct (location_bonus_between ls ltac:(lia)) as (x & Ex & Hx & _).
  destruct (location_bonus_between ls' ltac:(lia)) as (x' & Ex' & Hx' & _).
  rewrite Eb in Ex. rewrite Eb' in Ex'. injection Ex as <-. injection Ex' as <-.
  assert (Hc : bonus_rises = true) by (vm_compute; reflexivity).
  unfold bonus_rises in Hc.
  pose proof (zrange_forallb _ 1 10 ls Hc ltac:(lia)) as Hc1. cbv beta in Hc1.
  pose proof (zrange_forallb _ 1 10 ls' Hc1 ltac:(lia)) as Hc2. cbv beta in Hc2.
  apply orb_true_iff in Hc2. destruct Hc2 as [Hc2 | Hc2].
  - apply Z.ltb_lt in Hc2. lia.
  - rewrite Eb, Eb' in Hc2. apply fle_b_sound; assumption.
Qed.

Lemma age_penalty_mono age age' p p' :
  0 <= age' -> age' <= age -> age <= 25 ->
  age_penalty_of age = Ok p -> age_penalty_of age' = Ok p' ->
  units p <= units p'.
Proof.
  intros H1 H2 H3 Ep Ep'.
  destruct (age_penalty_between age ltac:(lia)) as (x & Ex & Hx & _).
  destruct (age_penalty_between age' ltac:(lia)) as (x' & Ex' & Hx' & _).
  rewrite Ep in Ex. rewrite Ep' in Ex'. injection Ex as <-. injection Ex' as <-.
  assert (Hc : penalty_falls = true) by (vm_compute; reflexivity).
  unfold penalty_falls in Hc.
  pose proof (zrange_forallb _ 0 26 age' Hc ltac:(lia)) as Hc1. cbv beta in Hc1.
  pose proof (zrange_forallb _ 0 26 age Hc1 ltac:(lia)) as Hc2. cbv beta in Hc2.
  apply orb_true_iff in Hc2. destruct Hc2 as [Hc2 | Hc2].
  - apply Z.ltb_lt in Hc2. lia.
  - rewrite Ep, Ep' in Hc2. apply fle_b_sound; assumption.
Qed.

Lemma total_range_ok : fi_ok total_range = true.
Proof. vm_compute. reflexivity. Qed.

Lemma adjusted_range_ok : fi_ok adjusted_range = true.
Proof. vm_compute. reflexivity. Qed.

Lemma final_range_ok : fi_ok final_range = true.
Proof. vm_compute. reflexivity. Qed.

Lemma final_range_cents :
  1 <= trunc (fst final_range) /\ 100 * (trunc (snd final_range) + 1) < 2 ^ 53.
Proof. vm_compute. split; [discriminate | reflexivity]. Qed.

(** The steps of the price of a row whose fields are in the ranges of
    the table. *)
Lemma stored_price_steps pps area ls age p :
  3250 <= pps <= 21000 -> 320 <= area <= 2600 ->
  1 <= ls <= 10 -> 0 <= age <= 25 ->
  spec_total_price pps area ls age = Ok p ->
  exists total bonus penalty,
    int_truediv (pps * area) 100000 = Ok total
    /\ location_bonus_of ls = Ok bonus
    /\ age_penalty_of age = Ok penalty
    /\ p = py_round2 (fmul (fmul total bonus) penalty)
    /\ between (fst total_range) (snd total_range) total
    /\ between (fst bonus_bounds) (snd bonus_bounds) bonus
    /\ between (fst penalty_bounds) (snd penalty_bounds) penalty
    /\ between (fst adjusted_range) (snd adjusted_range) (fmul total bonus)
    /\ between (fst final_range) (snd final_range)
         (fmul (fmul total bonus) penalty).
Proof.
  intros Hpps Harea Hls Hage E.
  assert (Hp53 : 2 ^ 53 < 2 ^ 400) by (apply Z.pow_lt_mono_r; lia).
  assert (Hprod : 1040000 <= pps * area <= 54600000) by nia.
  destruct (int_truediv_between (pps * area) 100000 10 547)
    as (total & Etotal & Htotal); try lia.
  destruct (location_bonus_between ls Hls) as (bonus & Ebonus & Hbonus).
  destruct (age_penalty_between age Hage) as (penalty & Epenalty & Hpenalty).
  unfold spec_total_price in E. rewrite Etotal, Ebonus, Epenalty in E.
  cbn [rbind] in E. injection E as <-.
  pose proof (fmul_between total_range bonus_bounds total bonus
                total_range_ok bonus_bounds_ok Htotal Hbonus) as Hadj.
  pose proof (fmul_between adjusted_range penalty_bounds _ penalty
                adjusted_range_ok penalty_bounds_ok Hadj Hpenalty) as Hfin.
  exists total, bonus, penalty. repeat split; try assumption; try reflexivity.
  all: first [apply Htotal | apply Hbonus | apply Hpenalty | apply Hadj | apply Hfin].
Qed.

Lemma stored_price_proper pps area ls age p :
  3250 <= pps <= 21000 -> 320 <= area <= 2600 ->
  1 <= ls <= 10 -> 0 <= age <= 25 ->
  spec_total_price pps area ls age = Ok p -> proper p.
Proof.
  intros Hpps Harea Hls Hage E.
  destruct (stored_price_steps _ _ _ _ _ Hpps Harea Hls Hage E)
    as (total & bonus & penalty & _ & _ & _ & -> & _ & _ & _ & _ & Hfin).
  destruct (fi_ok_true _ final_range_ok) as (Hlo & Hhi & _).
  destruct final_range_cents as [Hc1 Hc2].
  destruct (py_round2_form _ _ _ Hlo Hhi Hfin Hc1 Hc2) as (c & _ & Hc & Ec).
  split.
  - apply (py_round2_between _ _ _ Hlo Hhi Hfin Hc1 Hc2).
  - rewrite Ec. apply fdiv_int_valid; [exact Hc | reflexivity].
Qed.

(** The ranges of the fields of a row of the table. *)
Lemma row_ranges clk row :
  row_ok cities_info property_types clk row ->
  3250 <= price_per_sqft row <= 21000
  /\ 320 <= area_sqft row <= 2600
  /\ 1 <= location_score row <= 10
  /\ 0 <= property_age_years row <= 25
  /\ spec_total_price (price_per_sqft row) (area_sqft row)
       (location_score row) (property_age_years row) = Ok (price_lakhs row).
Proof.
  intros (cd & pd & Hc & Ht & H).
  pose proof (rf_area _ _ _ _ H) as Ha. pose proof (rf_pps _ _ _ _ H) as Hp.
  pose proof (rf_location _ _ _ _ H) as Hl. pose proof (rf_age _ _ _ _ H) as Hg.
  pose proof (rf_price _ _ _ _ H) as He. clear H.
  table_cases Hc Ht;
    match type of Ha with
    | fst (area_bounds ?c ?t) <= _ <= _ =>
        let v := eval vm_compute in (area_bounds c t) in
        replace (area_bounds c t) with v in Ha by (vm_compute; reflexivity);
        let u := eval vm_compute in (pps_bounds c) in
        replace (pps_bounds c) with u in Hp by (vm_compute; reflexivity)
    end;
    cbn [fst snd] in Ha, Hp; (repeat split; try assumption; lia).
Qed.

Lemma row_price_proper clk row :
  row_ok cities_info property_types clk row -> proper (price_lakhs row).
Proof.
  intros H. destruct (row_ranges _ _ H) as (Hp & Ha & Hl & Hg & E).
  exact (stored_price_proper _ _ _ _ _ Hp Ha Hl Hg E).
Qed.

(** [float(n)] of a small int is proper when its two checks compute to
    [true]. *)
Lemma F_proper n :
  nonneg_finiteb (F n) && valid_binary prec emax (F n) = true -> proper (F n).
Proof.
  intros H. apply andb_true_iff in H. destruct H as [H1 H2].
  split; [apply nonneg_finiteb_true; exact H1 | exact H2].
Qed.

Lemma row_price_between clk row :
  row_ok cities_info property_types clk row ->
  between (F 11) (F 371) (price_lakhs row).
Proof.
  intros (cd & pd & Hc & Ht & H).
  pose proof (rf_price_bounds _ _ _ _ H) as Hp. clear H.
  table_cases Hc Ht;
    (eapply between_weaken; [ | | | | | | exact Hp];
     try (apply nonneg_finiteb_true; vm_compute; reflexivity);
     vm_compute; reflexivity).
Qed.

Lemma small_of_between (X : fival) x :
  fi_ok X = true -> between (fst X) (snd X) x ->
  nonneg_finite x /\ 0 <= units x /\ units x < 2 ^ (B + 400).
Proof.
  intros HX (Hx & _ & Hhi). destruct (fi_ok_true _ HX) as (_ & _ & Hs).
  unfold small in Hs. pose proof (units_nonneg _ Hx) as H0.
  split; [exact Hx | ]. split; [exact H0 | ].
  eapply Z.le_lt_trans; [exact Hhi | exact Hs].
Qed.

(** Of two rows with the same price per square foot and the same area,
    the one with the better location and the lower age costs at least
    as much. *)
Lemma price_order pps area ls1 age1 ls2 age2 p1 p2 :
  3250 <= pps <= 21000 -> 320 <= area <= 2600 ->
  1 <= ls1 -> ls1 <= ls2 -> ls2 <= 10 ->
  0 <= age2 -> age2 <= age1 -> age1 <= 25 ->
  spec_total_price pps area ls1 age1 = Ok p1 ->
  spec_total_price pps area ls2 age2 = Ok p2 ->
  units p1 <= units p2.
Proof.
  intros Hpps Harea H1 H2 H3 H4 H5 H6 E1 E2.
  destruct (stored_price_steps pps area ls1 age1 p1 Hpps Harea ltac:(lia) ltac:(lia) E1)
    as (t1 & b1 & q1 & Et1 & Eb1 & Eq1 & -> & Ht1 & Hb1 & Hq1 & Ha1 & Hf1).
  destruct (stored_price_steps pps area ls2 age2 p2 Hpps Harea ltac:(lia) ltac:(lia) E2)
    as (t2 & b2 & q2 & Et2 & Eb2 & Eq2 & -> & Ht2 & Hb2 & Hq2 & Ha2 & Hf2).
  rewrite Et1 in Et2. injection Et2 as <-.
  pose proof (location_bonus_mono _ _ _ _ H1 H2 H3 Eb1 Eb2) as Hb.
  pose proof (age_penalty_mono _ _ _ _ H4 H5 H6 Eq1 Eq2) as Hq.
  destruct (small_of_between _ _ total_range_ok Ht1) as (Nt & Pt & St).
  destruct (small_of_between _ _ bonus_bounds_ok Hb1) as (Nb1 & Pb1 & Sb1).
  destruct (small_of_between _ _ bonus_bounds_ok Hb2) as (Nb2 & Pb2 & Sb2).
  destruct (small_of_between _ _ penalty_bounds_ok Hq1) as (Nq1 & Pq1 & Sq1).
  destruct (small_of_between _ _ penalty_bounds_ok Hq2) as (Nq2 & Pq2 & Sq2).
  destruct (small_of_between _ _ adjusted_range_ok Ha1) as (Na1 & Pa1 & Sa1).
  destruct (small_of_between _ _ adjusted_range_ok Ha2) as (Na2 & Pa2 & Sa2).
  assert (Hadj : units (fmul t1 b1) <= units (fmul t1 b2)).
  { apply fmul_mono; try assumption; [apply Z.le_refl | ]. apply small_mul; assumption. }
  assert (Hfin : units (fmul (fmul t1 b1) q1) <= units (fmul (fmul t1 b2) q2)).
  { apply fmul_mono; try assumption. apply small_mul; assumption. }
  destruct (fi_ok_true _ final_range_ok) as (_ & Hhi & _).
  destruct final_range_cents as [_ Hc2].
  apply (py_round2_mono (snd final_range)); try assumption.
  - apply Hf1.
  - apply Hf2.
  - apply Hf2.
Qed.

End Prices.

Section PriceTheorems.

Variable R : RandomSource.

(** X3. The stored price of every row is a finite canonical float; it is not
    below 11 lakhs and not above 371 lakhs. *)
Theorem price_between_11_and_371_lakhs n (w : World R) :
  exists df w',
    create_realistic_property_data R n w = Ok (df, w')
    /\ Forall (fun row =>
         proper (price_lakhs row)
         /\ fltb (price_lakhs row) (F 11) = false
         /\ fltb (F 371) (price_lakhs row) = false) df.
Proof.
  apply every_row. intros clk row Hrow.
  pose proof (row_price_proper _ _ Hrow) as Hproper.
  destruct (row_price_between _ _ Hrow) as (_ & Hlo & Hhi).
  split; [exact Hproper | ].
  rewrite (fltb_units _ _ Hproper (F_proper 11 eq_refl)).
  rewrite (fltb_units _ _ (F_proper 371 eq_refl) Hproper).
  split; apply Z.ltb_ge; assumption.
Qed.

(** X4. Of two rows, of one table or of two, with the same price per square
    foot and the same area, the row whose location score is not lower
    and whose age is not higher has a price that is not lower. *)
Theorem better_location_and_newer_is_not_cheaper n1 n2 (w1 w2 : World R) :
  exists df1 w1' df2 w2',
    create_realistic_property_data R n1 w1 = Ok (df1, w1')
    /\ create_realistic_property_data R n2 w2 = Ok (df2, w2')
    /\ Forall (fun row1 =>
         Forall (fun row2 =>
           price_per_sqft row1 = price_per_sqft row2 ->
           area_sqft row1 = area_sqft row2 ->
           location_score row1 <= location_score row2 ->
           property_age_years row2 <= property_age_years row1 ->
           fltb (price_lakhs row2) (price_lakhs row1) = false) df2) df1.
Proof.
  destruct (create_ok R n1 w1) as (df1 & w1' & E1 & _ & Hall1 & _).
  destruct (create_ok R n2 w2) as (df2 & w2' & E2 & _ & Hall2 & _).
  exists df1, w1', df2, w2'. split; [exact E1 | ]. split; [exact E2 | ].
  eapply Forall_impl; [ | exact Hall1]. intros row1 Hrow1.
  eapply Forall_impl; [ | exact Hall2]. intros row2 Hrow2 Epps Earea Hls Hage.
  pose proof (row_price_proper _ _ Hrow1) as Hp1.
  pose proof (row_price_proper _ _ Hrow2) as Hp2.
  destruct (row_ranges _ _ Hrow1) as (Hpps1 & Ha1 & Hl1 & Hg1 & Ep1).
  destruct (row_ranges _ _ Hrow2) as (Hpps2 & Ha2 & Hl2 & Hg2 & Ep2).
  rewrite fltb_units by assumption. apply Z.ltb_ge.
  rewrite <- Epps, <- Earea in Ep2.
  apply (price_order _ _ _ _ _ _ _ _ Hpps1 Ha1 (proj1 Hl1) Hls (proj2 Hl2)
           (proj1 Hg2) Hage (proj2 Hg1) Ep1 Ep2).
Qed.

End PriceTheorems.

(** ** The listing dates and the clock *)

Section Dates.

Variable R : RandomSource.

Lemma off_clock_weaken {A : Type} (Q : A -> Prop) (c : M R A) :
  off_clock Q c -> off_clock (fun _ => True) c.
Proof. intros H w a w' E. destruct (H w a w' E) as (_ & H1). split; [exact I | exact H1]. Qed.

Lemma off_clock_lift {A : Type} (r : Result A) : off_clock (fun _ => True) (lift R r).
Proof.
  intros w a w' E. unfold lift in E. destruct r as [e | x]; [discriminate | ].
  injection E as _ <-. repeat split.
Qed.

Lemma off_clock_randbelow n : off_clock (fun v => 0 < n -> 0 <= v < n) (randbelow R n).
Proof.
  intros w a w' E. unfold randbelow in E.
  pose proof (rng_randbelow_range R n (py_random R w)) as Hr.
  destruct (rng_randbelow R n (py_random R w)) as [v s].
  injection E as <- <-. repeat split; apply Hr; assumption.
Qed.

Lemma off_clock_randint a b : off_clock (fun v => a <= v <= b) (randint R a b).
Proof.
  intros w v w' E. unfold randint in E.
  destruct (Z.ltb_spec 0 (b + 1 - a)) as [Hw | Hw]; [ | discriminate].
  apply bind_inv in E. destruct E as (i & w1 & E1 & E2).
  destruct (off_clock_randbelow _ _ _ _ E1) as (Hi & Hc & Hr).
  injection E2 as <- <-. specialize (Hi Hw). split; [lia | ]. split; assumption.
Qed.

Lemma off_clock_choice {A : Type} (seq : list A) :
  off_clock (fun x => In x seq) (choice R seq).
Proof.
  intros w x w' E. unfold choice in E. destruct seq as [ | a l]; [discriminate | ].
  apply bind_inv in E. destruct E as (i & w1 & E1 & E2).
  destruct (off_clock_randbelow _ _ _ _ E1) as (_ & Hc & Hr).
  destruct (nth_error (a :: l) (Z.to_nat i)) as [y | ] eqn:Hy; [ | discriminate].
  injection E2 as <- <-. split; [ | split; assumption].
  eapply nth_error_In. exact Hy.
Qed.

Lemma off_clock_uniform lo hi : off_clock (fun _ => True) (uniform R lo hi).
Proof.
  intros w x w' E. unfold uniform in E.
  apply bind_inv in E. destruct E as (r & w1 & E1 & E2).
  unfold random in E1. destruct (rng_bits53 R (py_random R w)) as [k s].
  injection E1 as _ <-. injection E2 as _ <-. repeat split.
Qed.

Lemma dates_row_bind {A : Type} (Q : A -> Prop) (c : M R A) (k : A -> M R Property) :
  off_clock Q c -> (forall a, Q a -> dates_row (k a)) -> dates_row (bind c k).
Proof.
  intros Hc Hk w row w' E. apply bind_inv in E. destruct E as (a & w1 & E1 & E2).
  destruct (Hc _ _ _ E1) as (Ha & Hclk & Hreads).
  destruct (Hk a Ha _ _ _ E2) as (Hd & Hclk' & Hreads').
  rewrite Hclk, Hreads in *. repeat split; assumption.
Qed.

Lemma one_property_dates cities types : dates_row (one_property R cities types).
Proof.
  unfold one_property.
  eapply dates_row_bind; [apply off_clock_choice | ]; intros ? _.
  eapply dates_row_bind; [apply off_clock_choice | ]; intros ? _.
  eapply dates_row_bind; [apply off_clock_lift | ]; intros ? _.
  eapply dates_row_bind; [apply off_clock_lift | ]; intros ? _.
  eapply dates_row_bind; [apply off_clock_randint | ]; intros ? _.
  eapply dates_row_bind; [apply off_clock_lift | ]; intros ? _.
  eapply dates_row_bind; [apply off_clock_lift | ]; intros ? _.
  eapply dates_row_bind; [apply off_clock_lift | ]; intros ? _.
  eapply dates_row_bind; [apply off_clock_lift | ]; intros ? _.
  eapply dates_row_bind; [apply off_clock_uniform | ]; intros ? _.
  eapply dates_row_bind; [apply off_clock_lift | ]; intros ? _.
  eapply dates_row_bind; [apply off_clock_lift | ]; intros ? _.
  eapply dates_row_bind; [apply off_clock_lift | ]; intros ? _.
  eapply dates_row_bind; [apply off_clock_randint | ]; intros ? _.
  eapply dates_row_bind; [apply off_clock_randint | ]; intros ? _.
  eapply dates_row_bind; [apply off_clock_randint | ]; intros ? _.
  eapply dates_row_bind; [apply off_clock_randint | ]; intros ? _.
  eapply dates_row_bind; [apply off_clock_lift | ]; intros ? _.
  eapply dates_row_bind; [apply off_clock_lift | ]; intros ? _.
  eapply dates_row_bind; [apply off_clock_lift | ]; intros ? _.
  eapply dates_row_bind; [apply off_clock_lift | ]; intros ? _.
  eapply dates_row_bind; [apply off_clock_randint | ]; intros days_ago Hdays.
  intros w row w' E. apply bind_inv in E. destruct E as (now & w1 & E1 & E2).
  unfold datetime_now in E1. injection E1 as <- <-. injection E2 as <- <-.
  split; [ | split; reflexivity].
  exists days_ago. split; [exact Hdays | ]. split; reflexivity.
Qed.

Lemma for_range_dates cities types k :
  forall acc (w : World R) rows' w',
    for_range R k cities types acc w = Ok (rows', w') ->
    exists rows,
      rows' = (acc ++ rows)%list
      /\ Forall2 (dated (clock R w)) (seq (clock_reads R w) k) rows.
Proof.
  induction k as [ | k IH]; intros acc w rows' w' E; cbn [for_range] in E.
  - injection E as <- <-. exists []. rewrite app_nil_r. split; [reflexivity | constructor].
  - apply bind_inv in E. destruct E as (row & w1 & E1 & E2).
    destruct (one_property_dates cities types _ _ _ E1) as (Hd & Hclk & Hreads).
    destruct (IH _ _ _ _ E2) as (rows & -> & Hall).
    rewrite Hclk, Hreads in Hall.
    exists (row :: rows). rewrite <- app_assoc. split; [reflexivity | ].
    cbn [seq]. constructor; assumption.
Qed.

(** X5. The call reads the clock once per row, in order: row [i] is listed a
    whole number of days, between 1 and 730, before the [i]-th reading
    the call takes, and its month is the ["%Y-%m"] of that date. *)
Theorem listing_dates_follow_the_clock n (w : World R) :
  exists df w',
    create_realistic_property_data R n w = Ok (df, w')
    /\ Forall2 (fun k row =>
         exists days_ago,
           1 <= days_ago <= 730
           /\ listing_date row = sub_days (Z.of_N (clock R w k)) days_ago
           /\ month_listed row = strftime_Ym (listing_date row))
         (seq (clock_reads R w) (Z.to_nat n)) df.
Proof.
  destruct (create_ok R n w) as (df & w' & E & _).
  exists df, w'. split; [exact E | ].
  unfold create_realistic_property_data, generate_from in E.
  destruct (for_range_dates _ _ _ _ _ _ _ E) as (rows & -> & Hall).
  exact Hall.
Qed.

End Dates.

(** ** Longer and shorter tables *)

Section Composition.

Variable R : RandomSource.

Lemma for_range_acc cities types k :
  forall acc (w : World R),
    for_range R k cities types acc w
    = match for_range R k cities types [] w with
      | inl e => inl e
      | inr (rows, w') => inr ((acc ++ rows)%list, w')
      end.
Proof.
  induction k as [ | k IH]; intros acc w; cbn [for_range].
  - unfold ret, Ok. rewrite app_nil_r. reflexivity.
  - unfold bind. destruct (one_property R cities types w) as [e | [row w1]];
      [reflexivity | ].
    rewrite (IH (acc ++ [row])%list), (IH ([] ++ [row])%list).
    destruct (for_range R k cities types [] w1) as [e | [rows w2]];
      [reflexivity | ].
    rewrite <- app_assoc. reflexivity.
Qed.

Lemma for_range_add cities types k1 k2 :
  forall w : World R,
    for_range R (k1 + k2) cities types [] w
    = bind (for_range R k1 cities types [])
        (fun a => bind (for_range R k2 cities types [])
                    (fun b => ret (a ++ b)%list)) w.
Proof.
  induction k1 as [ | k1 IH]; intros w.
  - cbn [Nat.add for_range]. unfold bind, ret, Ok. cbv beta iota.
    destruct (for_range R k2 cities types [] w) as [e | [rows w2]]; reflexivity.
  - cbn [Nat.add for_range]. unfold bind at 1 2 3.
    destruct (one_property R cities types w) as [e | [row w1]]; [reflexivity | ].
    rewrite (for_range_acc cities types (k1 + k2) ([] ++ [row])%list).
    rewrite (for_range_acc cities types k1 ([] ++ [row])%list).
    rewrite IH. unfold bind, ret, Ok.
    destruct (for_range R k1 cities types [] w1) as [e | [a w2]]; [reflexivity | ].
    destruct (for_range R k2 cities types [] w2) as [e | [b w3]]; [reflexivity | ].
    rewrite <- app_assoc. reflexivity.
Qed.

(** X6. A table of [n + m] rows is a table of [n] rows followed by the table
    of [m] rows that a second call returns: the rows, the state left
    behind and the errors are the same. *)
Theorem table_of_sum_is_two_tables n m (w : World R) :
  0 <= n -> 0 <= m ->
  create_realistic_property_data R (n + m) w
  = bind (create_realistic_property_data R n)
      (fun first =>
         bind (create_realistic_property_data R m)
           (fun second => ret (first ++ second)%list)) w.
Proof.
  intros Hn Hm. unfold create_realistic_property_data, generate_from.
  rewrite Z2Nat.inj_add by assumption. apply for_range_add.
Qed.

End Composition.

Lemma table_of_sum_is_two_tables_witness :
  0 <= 2 /\ 0 <= 3
  /\ create_realistic_property_data lcg64 (2 + 3) (world_at t_nov)
     = bind (create_realistic_property_data lcg64 2)
         (fun first =>
            bind (create_realistic_property_data lcg64 3)
              (fun second => ret (first ++ second)%list)) (world_at t_nov).
Proof.
  split; [lia | ]. split; [lia | ].
  apply (table_of_sum_is_two_tables lcg64 2 3 (world_at t_nov)); lia.
Defined.

(** * The statistics of the scripts *)

Section Columns.

Lemma existsb_eqb_In v (l : list string) :
  existsb (String.eqb v) l = true <-> In v l.
Proof.
  rewrite existsb_exists. split.
  - intros (x & Hx & E). apply String.eqb_eq in E. subst. exact Hx.
  - intros H. exists v. split; [exact H | apply String.eqb_refl].
Qed.

Lemma unique_from values :
  forall seen,
    NoDup seen ->
    NoDup (fold_left
             (fun seen v =>
                if existsb (String.eqb v) seen then seen else (seen ++ [v])%list)
             values seen)
    /\ forall x,
         In x (fold_left
                 (fun seen v =>
                    if existsb (String.eqb v) seen then seen
                    else (seen ++ [v])%list)
                 values seen)
         <-> In x seen \/ In x values.
Proof.
  induction values as [ | v values IH]; intros seen Hnd; cbn [fold_left].
  - split; [exact Hnd | ]. intros x. cbn [In]. tauto.
  - destruct (existsb (String.eqb v) seen) eqn:E.
    + apply existsb_eqb_In in E.
      destruct (IH seen Hnd) as [H1 H2]. split; [exact H1 | ].
      intros x. rewrite H2. cbn [In]. split; [tauto | ].
      intros [H | [<- | H]]; tauto.
    + assert (Hv : ~ In v seen).
      { intros H. apply existsb_eqb_In in H. congruence. }
      assert (Hnd' : NoDup (seen ++ [v])%list).
      { apply NoDup_app; [exact Hnd | repeat constructor; intros [] | ].
        intros x Hx [<- | []]. exact (Hv Hx). }
      destruct (IH _ Hnd') as [H1 H2]. split; [exact H1 | ].
      intros x. rewrite H2, in_app_iff. cbn [In]. tauto.
Qed.

Lemma unique_spec values :
  NoDup (Pandas.unique values)
  /\ forall x, In x (Pandas.unique values) <-> In x values.
Proof.
  destruct (unique_from values [] (NoDup_nil _)) as [H1 H2].
  split; [exact H1 | ]. intros x. unfold Pandas.unique. rewrite H2.
  cbn [In]. tauto.
Qed.

Lemma proper_not_nan xs :
  Forall proper xs -> filter (fun x => negb (Pandas.is_nan x)) xs = xs.
Proof.
  induction 1 as [ | x xs [Hx _] _ IH]; [reflexivity | ].
  cbn [filter]. rewrite IH.
  destruct x as [ [ | ] | | | [ | ] m e ]; try (exfalso; exact Hx); reflexivity.
Qed.

Lemma fold_min_spec rest :
  forall m,
    proper m -> Forall proper rest ->
    In (fold_left (fun m y => if fltb y m then y else m) rest m) (m :: rest)
    /\ units (fold_left (fun m y => if fltb y m then y else m) rest m)
       <= units m
    /\ Forall (fun x =>
         units (fold_left (fun m y => if fltb y m then y else m) rest m)
         <= units x) rest.
Proof.
  induction rest as [ | y rest IH]; intros m Hm Hall; cbn [fold_left].
  - split; [left; reflexivity | ]. split; [lia | constructor].
  - inversion Hall as [ | ? ? Hy Hrest]; subst.
    rewrite (fltb_units y m Hy Hm).
    destruct (Z.ltb_spec (units y) (units m)) as [Hlt | Hge].
    + destruct (IH y Hy Hrest) as (Hin & Hle & Hfa).
      split; [right; exact Hin | ]. split; [lia | ].
      constructor; assumption.
    + destruct (IH m Hm Hrest) as (Hin & Hle & Hfa).
      split; [destruct Hin as [<- | Hin]; [left; reflexivity | right; right; exact Hin] | ].
      split; [exact Hle | ]. constructor; [lia | exact Hfa].
Qed.

Lemma fold_max_spec rest :
  forall m,
    proper m -> Forall proper rest ->
    In (fold_left (fun m y => if fltb m y then y else m) rest m) (m :: rest)
    /\ units m
       <= units (fold_left (fun m y => if fltb m y then y else m) rest m)
    /\ Forall (fun x =>
         units x
         <= units (fold_left (fun m y => if fltb m y then y else m) rest m))
         rest.
Proof.
  induction rest as [ | y rest IH]; intros m Hm Hall; cbn [fold_left].
  - split; [left; reflexivity | ]. split; [lia | constructor].
  - inversion Hall as [ | ? ? Hy Hrest]; subst.
    rewrite (fltb_units m y Hm Hy).
    destruct (Z.ltb_spec (units m) (units y)) as [Hlt | Hge].
    + destruct (IH y Hy Hrest) as (Hin & Hle & Hfa).
      split; [right; exact Hin | ]. split; [lia | ].
      constructor; assumption.
    + destruct (IH m Hm Hrest) as (Hin & Hle & Hfa).
      split; [destruct Hin as [<- | Hin]; [left; reflexivity | right; right; exact Hin] | ].
      split; [exact Hle | ]. constructor; [lia | exact Hfa].
Qed.

Lemma Forall_proper_In xs x : Forall proper xs -> In x xs -> proper x.
Proof. intros H. rewrite Forall_forall in H. apply H. Qed.

(** The minimum and the maximum of a column of proper floats that is
    not empty are values of the column, and no value is below the one or
    above the other. *)
Lemma series_min_spec xs :
  xs <> [] -> Forall proper xs ->
  In (Pandas.series_min xs) xs
  /\ Forall (fun x => fltb x (Pandas.series_min xs) = false) xs.
Proof.
  intros Hne Hall. unfold Pandas.series_min. rewrite (proper_not_nan _ Hall).
  destruct xs as [ | x rest]; [congruence | ].
  inversion Hall as [ | ? ? Hx Hrest]; subst.
  destruct (fold_min_spec rest x Hx Hrest) as (Hin & Hle & Hfa).
  split; [exact Hin | ].
  pose proof (Forall_proper_In _ _ Hall Hin) as Hm.
  constructor.
  - rewrite (fltb_units _ _ Hx Hm). apply Z.ltb_ge. exact Hle.
  - rewrite Forall_forall in *. intros y Hy.
    rewrite (fltb_units _ _ (Hrest y Hy) Hm). apply Z.ltb_ge. exact (Hfa y Hy).
Qed.

Lemma series_max_spec xs :
  xs <> [] -> Forall proper xs ->
  In (Pandas.series_max xs) xs
  /\ Forall (fun x => fltb (Pandas.series_max xs) x = false) xs.
Proof.
  intros Hne Hall. unfold Pandas.series_max. rewrite (proper_not_nan _ Hall).
  destruct xs as [ | x rest]; [congruence | ].
  inversion Hall as [ | ? ? Hx Hrest]; subst.
  destruct (fold_max_spec rest x Hx Hrest) as (Hin & Hle & Hfa).
  split; [exact Hin | ].
  pose proof (Forall_proper_In _ _ Hall Hin) as Hm.
  constructor.
  - rewrite (fltb_units _ _ Hm Hx). apply Z.ltb_ge. exact Hle.
  - rewrite Forall_forall in *. intros y Hy.
    rewrite (fltb_units _ _ Hm (Hrest y Hy)). apply Z.ltb_ge. exact (Hfa y Hy).
Qed.

Lemma sum_between lo hi xs :
  Forall (fun x => lo <= x <= hi) xs ->
  forall acc,
    acc + lo * Z.of_nat (List.length xs)
    <= fold_left Z.add xs acc
    <= acc + hi * Z.of_nat (List.length xs).
Proof.
  induction 1 as [ | x xs Hx _ IH]; intros acc; cbn [fold_left List.length].
  - lia.
  - specialize (IH (acc + x)). lia.
Qed.

Lemma column_nonempty {A : Type} (field : Property -> A) df :
  df <> [] -> Pandas.column field df = Ok (map field df).
Proof. destruct df; [congruence | reflexivity]. Qed.

End Columns.

Section TableStatistics.

Variable R : RandomSource.

Lemma table_not_empty n (df : list Property) :
  0 < n -> List.length df = Z.to_nat n -> df <> [].
Proof. intros Hn Hlen ->. cbn in Hlen. lia. Qed.

Lemma rows_from_tables clk df :
  Forall (row_ok cities_info property_types clk) df ->
  Forall (fun row =>
    In (city row) (keys cities_info)
    /\ In (property_type row) (keys property_types)) df.
Proof.
  intros H. eapply Forall_impl; [ | exact H].
  intros row (cd & pd & Hc & Ht & _).
  split; apply in_map_iff.
  - exists (city row, cd). split; [reflexivity | apply getitem_In; exact Hc].
  - exists (property_type row, pd). split; [reflexivity | apply getitem_In; exact Ht].
Qed.

(** X7. Lines 128 and 129. The cities and the types the script lists for a
    table of at least one row: each list has no repetition, holds exactly
    the values of its column, and holds keys of the table of the
    generator only, so at most six cities and four types. *)
Theorem table_lists_its_cities_and_types n (w : World R) :
  0 < n ->
  exists df w' cities types,
    create_realistic_property_data R n w = Ok (df, w')
    /\ cities_included df = Ok cities
    /\ property_types_included df = Ok types
    /\ NoDup cities /\ NoDup types
    /\ (forall c, In c cities <-> exists row, In row df /\ city row = c)
    /\ (forall t, In t types <-> exists row, In row df /\ property_type row = t)
    /\ incl cities (keys cities_info)
    /\ incl types (keys property_types)
    /\ (0 < List.length cities <= 6)%nat
    /\ (0 < List.length types <= 4)%nat.
Proof.
  intros Hn. destruct (create_ok R n w) as (df & w' & E & Hlen & Hall & _).
  pose proof (table_not_empty n df Hn Hlen) as Hne.
  pose proof (rows_from_tables _ _ Hall) as Hkeys. rewrite Forall_forall in Hkeys.
  destruct (unique_spec (map city df)) as [Hnd1 Hin1].
  destruct (unique_spec (map property_type df)) as [Hnd2 Hin2].
  exists df, w', (Pandas.unique (map city df)),
    (Pandas.unique (map property_type df)).
  split; [exact E | ].
  unfold cities_included, property_types_included.
  rewrite !column_nonempty by exact Hne. cbn [rbind].
  split; [reflexivity | ]. split; [reflexivity | ].
  split; [exact Hnd1 | ]. split; [exact Hnd2 | ].
  assert (Hc : forall c, In c (Pandas.unique (map city df))
                         <-> exists row, In row df /\ city row = c).
  { intros c. rewrite Hin1, in_map_iff. split; intros (row & H1 & H2);
      exists row; tauto. }
  assert (Ht : forall t, In t (Pandas.unique (map property_type df))
                         <-> exists row, In row df /\ property_type row = t).
  { intros t. rewrite Hin2, in_map_iff. split; intros (row & H1 & H2);
      exists row; tauto. }
  split; [exact Hc | ]. split; [exact Ht | ].
  assert (Hi1 : incl (Pandas.unique (map city df)) (keys cities_info)).
  { intros c Hcin. apply Hc in Hcin. destruct Hcin as (row & Hrow & <-).
    apply (Hkeys row Hrow). }
  assert (Hi2 : incl (Pandas.unique (map property_type df)) (keys property_types)).
  { intros t Htin. apply Ht in Htin. destruct Htin as (row & Hrow & <-).
    apply (Hkeys row Hrow). }
  split; [exact Hi1 | ]. split; [exact Hi2 | ].
  destruct df as [ | row0 df']; [congruence | ].
  split; split.
  - assert (Hin : In (city row0) (Pandas.unique (map city (row0 :: df')))).
    { apply Hc. exists row0. split; [left; reflexivity | reflexivity]. }
    destruct (Pandas.unique (map city (row0 :: df'))); [contradiction | cbn; lia].
  - apply (NoDup_incl_length Hnd1 Hi1).
  - assert (Hin : In (property_type row0)
                     (Pandas.unique (map property_type (row0 :: df')))).
    { apply Ht. exists row0. split; [left; reflexivity | reflexivity]. }
    destruct (Pandas.unique (map property_type (row0 :: df')));
      [contradiction | cbn; lia].
  - apply (NoDup_incl_length Hnd2 Hi2).
Qed.

(** X8. Line 138. The two ends of the price range of a table of at least one
    row are prices of rows; no price is below the lower end or above the
    upper one, and the ends lie between 11 and 371 lakhs. *)
Theorem price_range_is_attained_and_bounded n (w : World R) :
  0 < n ->
  exists df w' lo hi,
    create_realistic_property_data R n w = Ok (df, w')
    /\ price_range_of df = Ok (lo, hi)
    /\ (exists row, In row df /\ price_lakhs row = lo)
    /\ (exists row, In row df /\ price_lakhs row = hi)
    /\ Forall (fun row =>
         fltb (price_lakhs row) lo = false
         /\ fltb hi (price_lakhs row) = false) df
    /\ fltb lo (F 11) = false
    /\ fltb (F 371) hi = false.
Proof.
  intros Hn. destruct (create_ok R n w) as (df & w' & E & Hlen & Hall & _).
  pose proof (table_not_empty n df Hn Hlen) as Hne.
  assert (Hprop : Forall proper (map price_lakhs df)).
  { apply Forall_map. eapply Forall_impl; [ | exact Hall].
    intros row Hrow. exact (row_price_proper _ _ Hrow). }
  assert (Hne' : map price_lakhs df <> []).
  { destruct df; [congruence | discriminate]. }
  destruct (series_min_spec _ Hne' Hprop) as [Hmin Hminall].
  destruct (series_max_spec _ Hne' Hprop) as [Hmax Hmaxall].
  exists df, w', (Pandas.series_min (map price_lakhs df)),
    (Pandas.series_max (map price_lakhs df)).
  split; [exact E | ].
  unfold price_range_of. rewrite column_nonempty by exact Hne. cbn [rbind].
  split; [reflexivity | ].
  apply in_map_iff in Hmin. destruct Hmin as (rmin & Emin & Hrmin).
  apply in_map_iff in Hmax. destruct Hmax as (rmax & Emax & Hrmax).
  split; [exists rmin; split; assumption | ].
  split; [exists rmax; split; assumption | ].
  rewrite Forall_map in Hminall, Hmaxall.
  rewrite Forall_forall in Hall, Hminall, Hmaxall.
  split.
  - apply Forall_forall. intros row Hrow. split; [apply Hminall | apply Hmaxall];
      exact Hrow.
  - rewrite <- Emin, <- Emax.
    pose proof (row_price_proper _ _ (Hall _ Hrmin)) as Hp1.
    pose proof (row_price_proper _ _ (Hall _ Hrmax)) as Hp2.
    destruct (row_price_between _ _ (Hall _ Hrmin)) as (_ & Hlo & _).
    destruct (row_price_between _ _ (Hall _ Hrmax)) as (_ & _ & Hhi).
    rewrite (fltb_units _ _ Hp1 (F_proper 11 eq_refl)).
    rewrite (fltb_units _ _ (F_proper 371 eq_refl) Hp2).
    split; apply Z.ltb_ge; assumption.
Qed.

(** X9. Line 139. The average area of a table of at least one row, and of at
    most a billion, is a finite float between 320 and 2600. *)
Theorem average_area_within_area_range n (w : World R) :
  0 < n -> n <= 1000000000 ->
  exists df w' average,
    create_realistic_property_data R n w = Ok (df, w')
    /\ average_area df = Ok average
    /\ proper average
    /\ fltb average (F 320) = false
    /\ fltb (F 2600) average = false.
Proof.
  intros Hn Hbig. destruct (create_ok R n w) as (df & w' & E & Hlen & Hall & _).
  pose proof (table_not_empty n df Hn Hlen) as Hne.
  assert (Hareas : Forall (fun a => 320 <= a <= 2600) (map area_sqft df)).
  { apply Forall_map. eapply Forall_impl; [ | exact Hall].
    intros row Hrow. apply (row_ranges _ _ Hrow). }
  pose proof (sum_between _ _ _ Hareas 0) as Hsum.
  rewrite length_map, Hlen, Z2Nat.id in Hsum by lia.
  assert (Emean : average_area df
                  = int_truediv (fold_left Z.add (map area_sqft df) 0) n).
  { unfold average_area. rewrite column_nonempty by exact Hne.
    unfold Ok, rbind, Pandas.series_mean_int. rewrite length_map, Hlen, Z2Nat.id by lia.
    destruct df; [congruence | reflexivity]. }
  set (total := fold_left Z.add (map area_sqft df) 0) in *.
  assert (Hp53 : 2 ^ 53 < 2 ^ 400) by (apply Z.pow_lt_mono_r; lia).
  destruct (int_truediv_between total n 320 2600) as (avg & Eavg & Hb);
    try lia.
  exists df, w', avg. split; [exact E | ]. split; [congruence | ].
  assert (Hproper : proper avg).
  { split; [apply Hb | ].
    destruct total as [ | p | p]; try lia. destruct n as [ | q | q]; try lia.
    unfold int_truediv in Eavg.
    destruct (is_inf (fdiv (S754_finite false p 0) (S754_finite false q 0)));
      [discriminate | ].
    injection Eavg as <-. apply fdiv_int_valid; lia. }
  split; [exact Hproper | ].
  destruct Hb as (_ & Hlo & Hhi).
  rewrite (fltb_units _ _ Hproper (F_proper 320 eq_refl)).
  rewrite (fltb_units _ _ (F_proper 2600 eq_refl) Hproper).
  split; apply Z.ltb_ge; assumption.
Qed.

End TableStatistics.

Section AgeGroups.

Variable R : RandomSource.

Lemma age_group_cases age :
  age_group age
  = Ok (if (age <=? 0)%Z then None
        else if (age <=? 5)%Z then Some "0-5 years"
        else if (age <=? 10)%Z then Some "6-10 years"
        else if (age <=? 15)%Z then Some "11-15 years"
        else if (age <=? 25)%Z then Some "16+ years"
        else None).
Proof.
  unfold age_group, Pandas.cut. cbn [Pandas.searchsorted_left].
  change (negb (Pandas.nondecreasing [0; 5; 10; 15; 25])) with false.
  change (negb (Pandas.increasing [0; 5; 10; 15; 25])) with false.
  change (negb (Pandas.distinct
                  ["0-5 years"; "6-10 years"; "11-15 years"; "16+ years"]))
    with false.
  cbn [List.length Nat.eqb negb andb].
  destruct (Z.ltb_spec 0 age); destruct (Z.leb_spec age 0); try lia;
    [ | reflexivity].
  destruct (Z.ltb_spec 5 age); destruct (Z.leb_spec age 5); try lia;
    [ | reflexivity].
  destruct (Z.ltb_spec 10 age); destruct (Z.leb_spec age 10); try lia;
    [ | reflexivity].
  destruct (Z.ltb_spec 15 age); destruct (Z.leb_spec age 15); try lia;
    [ | reflexivity].
  destruct (Z.ltb_spec 25 age); destruct (Z.leb_spec age 25); try lia;
    reflexivity.
Qed.

(** X11. step3_simple_analysis.py, lines 66 to 68. The cut never raises; an
    age of 0 or less, or above 25, gets no age group, and the ages 1 to
    5, 6 to 10, 11 to 15 and 16 to 25 get the four labels in order. For
    the ages the generator draws, 0 to 25, a row is left without a group
    exactly when its age is 0. *)
Theorem age_zero_has_no_age_group n (w : World R) :
  (forall age,
     age_group age
     = Ok (if (age <=? 0)%Z then None
           else if (age <=? 5)%Z then Some "0-5 years"
           else if (age <=? 10)%Z then Some "6-10 years"
           else if (age <=? 15)%Z then Some "11-15 years"
           else if (age <=? 25)%Z then Some "16+ years"
           else None))
  /\ exists df w',
       create_realistic_property_data R n w = Ok (df, w')
       /\ Forall (fun row =>
            age_group (property_age_years row) = Ok None
            <-> property_age_years row = 0) df.
Proof.
  split; [exact age_group_cases | ].
  apply every_row. intros clk row Hrow.
  destruct (row_ranges _ _ Hrow) as (_ & _ & _ & Hage & _).
  rewrite age_group_cases.
  destruct (Z.leb_spec (property_age_years row) 0).
  - split; [lia | reflexivity].
  - split; [ | lia].
    destruct (property_age_years row <=? 5)%Z; [discriminate | ].
    destruct (property_age_years row <=? 10)%Z; [discriminate | ].
    destruct (property_age_years row <=? 15)%Z; [discriminate | ].
    destruct (Z.leb_spec (property_age_years row) 25); [discriminate | lia].
Qed.

End AgeGroups.

Section CityLoop.

Lemma city_loop_from (g : string -> float * float) cities :
  forall acc : list (float * float) * list string,
    fold_left (fun acc c => ((fst acc ++ [g c])%list, (snd acc ++ [c])%list))
      cities acc
    = ((fst acc ++ map g cities)%list, (snd acc ++ cities)%list).
Proof.
  induction cities as [ | c cities IH]; intros [a b]; cbn [fold_left map fst snd].
  - rewrite !app_nil_r. reflexivity.
  - rewrite IH. cbn [fst snd]. rewrite <- !app_assoc. reflexivity.
Qed.

Lemma Forall2_map_in {A C : Type} (P : A -> C -> Prop) (g : A -> C) l :
  (forall x, In x l -> P x (g x)) -> Forall2 P l (map g l).
Proof.
  induction l as [ | x l IH]; intros H; cbn [map]; constructor.
  - apply H. left. reflexivity.
  - apply IH. intros y Hy. apply H. right. exact Hy.
Qed.

(** X12. step3_simple_analysis.py, lines 131 to 136. On a frame whose prices
    are proper floats the loop gives one pair per distinct city, in the
    order in which the cities first appear; the two prices of a pair are
    prices of rows of that city, and no row of the city is cheaper than
    the first or dearer than the second. *)
Theorem city_price_ranges_are_attained df :
  Forall (fun row => proper (price_lakhs row)) df ->
  let (city_prices, cities) := city_price_ranges df in
  cities = Pandas.unique (map city df)
  /\ NoDup cities
  /\ (forall row, In row df -> In (city row) cities)
  /\ Forall2 (fun c range =>
       (exists row, In row df /\ city row = c /\ price_lakhs row = fst range)
       /\ (exists row, In row df /\ city row = c /\ price_lakhs row = snd range)
       /\ forall row,
            In row df -> city row = c ->
            fltb (price_lakhs row) (fst range) = false
            /\ fltb (snd range) (price_lakhs row) = false)
       cities city_prices.
Proof.
  intros Hprop. unfold city_price_ranges.
  rewrite (city_loop_from
             (fun c =>
                (Pandas.series_min
                   (map price_lakhs
                      (filter (fun row => String.eqb (city row) c) df)),
                 Pandas.series_max
                   (map price_lakhs
                      (filter (fun row => String.eqb (city row) c) df))))).
  cbn [fst snd app].
  destruct (unique_spec (map city df)) as [Hnd Hin].
  split; [reflexivity | ]. split; [exact Hnd | ].
  split.
  { intros row Hrow. apply Hin. apply in_map. exact Hrow. }
  apply Forall2_map_in. intros c Hc. cbn [fst snd].
  apply Hin in Hc. apply in_map_iff in Hc. destruct Hc as (row0 & Ec & Hrow0).
  set (rows := filter (fun row => String.eqb (city row) c) df).
  assert (Hrows : forall row, In row rows <-> In row df /\ city row = c).
  { intros row. unfold rows. rewrite filter_In, String.eqb_eq. tauto. }
  assert (Hne : map price_lakhs rows <> []).
  { assert (H0 : In row0 rows) by (apply Hrows; tauto).
    destruct rows; [contradiction | discriminate]. }
  assert (Hp : Forall proper (map price_lakhs rows)).
  { apply Forall_map. apply Forall_forall. intros row Hrow.
    rewrite Forall_forall in Hprop. apply Hprop. apply Hrows. exact Hrow. }
  destruct (series_min_spec _ Hne Hp) as [Hmin Hminall].
  destruct (series_max_spec _ Hne Hp) as [Hmax Hmaxall].
  apply in_map_iff in Hmin. destruct Hmin as (rmin & Emin & Hrmin).
  apply in_map_iff in Hmax. destruct Hmax as (rmax & Emax & Hrmax).
  apply Hrows in Hrmin. apply Hrows in Hrmax.
  split; [exists rmin; tauto | ]. split; [exists rmax; tauto | ].
  intros row Hrow Ecity.
  rewrite Forall_map in Hminall, Hmaxall. rewrite Forall_forall in Hminall, Hmaxall.
  assert (Hr : In row rows) by (apply Hrows; tauto).
  split; [apply Hminall | apply Hmaxall]; exact Hr.
Qed.

End CityLoop.

(** ** Witnesses on the concrete source and on a sample frame *)

Lemma table_lists_its_cities_and_types_witness :
  0 < 3
  /\ exists df w' cities types,
       create_realistic_property_data lcg64 3 (world_at t_nov) = Ok (df, w')
       /\ cities_included df = Ok cities
       /\ property_types_included df = Ok types
       /\ NoDup cities /\ NoDup types
       /\ (forall c, In c cities <-> exists row, In row df /\ city row = c)
       /\ (forall t, In t types <-> exists row, In row df /\ property_type row = t)
       /\ incl cities (keys cities_info)
       /\ incl types (keys property_types)
       /\ (0 < List.length cities <= 6)%nat
       /\ (0 < List.length types <= 4)%nat.
Proof.
  split; [lia | ].
  apply (table_lists_its_cities_and_types lcg64 3 (world_at t_nov)). lia.
Defined.

Lemma price_range_is_attained_and_bounded_witness :
  0 < 3
  /\ exists df w' lo hi,
       create_realistic_property_data lcg64 3 (world_at t_nov) = Ok (df, w')
       /\ price_range_of df = Ok (lo, hi)
       /\ (exists row, In row df /\ price_lakhs row = lo)
       /\ (exists row, In row df /\ price_lakhs row = hi)
       /\ Forall (fun row =>
            fltb (price_lakhs row) lo = false
            /\ fltb hi (price_lakhs row) = false) df
       /\ fltb lo (F 11) = false
       /\ fltb (F 371) hi = false.
Proof.
  split; [lia | ].
  apply (price_range_is_attained_and_bounded lcg64 3 (world_at t_nov)). lia.
Defined.

Lemma average_area_within_area_range_witness :
  0 < 500 /\ 500 <= 1000000000
  /\ exists df w' average,
       create_realistic_property_data lcg64 500 (world_at t_nov) = Ok (df, w')
       /\ average_area df = Ok average
       /\ proper average
       /\ fltb average (F 320) = false
       /\ fltb (F 2600) average = false.
Proof.
  split; [lia | ]. split; [lia | ].
  apply (average_area_within_area_range lcg64 500 (world_at t_nov)); lia.
Defined.

Lemma sample_frame_proper :
  Forall (fun row => proper (price_lakhs row)) sample_frame.
Proof.
  unfold sample_frame.
  repeat (apply Forall_cons;
          [split; [apply nonneg_finiteb_true | ]; vm_compute; reflexivity | ]).
  apply Forall_nil.
Qed.

Lemma city_price_ranges_are_attained_witness :
  Forall (fun row => proper (price_lakhs row)) sample_frame
  /\ let (city_prices, cities) := city_price_ranges sample_frame in
     cities = Pandas.unique (map city sample_frame)
     /\ NoDup cities
     /\ (forall row, In row sample_frame -> In (city row) cities)
     /\ Forall2 (fun c range =>
          (exists row,
             In row sample_frame /\ city row = c /\ price_lakhs row = fst range)
          /\ (exists row,
                In row sample_frame /\ city row = c
                /\ price_lakhs row = snd range)
          /\ forall row,
               In row sample_frame -> city row = c ->
               fltb (price_lakhs row) (fst range) = false
               /\ fltb (snd range) (price_lakhs row) = false)
          cities city_prices.
Proof.
  split; [exact sample_frame_proper | ].
  apply (city_price_ranges_are_attained sample_frame sample_frame_proper).
Defined.

Example sample_frame_ranges :
  city_price_ranges sample_frame
  = ([(literal 4575 100, literal 9050 100); (literal 2810 100, literal 2810 100)],
     ["Pune"; "Chennai"]).
Proof. vm_compute. reflexivity. Qed.

Example age_groups_at_the_edges :
  map age_group [0; 1; 5; 6; 25; 26]
  = [Ok None; Ok (Some "0-5 years"); Ok (Some "0-5 years");
     Ok (Some "6-10 years"); Ok (Some "16+ years"); Ok None].
Proof. vm_compute. reflexivity. Qed.

(** ** The most frequent value of a column *)

Section Mode.

Lemma ascii_compare_lt_trans a b c :
  Ascii.compare a b = Lt -> Ascii.compare b c = Lt -> Ascii.compare a c = Lt.
Proof.
  unfold Ascii.compare. rewrite !N.compare_lt_iff. apply N.lt_trans.
Qed.

Lemma string_compare_refl s : String.compare s s = Eq.
Proof.
  induction s as [ | a s IH]; [reflexivity | ]. cbn [String.compare].
  unfold Ascii.compare. rewrite N.compare_refl. exact IH.
Qed.

Lemma string_compare_lt_trans s1 :
  forall s2 s3,
    String.compare s1 s2 = Lt -> String.compare s2 s3 = Lt ->
    String.compare s1 s3 = Lt.
Proof.
  induction s1 as [ | a s1 IH]; intros [ | b s2] [ | c s3];
    cbn [String.compare]; try discriminate; try reflexivity.
  destruct (Ascii.compare a b) eqn:Eab; try discriminate;
    destruct (Ascii.compare b c) eqn:Ebc; try discriminate; intros H1 H2.
  - apply Ascii.compare_eq_iff in Eab, Ebc. subst.
    unfold Ascii.compare. rewrite N.compare_refl. exact (IH _ _ H1 H2).
  - apply Ascii.compare_eq_iff in Eab. subst. rewrite Ebc. reflexivity.
  - apply Ascii.compare_eq_iff in Ebc. subst. rewrite Eab. reflexivity.
  - rewrite (ascii_compare_lt_trans _ _ _ Eab Ebc). reflexivity.
Qed.

Lemma string_leb_refl s : String.leb s s = true.
Proof. unfold String.leb. rewrite string_compare_refl. reflexivity. Qed.

Lemma string_leb_trans s1 s2 s3 :
  String.leb s1 s2 = true -> String.leb s2 s3 = true ->
  String.leb s1 s3 = true.
Proof.
  unfold String.leb.
  destruct (String.compare s1 s2) eqn:E12; try discriminate;
    destruct (String.compare s2 s3) eqn:E23; try discriminate; intros _ _.
  - apply String.compare_eq_iff in E12, E23. subst.
    rewrite string_compare_refl. reflexivity.
  - apply String.compare_eq_iff in E12. subst. rewrite E23. reflexivity.
  - apply String.compare_eq_iff in E23. subst. rewrite E12. reflexivity.
  - rewrite (string_compare_lt_trans _ _ _ E12 E23). reflexivity.
Qed.

(** The first element of a list is not above any element. *)
Definition least_first (l : list string) : Prop :=
  match l with
  | [] => True
  | x :: _ => forall y, In y l -> String.leb x y = true
  end.

Lemma insert_sorted_spec v sorted :
  least_first sorted ->
  least_first (Pandas.insert_sorted v sorted)
  /\ forall y, In y (Pandas.insert_sorted v sorted) <-> y = v \/ In y sorted.
Proof.
  revert v. induction sorted as [ | x rest IH]; intros v Hs;
    cbn [Pandas.insert_sorted].
  - split.
    + intros y [<- | []]. apply string_leb_refl.
    + intros y. cbn [In]. split; [intros [<- | []]; auto | intros [-> | []]; auto].
  - destruct (String.leb v x) eqn:E.
    + split.
      * intros y [<- | Hy]; [apply string_leb_refl | ].
        apply (string_leb_trans _ x); [exact E | apply Hs; exact Hy].
      * intros y. cbn [In]. split; [intros [<- | H]; auto | intros [-> | H]; auto].
    + assert (Hin : forall y, In y (Pandas.insert_sorted v rest)
                              <-> y = v \/ In y rest).
      { clear IH Hs E. induction rest as [ | z rest IH];
          cbn [Pandas.insert_sorted]; intros y.
        - cbn [In]. split; [intros [<- | []]; auto | intros [-> | []]; auto].
        - destruct (String.leb v z); cbn [In]; [ | rewrite IH]; split;
            intuition auto. }
      split.
      * intros y [<- | Hy]; [apply string_leb_refl | ].
        apply Hin in Hy. destruct Hy as [-> | Hy].
        -- destruct (String.leb_total v x) as [H | H]; [congruence | exact H].
        -- apply Hs. right. exact Hy.
      * intros y. cbn [In]. rewrite Hin. tauto.
Qed.

Lemma sort_strings_spec l :
  least_first (Pandas.sort_strings l)
  /\ forall y, In y (Pandas.sort_strings l) <-> In y l.
Proof.
  induction l as [ | v l [IH1 IH2]]; cbn [Pandas.sort_strings fold_right].
  - split; [exact I | tauto].
  - fold (Pandas.sort_strings l).
    destruct (insert_sorted_spec v _ IH1) as [H1 H2].
    split; [exact H1 | ]. intros y. rewrite H2, IH2. cbn [In]. split;
      intros [H | H]; auto.
Qed.

Lemma fold_max_ge l :
  forall acc,
    (acc <= fold_left Nat.max l acc)%nat
    /\ Forall (fun c => (c <= fold_left Nat.max l acc)%nat) l
    /\ (fold_left Nat.max l acc = acc \/ In (fold_left Nat.max l acc) l).
Proof.
  induction l as [ | c l IH]; intros acc; cbn [fold_left].
  - split; [lia | ]. split; [constructor | left; reflexivity].
  - destruct (IH (Nat.max acc c)) as (H1 & H2 & H3).
    split; [lia | ]. split; [constructor; [lia | exact H2] | ].
    destruct H3 as [H3 | H3]; [ | right; right; exact H3].
    destruct (Nat.max_spec acc c) as [[_ E] | [_ E]].
    + right. left. rewrite H3. symmetry. exact E.
    + left. rewrite H3. exact E.
Qed.

Lemma count_of_pos v values :
  In v values <-> (0 < Pandas.count_of v values)%nat.
Proof.
  unfold Pandas.count_of. split.
  - intros H. assert (Hin : In v (filter (String.eqb v) values)).
    { apply filter_In. split; [exact H | apply String.eqb_refl]. }
    destruct (filter (String.eqb v) values); [contradiction | cbn; lia].
  - intros H. destruct (filter (String.eqb v) values) as [ | x l] eqn:E;
      [cbn in H; lia | ].
    assert (Hin : In x (filter (String.eqb v) values)) by (rewrite E; left; reflexivity).
    apply filter_In in Hin. destruct Hin as [Hin Heq].
    apply String.eqb_eq in Heq. subst. exact Hin.
Qed.

(** X13. step3_simple_analysis.py, line 240. On a frame of at least one row
    the most popular property type is a type of the frame that no other
    type outnumbers; of the types that occur as often, it is the first
    in the order of strings. *)
Theorem most_popular_type_is_most_frequent df :
  df <> [] ->
  exists t,
    most_popular_property_type df = Ok t
    /\ (exists row, In row df /\ property_type row = t)
    /\ forall t',
         (Pandas.count_of t' (map property_type df)
          <= Pandas.count_of t (map property_type df))%nat
         /\ (Pandas.count_of t' (map property_type df)
             = Pandas.count_of t (map property_type df) ->
             String.leb t t' = true).
Proof.
  intros Hne. unfold most_popular_property_type, Pandas.mode.
  set (values := map property_type df).
  assert (Hv : values <> []) by (unfold values; destruct df; [congruence | discriminate]).
  destruct (unique_spec values) as [_ Hin].
  set (u := Pandas.unique values) in *.
  set (counts := map (fun v => Pandas.count_of v values) u).
  destruct (fold_max_ge counts O) as (_ & Hge & Htop).
  set (top := fold_left Nat.max counts O) in *.
  assert (Hall : forall v, (Pandas.count_of v values <= top)%nat).
  { intros v. destruct (in_dec string_dec v values) as [Hi | Hn].
    - rewrite Forall_forall in Hge. apply Hge. unfold counts.
      apply in_map_iff. exists v. split; [reflexivity | apply Hin; exact Hi].
    - destruct (Pandas.count_of v values) eqn:E; [lia | ].
      exfalso. apply Hn. apply count_of_pos. lia. }
  assert (Hsome : exists v, In v u /\ Pandas.count_of v values = top).
  { destruct Htop as [Hz | Hi].
    - destruct values as [ | v0 values'] eqn:Ev; [congruence | ].
      assert (Hv0 : In v0 (v0 :: values')) by (left; reflexivity).
      pose proof (proj1 (count_of_pos v0 _) Hv0) as Hpos.
      pose proof (Hall v0). lia.
    - unfold counts in Hi. apply in_map_iff in Hi.
      destruct Hi as (v & E & Hvu). exists v. split; assumption. }
  set (modes := filter (fun v => (Pandas.count_of v values =? top)%nat) u).
  assert (Hmodes : forall v, In v modes
                             <-> In v u /\ Pandas.count_of v values = top).
  { intros v. unfold modes. rewrite filter_In, Nat.eqb_eq. tauto. }
  destruct (sort_strings_spec modes) as [Hleast Hsame].
  destruct (Pandas.sort_strings modes) as [ | t sorted] eqn:Es.
  { destruct Hsome as (v & Hvu & Hc). exfalso.
    apply (proj2 (Hsame v)). apply Hmodes. split; assumption. }
  exists t. split; [reflexivity | ].
  assert (Ht : In t modes) by (apply Hsame; left; reflexivity).
  apply Hmodes in Ht. destruct Ht as [Htu Htc].
  split.
  { apply Hin in Htu. unfold values in Htu. apply in_map_iff in Htu.
    destruct Htu as (row & E & Hrow). exists row. split; assumption. }
  intros t'. rewrite Htc. split; [apply Hall | ].
  intros Hc. apply Hleast. apply Hsame. apply Hmodes. split; [ | exact Hc].
  apply Hin. apply count_of_pos. rewrite Hc.
  apply Hin in Htu. apply count_of_pos in Htu. lia.
Qed.

End Mode.

Lemma sample_frame_not_empty : sample_frame <> [].
Proof. discriminate. Qed.

Lemma most_popular_type_is_most_frequent_witness :
  sample_frame <> []
  /\ exists t,
       most_popular_property_type sample_frame = Ok t
       /\ (exists row, In row sample_frame /\ property_type row = t)
       /\ forall t',
            (Pandas.count_of t' (map property_type sample_frame)
             <= Pandas.count_of t (map property_type sample_frame))%nat
            /\ (Pandas.count_of t' (map property_type sample_frame)
                = Pandas.count_of t (map property_type sample_frame) ->
                String.leb t t' = true).
Proof.
  split; [exact sample_frame_not_empty | ].
  apply (most_popular_type_is_most_frequent sample_frame sample_frame_not_empty).
Defined.

Example sample_frame_most_popular :
  most_popular_property_type sample_frame = Ok "1BHK"%string.
Proof. vm_compute. reflexivity. Qed.
